(** * mcp-guide: the MCP client orchestrator (mcp-client.ts)

    A shallow embedding of the client of the repository: the class
    [MCPClient] (connectToServer, processQuery, chatLoop, cleanup,
    hasActiveSessions) and the function [main], together with the
    JavaScript built-ins they rely on.

    - Strings are [string]; the separator of qualified tool names is the
      ASCII text "__", so scanning bytes or UTF-16 code units finds the
      same occurrences.
    - A JavaScript [Map] is an association list in insertion order.
    - Everything outside the client (the MCP SDK, the OpenAI service, JSON,
      the terminal) is a field of a record [World]; each answer may depend
      on the whole history of interactions so far.
    - An [async] method is a function from the state before to an outcome
      and the state after; every interaction is appended to a trace.  An
      awaited call on an outside object resolves or rejects; the only
      promise that may stay pending is a question of [chatLoop] that no
      line answers.
    - The result of a tool call is read through [interface MCPToolResult],
      as the source casts it: its [content] is a string. *)

From Stdlib Require Import String Ascii List Bool Arith ZArith Lia.
Import ListNotations.
Open Scope string_scope.

(* ================================================================== *)
(** ** JavaScript string built-ins used by the client *)

Module JsString.

(** [s.startsWith(search)] *)
Fixpoint startsWith (search s : string) : bool :=
  match search with
  | EmptyString => true
  | String a search' =>
      match s with
      | EmptyString => false
      | String b s' => Ascii.eqb a b && startsWith search' s'
      end
  end.

(** [s.endsWith(search)] *)
Definition endsWith (search s : string) : bool :=
  let n := String.length s in
  let m := String.length search in
  Nat.leb m n && String.eqb (substring (n - m) m s) search.

(** [s.includes(search)] *)
Fixpoint includes (search s : string) : bool :=
  startsWith search s ||
  match s with
  | EmptyString => false
  | String _ rest => includes search rest
  end.

(** The scan of [s.split(sep)] for a non-empty [sep]: [cur] is the piece
    being accumulated, [skip] the number of characters of a matched
    separator still to step over.  Matches are taken leftmost first and do
    not overlap. *)
Fixpoint split_from (sep : string) (skip : nat) (cur s : string) : list string :=
  match s with
  | EmptyString => [cur]
  | String ch rest =>
      match skip with
      | S k => split_from sep k cur rest
      | O =>
          if startsWith sep s
          then cur :: split_from sep (String.length sep - 1) EmptyString rest
          else split_from sep 0 (cur ++ String ch EmptyString) rest
      end
  end.

Fixpoint chars (s : string) : list string :=
  match s with
  | EmptyString => []
  | String ch rest => String ch EmptyString :: chars rest
  end.

(** [s.split(sep)]: with the empty separator the string is cut into its
    characters, otherwise at every occurrence of [sep]. *)
Definition split (sep s : string) : list string :=
  match sep with
  | EmptyString => chars s
  | _ => split_from sep 0 EmptyString s
  end.

(** [arr.join(sep)] *)
Definition join (sep : string) (arr : list string) : string := String.concat sep arr.

(** Truthiness of a string: the empty string is falsy. *)
Definition truthy (s : string) : bool := negb (String.eqb s EmptyString).

(** The line feed, written as a backslash and an n in the source. *)
Definition LF : string := String (Ascii.ascii_of_nat 10) EmptyString.

End JsString.

Import JsString.

(* ================================================================== *)
(** ** Qualified tool names *)

(** The reserved separator of the template [`${serverName}__${tool.name}`]. *)
Definition SEP : string := "__".

(** [`${serverName}__${tool.name}`] (processQuery, catalog construction). *)
Definition qualifiedName (serverName toolName : string) : string :=
  serverName ++ SEP ++ toolName.

(** [const [serverName, toolName] = name.split("__")]: the first two
    elements of the pieces; a missing element is [undefined]. *)
Definition destructure2 (parts : list string) : option string * option string :=
  (nth_error parts 0, nth_error parts 1).

Definition splitQualifiedName (name : string) : option string * option string :=
  destructure2 (split SEP name).

(* ================================================================== *)
(** ** Data of the client *)

(** A thrown [Error], by its message. *)
Definition Error : Type := string.

(** The result of an awaited call on an outside object: it either resolves
    with a value or rejects with an error. *)
Inductive Result (A : Type) : Type :=
| Ok (a : A)
| Err (e : Error).
Arguments Ok {A} a.
Arguments Err {A} e.

(** JSON values; the parser and the printer belong to the runtime. *)
#[local] Unset Elimination Schemes.
Inductive Json : Type :=
| JNull
| JBool (b : bool)
| JNumber (literal : string)
| JString (s : string)
| JArray (items : list Json)
| JObject (members : list (string * Json)).
#[local] Set Elimination Schemes.

Definition URL : Type := string.

(** [interface ServerConfig] *)
Inductive ServerType : Type := type_command | type_sse | type_http.

Record ServerConfig : Type := {
  cfg_name : string;
  cfg_type : ServerType;
  cfg_command : option string;
  cfg_url : option string;
  cfg_isOpen : option bool
}.

(** The constant [config] of the source. *)
Definition config : list ServerConfig :=
  [ {| cfg_name := "demo-stdio-v1"; cfg_type := type_command;
       cfg_command := Some "tsx mcp-server-v1.ts"; cfg_url := None;
       cfg_isOpen := Some true |};
    {| cfg_name := "demo-stdio-v2"; cfg_type := type_command;
       cfg_command := Some "tsx mcp-server-v2.ts"; cfg_url := None;
       cfg_isOpen := Some false |};
    {| cfg_name := "demo-mcp-protocol"; cfg_type := type_http;
       cfg_command := None; cfg_url := Some "http://localhost:3000";
       cfg_isOpen := Some false |} ].

(** [Tool] of the MCP SDK, as far as the client reads it. *)
Record Tool : Type := {
  tool_name : string;
  tool_description : option string;
  tool_inputSchema : Json
}.

(** An entry of [availableTools]: [{type: "function", function: {...}}]. *)
Record FunctionTool : Type := {
  fn_name : string;
  fn_description : string;
  fn_parameters : Json
}.

(** A tool call of a model message: [{id, function: {name, arguments}}]. *)
Record ToolCall : Type := {
  tc_id : string;
  tc_name : string;
  tc_arguments : string
}.

(** [ChatCompletionMessageParam], the three shapes the client builds. *)
Inductive ChatCompletionMessageParam : Type :=
| UserMessage (content : string)
| AssistantMessage (content : string) (tool_calls : list ToolCall)
| ToolMessage (tool_call_id : string) (content : string).

Record ChatCompletionMessage : Type := {
  msg_content : option string;
  msg_tool_calls : option (list ToolCall)
}.

Record Choice : Type := { choice_message : ChatCompletionMessage }.

Record ChatCompletion : Type := { choices : list Choice }.

(** The argument of [openai.chat.completions.create]. *)
Record CompletionRequest : Type := {
  req_model : option string;
  req_messages : list ChatCompletionMessageParam;
  req_tools : list FunctionTool;
  req_tool_choice : string
}.

(** [interface MCPToolResult] *)
Record MCPToolResult : Type := { result_content : string }.

Record StdioServerParameters : Type := {
  sp_command : string;
  sp_args : list string;
  sp_env : list (string * string)
}.

Inductive TransportKind : Type :=
| StdioClientTransport (serverParams : StdioServerParameters)
| SSEClientTransport (url : URL)
| StreamableHTTPClientTransport (url : URL).

(** Objects have an identity: two transports built from the same
    parameters are different objects. *)
Record Transport : Type := { transport_id : nat; transport_kind : TransportKind }.

Record Client : Type := { client_id : nat }.

(** An argument printed by [console.log] / [console.error]. *)
Inductive LogArg : Type :=
| LogStr (s : string)
| LogStrs (l : list string)
| LogErr (e : Error).

(** One interaction of the client with the outside, with its answer. *)
Inductive Event : Type :=
| EvConnect (c : Client) (t : Transport) (r : Result unit)
| EvListTools (c : Client) (r : Result (list Tool))
| EvCallTool (c : Client) (name : option string) (arguments : Json)
             (r : Result MCPToolResult)
| EvClose (t : Transport) (r : Result unit)
| EvCompletion (req : CompletionRequest) (r : Result ChatCompletion)
| EvConsoleLog (args : list LogArg)
| EvConsoleError (args : list LogArg)
| EvQuestion (prompt answer : string)
| EvReadlineClose.

(** Everything the client does not define itself.  The answer of an
    outside call may depend on the interactions that came before it.
    [w_config] stands for the constant [config]: the client reads nothing
    else of it, and the properties hold for every list of configurations.
    [readline_answers] are the lines with which the readline interface
    answers the successive questions of [chatLoop], one each: a line of the
    standard input answers the question that is pending when it arrives,
    and a line that arrives while no question is pending is dropped, so
    that it is not among them.  [readline_closed] tells what becomes of
    the question that follows the last of them: the input has ended and
    the interface is closed by the time it is asked, so that [question]
    throws, or the question is never answered. *)
Record World : Type := {
  w_config : list ServerConfig;
  OPENAI_MODEL : option string;
  homedir : string;
  process_env : list (string * option string);
  new_URL : string -> Result URL;
  JSON_parse : string -> Result Json;
  JSON_stringify : Json -> string;
  String_trim : string -> string;
  String_toLowerCase : string -> string;
  Client_connect : list Event -> Client -> Transport -> Result unit;
  Client_listTools : list Event -> Client -> Result (list Tool);
  Client_callTool : list Event -> Client -> option string -> Json -> Result MCPToolResult;
  Transport_close : list Event -> Transport -> Result unit;
  chat_completions_create : list Event -> CompletionRequest -> Result ChatCompletion;
  readline_answers : list string;
  readline_closed : bool
}.

(* ================================================================== *)
(** ** JavaScript [Map], in insertion order *)

Module JsMap.
Section JsMap.
Context {V : Type}.

Definition t : Type := list (string * V).

Fixpoint get (k : string) (m : t) : option V :=
  match m with
  | [] => None
  | (k', v) :: rest => if String.eqb k' k then Some v else get k rest
  end.

Definition has (k : string) (m : t) : bool :=
  match get k m with Some _ => true | None => false end.

(** [m.set(k, v)]: an existing key keeps its place and takes the new
    value, a new key goes to the end. *)
Fixpoint set (k : string) (v : V) (m : t) : t :=
  match m with
  | [] => [(k, v)]
  | (k', v') :: rest =>
      if String.eqb k' k then (k', v) :: rest else (k', v') :: set k v rest
  end.

Definition size (m : t) : nat := List.length m.
Definition keys (m : t) : list string := map fst m.
Definition values (m : t) : list V := map snd m.
Definition clear (m : t) : t := [].
End JsMap.
End JsMap.

(* ================================================================== *)
(** ** State and the monad of [async] code *)

(** The fields of [MCPClient] ([sessions], [transports]), the trace of
    interactions and the counter that names new objects. *)
Record State : Type := {
  sessions : list (string * Client);
  transports : list (string * Transport);
  trace : list Event;
  next_id : nat
}.

Definition initial_state : State :=
  {| sessions := []; transports := []; trace := []; next_id := 0 |}.

(** How an awaited computation ends: it resolves, it rejects, or it
    stays pending for ever. *)
Inductive Outcome (A : Type) : Type :=
| Return (a : A)
| Throw (e : Error)
| Pending.
Arguments Return {A} a.
Arguments Throw {A} e.
Arguments Pending {A}.

Definition M (A : Type) : Type := State -> Outcome A * State.

Definition ret {A} (a : A) : M A := fun st => (Return a, st).

Definition throw {A} (e : Error) : M A := fun st => (Throw e, st).

Definition pending {A} : M A := fun st => (Pending, st).

Definition bind {A B} (m : M A) (k : A -> M B) : M B :=
  fun st =>
    match m st with
    | (Return a, st') => k a st'
    | (Throw e, st') => (Throw e, st')
    | (Pending, st') => (Pending, st')
    end.

Declare Scope js_scope.
Delimit Scope js_scope with js.
Notation "x <- m ;; k" := (bind m (fun x => k))
  (at level 100, m at next level, right associativity) : js_scope.
Notation "m ;;; k" := (bind m (fun _ => k))
  (at level 100, right associativity) : js_scope.
Open Scope js_scope.

(** [try { m } catch (error) { handler error }] *)
Definition try_catch {A} (m : M A) (handler : Error -> M A) : M A :=
  fun st =>
    match m st with
    | (Throw e, st') => handler e st'
    | other => other
    end.

(** [try { m } finally { f }]: [f] runs when [m] resolves or rejects; a
    rejection of [f] replaces the outcome of [m]. *)
Definition try_finally {A} (m : M A) (f : M unit) : M A :=
  fun st =>
    match m st with
    | (Pending, st') => (Pending, st')
    | (r, st') =>
        match f st' with
        | (Return _, st'') => (r, st'')
        | (Throw e', st'') => (Throw e', st'')
        | (Pending, st'') => (Pending, st'')
        end
    end.

(** [for (const x of l) { acc = body x acc }], the loop variables that the
    body updates being threaded as [acc]. *)
Fixpoint for_of {A L} (body : A -> L -> M L) (l : list A) (acc : L) : M L :=
  match l with
  | [] => ret acc
  | x :: rest => acc' <- body x acc ;; for_of body rest acc'
  end.

Definition emit (ev : Event) : M unit :=
  fun st =>
    (Return tt,
     {| sessions := sessions st; transports := transports st;
        trace := trace st ++ [ev]; next_id := next_id st |}).

(** An awaited call on an outside object: the answer is asked of the
    world at the current history and recorded. *)
Definition await {A} (answer : list Event -> Result A) (record : Result A -> Event) : M A :=
  fun st =>
    let r := answer (trace st) in
    let st' := {| sessions := sessions st; transports := transports st;
                  trace := trace st ++ [record r]; next_id := next_id st |} in
    match r with
    | Ok a => (Return a, st')
    | Err e => (Throw e, st')
    end.

(** A synchronous library call that may throw. *)
Definition lift {A} (r : Result A) : M A :=
  match r with
  | Ok a => ret a
  | Err e => throw e
  end.

Definition fresh_id : M nat :=
  fun st =>
    (Return (next_id st),
     {| sessions := sessions st; transports := transports st;
        trace := trace st; next_id := S (next_id st) |}).

Definition get_sessions : M (list (string * Client)) := fun st => (Return (sessions st), st).

Definition get_transports : M (list (string * Transport)) :=
  fun st => (Return (transports st), st).

Definition put_sessions (m : list (string * Client)) : M unit :=
  fun st =>
    (Return tt,
     {| sessions := m; transports := transports st;
        trace := trace st; next_id := next_id st |}).

Definition put_transports (m : list (string * Transport)) : M unit :=
  fun st =>
    (Return tt,
     {| sessions := sessions st; transports := m;
        trace := trace st; next_id := next_id st |}).

Definition console_log (args : list LogArg) : M unit := emit (EvConsoleLog args).
Definition console_error (args : list LogArg) : M unit := emit (EvConsoleError args).

(** A template literal prints [undefined] for a missing value. *)
Definition show (o : option string) : string :=
  match o with
  | Some s => s
  | None => "undefined"
  end.

(* ================================================================== *)
(** ** class MCPClient *)

Section MCPClient.
Variable w : World.

(** [static getOpenServers()] *)
Definition getOpenServers : list string :=
  map cfg_name
      (filter (fun cfg => match cfg_isOpen cfg with Some b => b | None => false end)
              (w_config w)).

(** [arg.replace("~", homedir())] for an argument that starts with "~/":
    the first "~" is the first character.  (A home directory holds no "$"
    replacement pattern.) *)
Definition expandTilde (arg : string) : string :=
  if startsWith "~/" arg
  then match arg with
       | String _ rest => homedir w ++ rest
       | EmptyString => arg
       end
  else arg.

Definition new_Transport (kind : TransportKind) : M Transport :=
  id <- fresh_id ;;
  ret {| transport_id := id; transport_kind := kind |}.

(** [private async createCommandTransport(shell)] *)
Definition createCommandTransport (shell : string) : M Transport :=
  match split " " shell with
  | [] => throw "Invalid shell command"
  | command :: shellArgs =>
      if negb (truthy command) then throw "Invalid shell command"
      else
        let args := map expandTilde shellArgs in
        let env :=
          flat_map (fun kv => match snd kv with
                              | Some v => [(fst kv, v)]
                              | None => []
                              end) (process_env w) in
        new_Transport
          (StdioClientTransport
             {| sp_command := command; sp_args := args; sp_env := env |})
  end.

(** [private async createSSETransport(url)] *)
Definition createSSETransport (url : string) : M Transport :=
  u <- lift (new_URL w url) ;;
  new_Transport (SSEClientTransport u).

(** [private async createHttpTransport(url)] *)
Definition createHttpTransport (url : URL) : M Transport :=
  new_Transport (StreamableHTTPClientTransport url).

Definition new_Client : M Client :=
  id <- fresh_id ;;
  ret {| client_id := id |}.

Definition client_connect (client : Client) (transport : Transport) : M unit :=
  await (fun h => Client_connect w h client transport) (EvConnect client transport).

Definition client_listTools (client : Client) : M (list Tool) :=
  await (fun h => Client_listTools w h client) (EvListTools client).

Definition client_callTool (client : Client) (name : option string) (arguments : Json)
  : M MCPToolResult :=
  await (fun h => Client_callTool w h client name arguments)
        (EvCallTool client name arguments).

Definition transport_close (transport : Transport) : M unit :=
  await (fun h => Transport_close w h transport) (EvClose transport).

Definition openai_create (req : CompletionRequest) : M ChatCompletion :=
  await (fun h => chat_completions_create w h req) (EvCompletion req).

(** The selection of the transport in [connectToServer]. *)
Definition createTransport (serverName : string) (serverConfig : ServerConfig) : M Transport :=
  match cfg_type serverConfig with
  | type_command =>
      match cfg_command serverConfig with
      | Some command =>
          if truthy command then createCommandTransport command
          else throw ("Invalid server configuration for: " ++ serverName)
      | None => throw ("Invalid server configuration for: " ++ serverName)
      end
  | type_sse =>
      match cfg_url serverConfig with
      | Some url =>
          if truthy url then createSSETransport url
          else throw ("Invalid server configuration for: " ++ serverName)
      | None => throw ("Invalid server configuration for: " ++ serverName)
      end
  | type_http =>
      match cfg_url serverConfig with
      | Some url =>
          if truthy url
          then (u <- lift (new_URL w url) ;; createHttpTransport u)
          else throw ("Invalid server configuration for: " ++ serverName)
      | None => throw ("Invalid server configuration for: " ++ serverName)
      end
  end.

(** [async connectToServer(serverName)] *)
Definition connectToServer (serverName : string) : M unit :=
  match find (fun cfg => String.eqb (cfg_name cfg) serverName) (w_config w) with
  | None => throw ("Server configuration not found for: " ++ serverName)
  | Some serverConfig =>
      transport <- createTransport serverName serverConfig ;;
      client <- new_Client ;;
      client_connect client transport ;;;
      ss <- get_sessions ;;
      put_sessions (JsMap.set serverName client ss) ;;;
      ts <- get_transports ;;
      put_transports (JsMap.set serverName transport ts) ;;;
      response <- client_listTools client ;;
      console_log
        [LogStr (LF ++ "Connected to server '" ++ serverName ++ "' with tools:");
         LogStrs (map tool_name response)]
  end.

(** The local variables of [processQuery] that its loops update. *)
Record Locals : Type := {
  messages : list ChatCompletionMessageParam;
  finalText : list string
}.

Definition push_text (line : string) (l : Locals) : Locals :=
  {| messages := messages l; finalText := finalText l ++ [line] |}.

Definition push_messages (ms : list ChatCompletionMessageParam) (l : Locals) : Locals :=
  {| messages := messages l ++ ms; finalText := finalText l |}.

(** Step 1: the entry of [availableTools] for one tool of one server. *)
Definition functionTool (serverName : string) (tool : Tool) : FunctionTool :=
  {| fn_name := qualifiedName serverName tool.(tool_name);
     fn_description := "[" ++ serverName ++ "] " ++ show tool.(tool_description);
     fn_parameters := tool.(tool_inputSchema) |}.

Definition listServerTools (entry : string * Client) (availableTools : list FunctionTool)
  : M (list FunctionTool) :=
  let (serverName, session) := entry in
  response <- client_listTools session ;;
  ret (availableTools ++ map (functionTool serverName) response)%list.

Definition completionRequest (msgs : list ChatCompletionMessageParam)
  (availableTools : list FunctionTool) : CompletionRequest :=
  {| req_model := OPENAI_MODEL w; req_messages := msgs;
     req_tools := availableTools; req_tool_choice := "auto" |}.

(** The line pushed for a tool call whose server is not registered. *)
Definition serverNotFound (serverName : option string) : string :=
  "[Error: Server " ++ show serverName ++ " not found]".

Definition callingTool (toolName serverName : option string) (toolArgs : Json) : string :=
  "[Calling tool " ++ show toolName ++ " on server " ++ show serverName
  ++ " with args " ++ JSON_stringify w toolArgs ++ "]".

(** [this.sessions.get(serverName)] *)
Definition sessions_get (serverName : option string) (ss : list (string * Client))
  : option Client :=
  match serverName with
  | Some k => JsMap.get k ss
  | None => None
  end.

(** The body of [for (const toolCall of message.tool_calls)]. *)
Definition dispatch (availableTools : list FunctionTool) (toolCall : ToolCall) (l : Locals)
  : M Locals :=
  let (serverName, toolName) := splitQualifiedName toolCall.(tc_name) in
  ss <- get_sessions ;;
  match sessions_get serverName ss with
  | None => ret (push_text (serverNotFound serverName) l)
  | Some session =>
      toolArgs <- lift (JSON_parse w toolCall.(tc_arguments)) ;;
      toolResult <- client_callTool session toolName toolArgs ;;
      let l1 := push_text (callingTool toolName serverName toolArgs) l in
      let l2 := push_text toolResult.(result_content) l1 in
      let l3 := push_messages
                  [AssistantMessage EmptyString [toolCall];
                   ToolMessage toolCall.(tc_id) toolResult.(result_content)] l2 in
      console_log [LogStr (LF ++ " -- toolResult.content -- " ++ LF);
                   LogStr toolResult.(result_content)] ;;;
      nextCompletion <- openai_create (completionRequest (messages l3) availableTools) ;;
      match choices nextCompletion with
      | [] => throw "TypeError: Cannot read properties of undefined (reading 'message')"
      | first :: _ =>
          match msg_content (choice_message first) with
          | Some content => if truthy content then ret (push_text content l3) else ret l3
          | None => ret l3
          end
      end
  end.

(** The body of [for (const choice of completion.choices)]. *)
Definition processChoice (availableTools : list FunctionTool) (choice : Choice) (l : Locals)
  : M Locals :=
  let message := choice_message choice in
  let l1 := match msg_content message with
            | Some content => if truthy content then push_text content l else l
            | None => l
            end in
  match msg_tool_calls message with
  | Some tool_calls => for_of (dispatch availableTools) tool_calls l1
  | None => ret l1
  end.

(** [async processQuery(query)] *)
Definition processQuery (query : string) : M string :=
  ss <- get_sessions ;;
  if Nat.eqb (JsMap.size ss) 0 then throw "Not connected to any server"
  else
    let l0 := {| messages := [UserMessage query]; finalText := [] |} in
    availableTools <- for_of listServerTools ss [] ;;
    completion <- openai_create (completionRequest (messages l0) availableTools) ;;
    l <- for_of (processChoice availableTools) (choices completion) l0 ;;
    ret (join LF (finalText l)).

(** The error of [readline.question] on an interface that is closed; the
    executor of the promise of [askQuestion] turns it into a rejection. *)
Definition ERR_USE_AFTER_CLOSE : Error := "Error [ERR_USE_AFTER_CLOSE]: readline was closed".

(** [await askQuestion()] when no line is left to answer the question. *)
Definition unanswered : M unit :=
  if readline_closed w then throw ERR_USE_AFTER_CLOSE else pending.

(** The [while (true)] of [chatLoop], over the lines that answer its
    questions. *)
Fixpoint chatLoop_while (lines : list string) : M unit :=
  match lines with
  | [] => unanswered
  | line :: rest =>
      emit (EvQuestion (LF ++ "Query: ") line) ;;;
      let query := String_trim w line in
      if String.eqb (String_toLowerCase w query) "quit" then ret tt
      else
        try_catch
          (response <- processQuery query ;;
           console_log [LogStr (LF ++ response)])
          (fun error => console_error [LogStr (LF ++ "Error:"); LogErr error]) ;;;
        chatLoop_while rest
  end.

(** [async chatLoop()] *)
Definition chatLoop : M unit :=
  console_log [LogStr (LF ++ "MCP Client Started!")] ;;;
  console_log [LogStr "Type your queries or 'quit' to exit."] ;;;
  try_finally (chatLoop_while (readline_answers w)) (emit EvReadlineClose).

(** [async cleanup()] *)
Definition cleanup : M unit :=
  ts <- get_transports ;;
  for_of (fun transport (_ : unit) => transport_close transport) (JsMap.values ts) tt ;;;
  put_transports (JsMap.clear ts) ;;;
  ss <- get_sessions ;;
  put_sessions (JsMap.clear ss).

(** [hasActiveSessions()] *)
Definition hasActiveSessions : M bool :=
  ss <- get_sessions ;;
  ret (Nat.ltb 0 (JsMap.size ss)).

(** The loop of [main] that connects every open server (lines 302-308). *)
Definition connectOne (serverName : string) (_ : unit) : M unit :=
  try_catch (connectToServer serverName)
    (fun error =>
       console_error
         [LogStr ("Failed to connect to server '" ++ serverName ++ "':"); LogErr error]).

Definition connectAll (openServers : list string) : M unit :=
  for_of connectOne openServers tt.

(** [async function main()] *)
Definition main : M unit :=
  let openServers := getOpenServers in
  console_log [LogStr "Connecting to servers:"; LogStr (join ", " openServers)] ;;;
  try_finally
    (connectAll openServers ;;;
     active <- hasActiveSessions ;;
     if negb active then throw "Failed to connect to any server"
     else chatLoop)
    cleanup.

(** [main().catch(console.error)] *)
Definition run : M unit :=
  try_catch main (fun error => console_error [LogErr error]).

End MCPClient.

(* ================================================================== *)
(** ** Observations on traces *)

(** The Call Requests of one model turn, over all its choices. *)
Definition turn_calls (c : ChatCompletion) : list ToolCall :=
  flat_map (fun ch => match msg_tool_calls (choice_message ch) with
                      | Some l => l
                      | None => []
                      end) (choices c).

(** The model turns that were answered, oldest first. *)
Definition model_turns (h : list Event) : list ChatCompletion :=
  flat_map (fun ev => match ev with
                      | EvCompletion _ (Ok c) => [c]
                      | _ => []
                      end) h.

(** The tool invocations sent to providers: session and local name. *)
Definition invocations (h : list Event) : list (Client * option string) :=
  flat_map (fun ev => match ev with
                      | EvCallTool c name _ _ => [(c, name)]
                      | _ => []
                      end) h.

(** The transports whose [close] was called. *)
Definition closed (h : list Event) : list Transport :=
  flat_map (fun ev => match ev with
                      | EvClose t _ => [t]
                      | _ => []
                      end) h.

(** The session and local name a Call Request is routed to, when its
    server name is registered. *)
Definition route (ss : list (string * Client)) (tc : ToolCall)
  : option (Client * option string) :=
  let (serverName, toolName) := splitQualifiedName tc.(tc_name) in
  match sessions_get serverName ss with
  | Some session => Some (session, toolName)
  | None => None
  end.

Definition routes (ss : list (string * Client)) (tcs : list ToolCall)
  : list (Client * option string) :=
  flat_map (fun tc => match route ss tc with
                      | Some r => [r]
                      | None => []
                      end) tcs.

(** The events a computation adds to the trace. *)
Definition new_events (before after : State) : list Event :=
  skipn (List.length (trace before)) (trace after).

(** The outcomes of the calls of [connectToServer] made by [connectAll],
    one per open server. *)
Fixpoint connect_outcomes (w : World) (openServers : list string) (st : State)
  : list (Outcome unit) :=
  match openServers with
  | [] => []
  | serverName :: rest =>
      fst (connectToServer w serverName st)
      :: connect_outcomes w rest (snd (connectOne w serverName tt st))
  end.

Definition succeeded (o : Outcome unit) : bool :=
  match o with
  | Return _ => true
  | _ => false
  end.

Definition successful_connections (w : World) (openServers : list string) (st : State) : nat :=
  List.length (filter succeeded (connect_outcomes w openServers st)).

(** Whether the conversation loop was entered: [chatLoop] announces itself
    first. *)
Definition entered_chatLoop (h : list Event) : Prop :=
  In (EvConsoleLog [LogStr (LF ++ "MCP Client Started!")]) h.

(** Every connection is refused by the provider. *)
Definition refused (w : World) : Prop :=
  forall h c t, exists e, Client_connect w h c t = Err e.

(* ================================================================== *)
(** ** Scripted worlds for the examples *)

Module Scenario.

Definition server (name : string) : ServerConfig :=
  {| cfg_name := name; cfg_type := type_command;
     cfg_command := Some ("tsx " ++ name ++ ".ts"); cfg_url := None;
     cfg_isOpen := Some true |}.

Definition tool (name : string) : Tool :=
  {| tool_name := name; tool_description := Some name;
     tool_inputSchema := JObject [] |}.

Definition parse (text : string) : Result Json :=
  if String.eqb text "{}" then Ok (JObject [])
  else Err "SyntaxError: Unexpected token".

Definition stringify (j : Json) : string :=
  match j with
  | JObject [] => "{}"
  | _ => "null"
  end.

(** A world whose answers depend on the arguments only. *)
Definition scripted (cfg : list ServerConfig)
  (connect : Client -> Result unit)
  (tools : Client -> Result (list Tool))
  (call : Client -> option string -> Result MCPToolResult)
  (close : Transport -> Result unit)
  (model : CompletionRequest -> Result ChatCompletion)
  (lines : list string) : World :=
  {| w_config := cfg;
     OPENAI_MODEL := Some "gpt-4o";
     homedir := "/home/user";
     process_env := [("PATH", Some "/usr/bin"); ("UNSET", None)];
     new_URL := fun s => Ok s;
     JSON_parse := parse;
     JSON_stringify := stringify;
     String_trim := fun s => s;
     String_toLowerCase := fun s => s;
     Client_connect := fun _ c _ => connect c;
     Client_listTools := fun _ c => tools c;
     Client_callTool := fun _ c name _ => call c name;
     Transport_close := fun _ t => close t;
     chat_completions_create := fun _ req => model req;
     readline_answers := lines;
     readline_closed := true |}.

Definition answer (content : option string) (calls : option (list ToolCall)) : ChatCompletion :=
  {| choices := [ {| choice_message :=
                       {| msg_content := content; msg_tool_calls := calls |} |} ] |}.

Definition request (id name : string) : ToolCall :=
  {| tc_id := id; tc_name := name; tc_arguments := "{}" |}.

(** The first model turn answers [first]; every follow-on turn answers
    [next]. *)
Definition model (first next : ChatCompletion) (req : CompletionRequest)
  : Result ChatCompletion :=
  match req_messages req with
  | [_] => Ok first
  | _ => Ok next
  end.

(** A state with one registered provider, as [connectToServer] leaves it. *)
Definition connected (name : string) : State :=
  let t := {| transport_id := 0;
              transport_kind :=
                StdioClientTransport
                  {| sp_command := "tsx"; sp_args := [name ++ ".ts"];
                     sp_env := [("PATH", "/usr/bin")] |} |} in
  {| sessions := [(name, {| client_id := 1 |})];
     transports := [(name, t)];
     trace := [];
     next_id := 2 |}.

(** One provider; the follow-on turn asks for a second tool. *)
Definition chained_first : ChatCompletion :=
  answer None (Some [request "call_1" "alerts__get-alerts"]).

Definition chained_next : ChatCompletion :=
  answer (Some "Checking the forecast too")
         (Some [request "call_2" "alerts__get-forecast"]).

Definition chained : World :=
  scripted [server "alerts"]
    (fun _ => Ok tt)
    (fun _ => Ok [tool "get-alerts"; tool "get-forecast"])
    (fun _ _ => Ok {| result_content := "No active alerts" |})
    (fun _ => Ok tt)
    (model chained_first chained_next)
    ["alerts for NY"; "quit"].

(** One provider whose tool fails when invoked. *)
Definition failing_tool : World :=
  scripted [server "alerts"]
    (fun _ => Ok tt)
    (fun _ => Ok [tool "get-alerts"])
    (fun _ _ => Err "McpError: tool execution failed")
    (fun _ => Ok tt)
    (model (answer None (Some [request "call_1" "alerts__get-alerts";
                               request "call_2" "alerts__get-alerts"]))
           (answer (Some "done") None))
    ["alerts for NY"; "quit"].

(** Two providers; the first transport cannot be closed. *)
Definition failing_close : World :=
  scripted [server "alerts"; server "geo"]
    (fun _ => Ok tt)
    (fun _ => Ok [tool "get-alerts"])
    (fun _ _ => Ok {| result_content := "ok" |})
    (fun t => if Nat.eqb (transport_id t) 0 then Err "close failed" else Ok tt)
    (model (answer (Some "hello") None) (answer (Some "done") None))
    ["quit"].

(** Two providers; the second accepts the connection and then fails to
    list its tools. *)
Definition failing_list : World :=
  scripted [server "alerts"; server "geo"]
    (fun _ => Ok tt)
    (fun c => if Nat.eqb (client_id c) 3 then Err "McpError: Request timed out"
              else Ok [tool "get-alerts"])
    (fun _ _ => Ok {| result_content := "ok" |})
    (fun _ => Ok tt)
    (model (answer (Some "hello") None) (answer (Some "done") None))
    ["quit"].

(** One provider, which accepts the connection and then fails to list its
    tools. *)
Definition only_failing_list : World :=
  scripted [server "geo"]
    (fun _ => Ok tt)
    (fun _ => Err "McpError: Request timed out")
    (fun _ _ => Ok {| result_content := "ok" |})
    (fun _ => Ok tt)
    (model (answer (Some "hello") None) (answer (Some "done") None))
    ["quit"].

(** No provider accepts the connection. *)
Definition unreachable : World :=
  scripted [server "alerts"; server "geo"]
    (fun _ => Err "ECONNREFUSED")
    (fun _ => Ok [])
    (fun _ _ => Ok {| result_content := "ok" |})
    (fun _ => Ok tt)
    (model (answer (Some "hello") None) (answer (Some "done") None))
    ["quit"].

(** One provider; the input ends after one line, which is not the exit
    word. *)
Definition piped : World :=
  scripted [server "alerts"]
    (fun _ => Ok tt)
    (fun _ => Ok [tool "get-alerts"])
    (fun _ _ => Ok {| result_content := "ok" |})
    (fun _ => Ok tt)
    (model (answer (Some "hello") None) (answer (Some "done") None))
    ["hi"].

(** One provider with a tool whose name holds the separator. *)
Definition nested_name : World :=
  scripted [server "srv"]
    (fun _ => Ok tt)
    (fun _ => Ok [tool "get__alerts"])
    (fun _ _ => Ok {| result_content := "ok" |})
    (fun _ => Ok tt)
    (model (answer None (Some [request "call_1" "srv__get__alerts"]))
           (answer (Some "done") None))
    ["quit"].

(** The model asks for a tool of a provider that is not registered, then
    for one that is. *)
Definition stale_name : World :=
  scripted [server "geo"]
    (fun _ => Ok tt)
    (fun _ => Ok [tool "get-forecast"])
    (fun _ _ => Ok {| result_content := "sunny" |})
    (fun _ => Ok tt)
    (model (answer None (Some [request "call_1" "alerts__get-alerts";
                               request "call_2" "geo__get-forecast"]))
           (answer (Some "done") None))
    ["quit"].

End Scenario.

(* ================================================================== *)
(** ** Runs as relations *)

(** Between [st] and [st'] only the trace grew, by [h]. *)
Definition frame (st st' : State) (h : list Event) : Prop :=
  sessions st' = sessions st /\ transports st' = transports st /\
  next_id st' = next_id st /\ trace st' = (trace st ++ h)%list.

(** The ways one [dispatch] of a tool call can go, with the events it
    leaves, for the registry [ss]. *)
Inductive dispatch_run (w : World) (ss : list (string * Client))
  (availableTools : list FunctionTool) (tc : ToolCall) (l : Locals)
  : Outcome Locals -> list Event -> Prop :=
| run_unknown :
    route ss tc = None ->
    dispatch_run w ss availableTools tc l
      (Return (push_text (serverNotFound (fst (splitQualifiedName tc.(tc_name)))) l)) []
| run_bad_arguments session toolName e :
    route ss tc = Some (session, toolName) ->
    JSON_parse w tc.(tc_arguments) = Err e ->
    dispatch_run w ss availableTools tc l (Throw e) []
| run_invoke_failed session toolName toolArgs e :
    route ss tc = Some (session, toolName) ->
    JSON_parse w tc.(tc_arguments) = Ok toolArgs ->
    dispatch_run w ss availableTools tc l (Throw e)
      [EvCallTool session toolName toolArgs (Err e)]
| run_followup_failed session toolName toolArgs toolResult logged req e :
    route ss tc = Some (session, toolName) ->
    JSON_parse w tc.(tc_arguments) = Ok toolArgs ->
    dispatch_run w ss availableTools tc l (Throw e)
      [EvCallTool session toolName toolArgs (Ok toolResult);
       EvConsoleLog logged; EvCompletion req (Err e)]
| run_followup_empty session toolName toolArgs toolResult logged req next e :
    route ss tc = Some (session, toolName) ->
    JSON_parse w tc.(tc_arguments) = Ok toolArgs ->
    choices next = [] ->
    dispatch_run w ss availableTools tc l (Throw e)
      [EvCallTool session toolName toolArgs (Ok toolResult);
       EvConsoleLog logged; EvCompletion req (Ok next)]
| run_followup session toolName toolArgs toolResult logged req next l' :
    route ss tc = Some (session, toolName) ->
    JSON_parse w tc.(tc_arguments) = Ok toolArgs ->
    choices next <> [] ->
    dispatch_run w ss availableTools tc l (Return l')
      [EvCallTool session toolName toolArgs (Ok toolResult);
       EvConsoleLog logged; EvCompletion req (Ok next)].

(** A [for ... of] loop whose body runs as [P]: it ends after the last
    element, or at the first body that does not return. *)
Inductive loop_run {A L : Type} (P : A -> L -> Outcome L -> list Event -> Prop)
  : list A -> L -> Outcome L -> list Event -> Prop :=
| loop_done acc : loop_run P [] acc (Return acc) []
| loop_break x xs acc r h :
    P x acc r h -> (forall a, r <> Return a) -> loop_run P (x :: xs) acc r h
| loop_step x xs acc acc' h1 r h2 :
    P x acc (Return acc') h1 -> loop_run P xs acc' r h2 ->
    loop_run P (x :: xs) acc r (h1 ++ h2)%list.

Definition choice_calls (choice : Choice) : list ToolCall :=
  match msg_tool_calls (choice_message choice) with
  | Some l => l
  | None => []
  end.

(** The run of [processChoice]. *)
Definition choice_run (w : World) (ss : list (string * Client))
  (availableTools : list FunctionTool) (choice : Choice) (l : Locals)
  (r : Outcome Locals) (h : list Event) : Prop :=
  exists l1, loop_run (dispatch_run w ss availableTools) (choice_calls choice) l1 r h.

Definition returned {A} (r : Outcome A) : Prop := exists a, r = Return a.

(** What a run of the dispatch loops does with the routes [expected] of
    its Call Requests: it invokes a prefix of them, all of them when it
    returns, and asks the model for one follow-on turn per invocation. *)
Definition follows {A} (expected : list (Client * option string))
  (r : Outcome A) (h : list Event) : Prop :=
  exists rest,
    expected = (invocations h ++ rest)%list /\
    List.length (model_turns h) <= List.length (invocations h) /\
    (returned r ->
     rest = [] /\ List.length (model_turns h) = List.length (invocations h)).

(** No provider tool is invoked and no model turn is answered in [h]. *)
Definition quiet (h : list Event) : Prop := invocations h = [] /\ model_turns h = [].

(** A failed invocation is the last event of the run and its error is the
    outcome. *)
Definition aborts_on_invoke_failure {A} (r : Outcome A) (h : list Event) : Prop :=
  forall c name args e,
    In (EvCallTool c name args (Err e)) h ->
    r = Throw e /\ exists h0, h = (h0 ++ [EvCallTool c name args (Err e)])%list.

(* ================================================================== *)
(** ** The claims that the code does not meet, as they are written *)


(** C2 as written: a failed invocation does not abort the query. *)
Definition invoke_failure_tolerated (w : World) (query : string) (st : State) : Prop :=
  let (r, st') := processQuery w query st in
  forall c name args e,
    In (EvCallTool c name args (Err e)) (new_events st st') -> returned r.

(** C3 as written: [cleanup] closes every binding, clears the registry and
    does not raise. *)
Definition closes_all_and_clears (w : World) (st : State) : Prop :=
  let (r, st') := cleanup w st in
  r = Return tt /\
  closed (new_events st st') = JsMap.values (transports st) /\
  sessions st' = [] /\ transports st' = [].

(** C6 as written: separator-free names always survive the round trip. *)
Definition roundtrip_for_separator_free_names : Prop :=
  forall p c : string,
    includes SEP p = false -> includes SEP c = false ->
    splitQualifiedName (qualifiedName p c) = (Some p, Some c).

(** A turn of the conversation that is attributed to a Call Request: it
    carries the request or its identifier. *)
Definition attributed_to (tc : ToolCall) (turn : ChatCompletionMessageParam) : Prop :=
  match turn with
  | UserMessage _ => False
  | AssistantMessage _ tool_calls => In tc tool_calls
  | ToolMessage tool_call_id _ => tool_call_id = tc_id tc
  end.

(** C8 as written: the dispatch of a Call Request whose server name is not
    registered adds one turn, attributed to that request, to the
    conversation. *)
Definition unresolved_request_gets_a_turn (w : World) (availableTools : list FunctionTool)
  (tc : ToolCall) (l : Locals) (st : State) : Prop :=
  route (sessions st) tc = None ->
  let (r, _) := dispatch w availableTools tc l st in
  exists l' turn,
    r = Return l' /\ messages l' = (messages l ++ [turn])%list /\ attributed_to tc turn.

(** C9 as written: registering a name twice is refused and changes
    nothing. *)
Definition duplicate_rejected (w : World) (serverName : string) (st : State) : Prop :=
  JsMap.has serverName (sessions st) = true ->
  let (r, st') := connectToServer w serverName st in
  (exists e, r = Throw e) /\ sessions st' = sessions st.

(* ================================================================== *)
(** ** Further observations *)

(** Both maps of the client hold the same names in the same order. *)
Definition registry_aligned (st : State) : Prop :=
  JsMap.keys (sessions st) = JsMap.keys (transports st).

(** The interactions a query may have: listing tools, invoking a tool,
    asking the model, and printing a progress line. *)
Definition query_event (ev : Event) : Prop :=
  match ev with
  | EvListTools _ _ | EvCallTool _ _ _ _ | EvCompletion _ _ | EvConsoleLog _ => True
  | _ => False
  end.

(** The requests sent to the model, oldest first. *)
Definition requests (h : list Event) : list CompletionRequest :=
  flat_map (fun ev => match ev with
                      | EvCompletion req _ => [req]
                      | _ => []
                      end) h.







(** The lines that answered the questions of [chatLoop]. *)
Definition questions (h : list Event) : list string :=
  flat_map (fun ev => match ev with
                      | EvQuestion _ answer => [answer]
                      | _ => []
                      end) h.

(** The exit test of [chatLoop] on a line of input. *)
Definition is_quit (w : World) (line : string) : bool :=
  String.eqb (String_toLowerCase w (String_trim w line)) "quit".

(** The lines [chatLoop] reads, up to and including the first one that
    passes the exit test, and whether there is such a line. *)
Fixpoint read_until_quit (w : World) (lines : list string) : list string * bool :=
  match lines with
  | [] => ([], false)
  | line :: rest =>
      if is_quit w line then ([line], true)
      else let (read, found) := read_until_quit w rest in (line :: read, found)
  end.

(** How [chatLoop] ends: it returns when the exit word is read; without
    it, it rejects when the interface is closed at the next question and
    stays pending when that question is never answered. *)
Definition chat_outcome (w : World) : Outcome unit :=
  if snd (read_until_quit w (readline_answers w)) then Return tt
  else if readline_closed w then Throw (ERR_USE_AFTER_CLOSE) else Pending.

(** The free text of a model turn: the content of every choice whose
    content is neither missing nor empty. *)
Definition contents (c : ChatCompletion) : list string :=
  flat_map (fun ch => match msg_content (choice_message ch) with
                      | Some content => if truthy content then [content] else []
                      | None => []
                      end) (choices c).

(** The catalog built from the tools answered by the sessions [ss]. *)
Definition catalog (ss : list (string * Client)) (answers : list (list Tool))
  : list FunctionTool :=
  flat_map (fun p => map (functionTool (fst (fst p))) (snd p)) (combine ss answers).

(** The listing of the tools of the sessions [ss], answered by [answers]. *)
Definition listing (ss : list (string * Client)) (answers : list (list Tool))
  : list Event :=
  map (fun p => EvListTools (snd (fst p)) (Ok (snd p))) (combine ss answers).

Definition outcome_map {A B} (f : A -> B) (r : Outcome A) : Outcome B :=
  match r with
  | Return a => Return (f a)
  | Throw e => Throw e
  | Pending => Pending
  end.

(** A request of the query [query] with the catalog [tools]: it names the
    configured model, lets the model choose, and its messages begin with
    the user's query. *)
Definition well_formed_request (w : World) (query : string) (tools : list FunctionTool)
  (req : CompletionRequest) : Prop :=
  req_model req = OPENAI_MODEL w /\ req_tool_choice req = "auto" /\
  req_tools req = tools /\
  exists later, req_messages req = UserMessage query :: later.

(** A run of the dispatch loops that starts from the locals [l], whose
    messages begin with the user's query: every request it sends is well
    formed, and the messages it returns still begin with the query. *)
Definition carries (w : World) (query : string) (tools : list FunctionTool)
  (l : Locals) (r : Outcome Locals) (h : list Event) : Prop :=
  (exists later, messages l = UserMessage query :: later) ->
  (forall req, In req (requests h) -> well_formed_request w query tools req) /\
  (forall l', r = Return l' -> exists later, messages l' = UserMessage query :: later).

(** What is written on the console, oldest first. *)
Definition console (h : list Event) : list Event :=
  filter (fun ev => match ev with
                    | EvConsoleLog _ | EvConsoleError _ => true
                    | _ => false
                    end) h.

(** The report of one connection attempt of [main]: the line of
    [connectToServer] when it succeeds, the line of the [catch] when it
    fails. *)
Definition report_of (serverName : string) (ev : Event) : Prop :=
  (exists names,
     ev = EvConsoleLog [LogStr (LF ++ "Connected to server '" ++ serverName
                                ++ "' with tools:");
                        LogStrs names]) \/
  (exists e,
     ev = EvConsoleError [LogStr ("Failed to connect to server '" ++ serverName ++ "':");
                          LogErr e]).

(** The state of [main] when its connection loop is over. *)
Definition after_connecting (w : World) (st : State) : State :=
  snd (connectAll w (getOpenServers w)
         (snd (console_log [LogStr "Connecting to servers:";
                            LogStr (join ", " (getOpenServers w))] st))).

(** The number of connections that a provider accepted. *)
Definition accepted (h : list Event) : nat :=
  List.length (filter (fun ev => match ev with
                                 | EvConnect _ _ (Ok _) => true
                                 | _ => false
                                 end) h).

(* ================================================================== *)
(** ** The weather server over HTTP (mcp-server-protocol.ts, utils.ts)

    The JSON-RPC handlers of the HTTP server and the two helpers of
    utils.ts.  A request body and its [id] and [params] are arbitrary JSON
    values, as the handlers receive them; a missing property is [None].
    The data of the weather service is whatever JSON the service answers:
    the types that the source casts it to (types.ts) are erased when the
    code runs, and the handlers read the data as the runtime does.  Reading
    a property of [null] or [undefined], calling [map] on a value that is
    not an array and converting to a string an object that cannot be
    converted throw a TypeError.  The two argument schemas are declared in
    types.ts, which is not part of the sources: they are functions of the
    runtime, which return the validated arguments or throw. *)

Module Server.

(** What a handler can throw: a [z.ZodError] with its issues (path, already
    joined with dots, and message), or any other error. *)
Inductive Thrown : Type :=
| ZodError (issues : list (string * string))
| JsError (message : string).

Inductive Settled (A : Type) : Type :=
| Resolved (a : A)
| Rejected (e : Thrown).
Arguments Resolved {A} a.
Arguments Rejected {A} e.

(** The response of [fetch], as far as [makeNWSRequest] reads it. *)
Record HttpResponse (T : Type) : Type := {
  ok : bool;
  status : string;
  json : Settled T
}.
Arguments ok {T} _.
Arguments status {T} _.
Arguments json {T} _.

(** The interactions of the server with the outside. *)
Inductive NetEvent : Type :=
| EvFetch (url : string) (headers : list (string * string))
| EvLogError (label : string) (error : Thrown).

(** A number, by its decimal literal. *)
Definition Number : Type := string.

(** The runtime, the schemas of types.ts and the weather service.
    [Number_truthy] tells whether a number is not zero (a decoded number
    is never NaN).  [fetch] answers a request at a history. *)
Record Net : Type := {
  Number_toString : Number -> string;
  Number_truthy : Number -> bool;
  Number_toFixed4 : Number -> string;
  String_toUpperCase : string -> string;
  AlertsArgumentsSchema_parse : option Json -> Settled string;
  ForecastArgumentsSchema_parse : option Json -> Settled (Number * Number);
  fetch : list NetEvent -> string -> Settled (HttpResponse Json)
}.

(** [async] code of the server: from the history so far to a settled
    promise and the history after. *)
Definition S (A : Type) : Type := list NetEvent -> Settled A * list NetEvent.

Definition sret {A} (a : A) : S A := fun h => (Resolved a, h).

Definition sthrow {A} (e : Thrown) : S A := fun h => (Rejected e, h).

Definition sbind {A B} (m : S A) (k : A -> S B) : S B :=
  fun h =>
    match m h with
    | (Resolved a, h') => k a h'
    | (Rejected e, h') => (Rejected e, h')
    end.

Definition scatch {A} (m : S A) (handler : Thrown -> S A) : S A :=
  fun h =>
    match m h with
    | (Rejected e, h') => handler e h'
    | other => other
    end.

Definition slift {A} (r : Settled A) : S A :=
  match r with
  | Resolved a => sret a
  | Rejected e => sthrow e
  end.

Definition log_error (label : string) (error : Thrown) : S unit :=
  fun h => (Resolved tt, h ++ [EvLogError label error])%list.

Declare Scope srv_scope.
Delimit Scope srv_scope with srv.
Notation "x <- m ;; k" := (sbind m (fun x => k))
  (at level 100, m at next level, right associativity) : srv_scope.
Notation "m ;;; k" := (sbind m (fun _ => k))
  (at level 100, right associativity) : srv_scope.

(** *** utils.ts *)

Definition NWS_API_BASE : string := "https://api.weather.gov".
Definition USER_AGENT : string := "weather-app/1.0".

Definition nws_headers : list (string * string) :=
  [("User-Agent", USER_AGENT); ("Accept", "application/geo+json")].

(** [await fetch(url, { headers })] *)
Definition do_fetch {T} (fetchT : list NetEvent -> string -> Settled (HttpResponse T))
  (url : string) : S (HttpResponse T) :=
  fun h =>
    let h' := (h ++ [EvFetch url nws_headers])%list in
    match fetchT h url with
    | Resolved response => (Resolved response, h')
    | Rejected e => (Rejected e, h')
    end.

(** [makeNWSRequest<T>(url)]: the data, or [None] for [null]. *)
Definition makeNWSRequest {T} (fetchT : list NetEvent -> string -> Settled (HttpResponse T))
  (url : string) : S (option T) :=
  scatch
    (sbind (do_fetch fetchT url) (fun response =>
     if negb (ok response)
     then sthrow (JsError ("HTTP error! status: " ++ status response))
     else sbind (slift (json response)) (fun data => sret (Some data))))
    (fun error =>
       sbind (log_error "Error making NWS request:" error) (fun _ => sret None)).

(** *** JSON values as the code reads them *)

(** Code that computes without interaction: it gives a value or throws a
    TypeError of the runtime. *)
Inductive Computed (A : Type) : Type :=
| Value (a : A)
| TypeError (message : string).
Arguments Value {A} a.
Arguments TypeError {A} message.

Definition and_then {A B} (c : Computed A) (k : A -> Computed B) : Computed B :=
  match c with
  | Value a => k a
  | TypeError message => TypeError message
  end.

Notation "x <~ c ;; k" := (and_then c (fun x => k))
  (at level 100, c at next level, right associativity) : srv_scope.

Local Open Scope srv_scope.

Definition computed {A} (c : Computed A) : S A :=
  match c with
  | Value a => sret a
  | TypeError message => sthrow (JsError ("TypeError: " ++ message))
  end.

Section Traverse.
Context {A B : Type}.
Variable f : A -> Computed B.

(** [f] on every element in turn, up to the first that throws. *)
Fixpoint traverse (l : list A) : Computed (list B) :=
  match l with
  | [] => Value []
  | x :: rest =>
      and_then (f x) (fun y => and_then (traverse rest) (fun ys => Value (y :: ys)))
  end.
End Traverse.

(** [value.key] for one of the keys that the handlers read, on a value
    that is neither null nor undefined: a member of an object; a string,
    a number, a boolean and an array have no property of these names.
    (An object lists each key once.) *)
Definition member (key : string) (value : Json) : option Json :=
  match value with
  | JObject members => JsMap.get key members
  | _ => None
  end.

(** [value.key]: reading a property of [undefined] or [null] throws. *)
Definition read (key : string) (value : option Json) : Computed (option Json) :=
  match value with
  | None =>
      TypeError ("Cannot read properties of undefined (reading '" ++ key ++ "')")
  | Some JNull =>
      TypeError ("Cannot read properties of null (reading '" ++ key ++ "')")
  | Some v => Value (member key v)
  end.

(** [value?.key] *)
Definition read_optional (key : string) (value : option Json) : option Json :=
  match value with
  | None | Some JNull => None
  | Some v => member key v
  end.

(** Truthiness of a JSON value. *)
Definition js_truthy (net : Net) (value : Json) : bool :=
  match value with
  | JNull => false
  | JBool b => b
  | JNumber literal => Number_truthy net literal
  | JString s => truthy s
  | JArray _ | JObject _ => true
  end.

(** [String(value)], as a template literal and [join] compute it.  An
    object that was decoded from JSON is converted by
    [Object.prototype.toString] to "[object Object]", unless it has a
    member "toString" of its own: no decoded value can be called, so that
    the conversion finds no method that gives a primitive, and throws.  An
    array is converted by [join], which converts its elements, [null] to
    the empty string. *)
Fixpoint js_String (net : Net) (value : Json) : Computed string :=
  match value with
  | JNull => Value "null"
  | JBool true => Value "true"
  | JBool false => Value "false"
  | JNumber literal => Value (Number_toString net literal)
  | JString s => Value s
  | JArray items =>
      pieces <~ traverse (fun item => match item with
                                      | JNull => Value EmptyString
                                      | _ => js_String net item
                                      end) items ;;
      Value (join "," pieces)
  | JObject members =>
      if JsMap.has "toString" members
      then TypeError "Cannot convert object to primitive value"
      else Value "[object Object]"
  end.

(** [`${value}`] for a value that may be missing. *)
Definition template (net : Net) (value : option Json) : Computed string :=
  match value with
  | Some v => js_String net v
  | None => Value "undefined"
  end.

(** [`${value || fallback}`] *)
Definition shown (net : Net) (value : option Json) (fallback : string) : Computed string :=
  match value with
  | Some v => if js_truthy net v then js_String net v else Value fallback
  | None => Value fallback
  end.

(** [`${value.key || fallback}`] *)
Definition field (net : Net) (value : option Json) (key fallback : string)
  : Computed string :=
  v <~ read key value ;;
  shown net v fallback.

(** [value || []] *)
Definition or_empty (net : Net) (value : option Json) : Json :=
  match value with
  | Some v => if js_truthy net v then v else JArray []
  | None => JArray []
  end.

(** [value.length === 0], for a value that is neither null nor undefined:
    an array and a string have a length; an object has the member of that
    name, if any. *)
Definition length_is_zero (net : Net) (value : Json) : bool :=
  match value with
  | JArray items => match items with [] => true | _ :: _ => false end
  | JString s => negb (truthy s)
  | JObject members =>
      match JsMap.get "length" members with
      | Some (JNumber literal) => negb (Number_truthy net literal)
      | _ => false
      end
  | _ => false
  end.

(** [value.map(f)], for a value called [name] in the source: an array has
    [map]; no other decoded value has a member of that name that can be
    called. *)
Definition js_map {B} (f : Json -> Computed B) (value : Json) (name : string)
  : Computed (list B) :=
  match value with
  | JArray items => traverse f items
  | _ => TypeError (name ++ ".map is not a function")
  end.

(** [formatAlert(feature)] of utils.ts *)
Definition formatAlert (net : Net) (feature : Json) : Computed string :=
  props <~ read "properties" (Some feature) ;;
  event <~ field net props "event" "Unknown" ;;
  areaDesc <~ field net props "areaDesc" "Unknown" ;;
  severity <~ field net props "severity" "Unknown" ;;
  alertStatus <~ field net props "status" "Unknown" ;;
  headline <~ field net props "headline" "No headline" ;;
  Value (join LF
           [ "Event: " ++ event;
             "Area: " ++ areaDesc;
             "Severity: " ++ severity;
             "Status: " ++ alertStatus;
             "Headline: " ++ headline;
             "---" ]).

(** *** The JSON-RPC responses *)

Inductive ResultBody : Type :=
| InitializeResult (protocolVersion serverName serverVersion : string)
| ToolsResult (tools : list Tool)
| ContentResult (text : string)
| EmptyListResult (resultKey : option string).

Inductive Payload : Type :=
| RpcResult (result : ResultBody)
| RpcError (code : Z) (message : string).

(** A response: [{jsonrpc: "2.0", id, result | error}]. *)
Record RpcResponse : Type := {
  rpc_id : Json;
  rpc_payload : Payload
}.

Definition content (id : Json) (text : string) : RpcResponse :=
  {| rpc_id := id; rpc_payload := RpcResult (ContentResult text) |}.

Definition error_response (id : Json) (code : Z) (message : string) : RpcResponse :=
  {| rpc_id := id; rpc_payload := RpcError code message |}.

(** [handleInitialize(id)] *)
Definition handleInitialize (id : Json) : RpcResponse :=
  {| rpc_id := id;
     rpc_payload :=
       RpcResult (InitializeResult "2024-11-05" "simple-mcp-server-with-weather" "1.0.0") |}.

Definition property (type description : string) : Json :=
  JObject [("type", JString type); ("description", JString description)].

Definition alertsTool : Tool :=
  {| tool_name := "get-alerts";
     tool_description := Some "Get weather alerts for a state";
     tool_inputSchema :=
       JObject
         [("type", JString "object");
          ("properties",
           JObject [("state", property "string" "Two-letter state code (e.g. CA, NY)")]);
          ("required", JArray [JString "state"])] |}.

Definition forecastTool : Tool :=
  {| tool_name := "get-forecast";
     tool_description := Some "Get weather forecast for a location";
     tool_inputSchema :=
       JObject
         [("type", JString "object");
          ("properties",
           JObject [("latitude", property "number" "Latitude of the location");
                    ("longitude", property "number" "Longitude of the location")]);
          ("required", JArray [JString "latitude"; JString "longitude"])] |}.

(** [handleToolsList(id)] *)
Definition handleToolsList (id : Json) : RpcResponse :=
  {| rpc_id := id; rpc_payload := RpcResult (ToolsResult [alertsTool; forecastTool]) |}.

(** The degree sign of the forecast lines, in UTF-8. *)
Definition DEGREE : string :=
  String (Ascii.ascii_of_nat 194) (String (Ascii.ascii_of_nat 176) EmptyString).

(** The function mapped over the periods in the "get-forecast" branch. *)
Definition formatPeriod (net : Net) (period : Json) : Computed string :=
  name <~ field net (Some period) "name" "Unknown" ;;
  temperature <~ field net (Some period) "temperature" "Unknown" ;;
  temperatureUnit <~ field net (Some period) "temperatureUnit" "F" ;;
  windSpeed <~ field net (Some period) "windSpeed" "Unknown" ;;
  windDirection <~ field net (Some period) "windDirection" EmptyString ;;
  shortForecast <~ field net (Some period) "shortForecast" "No forecast available" ;;
  Value (join LF
           [ name ++ ":";
             "Temperature: " ++ temperature ++ DEGREE ++ temperatureUnit;
             "Wind: " ++ windSpeed ++ " " ++ windDirection;
             shortForecast;
             "---" ]).

Section Handlers.
Variable net : Net.

Local Open Scope srv_scope.

(** The branch of [handleToolCall] for "get-alerts". *)
Definition getAlerts (id : Json) (args : option Json) : S RpcResponse :=
  state <- slift (AlertsArgumentsSchema_parse net args) ;;
  let stateCode := String_toUpperCase net state in
  let alertsUrl := NWS_API_BASE ++ "/alerts?area=" ++ stateCode in
  alertsData <- makeNWSRequest (fetch net) alertsUrl ;;
  match alertsData with
  | None => sret (content id "Failed to retrieve alerts data")
  | Some data =>
      if negb (js_truthy net data)
      then sret (content id "Failed to retrieve alerts data")
      else
        let features := or_empty net (member "features" data) in
        if length_is_zero net features
        then sret (content id ("No active alerts for " ++ stateCode))
        else
          formatted <- computed (js_map (formatAlert net) features "features") ;;
          let formattedAlerts := firstn 20 formatted in
          sret (content id ("Active alerts for " ++ stateCode ++ ":" ++ LF ++ LF
                            ++ join LF formattedAlerts))
  end.

(** [await makeNWSRequest(forecastUrl)] for a URL read from the data: a
    value that is not a string is converted by [fetch], inside the [try]
    of [makeNWSRequest]. *)
Definition requestForecast (forecastUrl : Json) : S (option Json) :=
  match js_String net forecastUrl with
  | Value url => makeNWSRequest (fetch net) url
  | TypeError message =>
      log_error "Error making NWS request:" (JsError ("TypeError: " ++ message)) ;;;
      sret None
  end.

(** The branch of [handleToolCall] for "get-forecast". *)
Definition getForecast (id : Json) (args : option Json) : S RpcResponse :=
  coordinates <- slift (ForecastArgumentsSchema_parse net args) ;;
  let latitude := fst coordinates in
  let longitude := snd coordinates in
  let pointsUrl := NWS_API_BASE ++ "/points/" ++ Number_toFixed4 net latitude ++ ","
                   ++ Number_toFixed4 net longitude in
  pointsData <- makeNWSRequest (fetch net) pointsUrl ;;
  let noGridPoint :=
    content id
      ("Failed to retrieve grid point data for coordinates: "
       ++ Number_toString net latitude ++ ", " ++ Number_toString net longitude
       ++ ". This location may not be supported by the NWS API (only US locations are supported).") in
  match pointsData with
  | None => sret noGridPoint
  | Some points =>
      if negb (js_truthy net points) then sret noGridPoint
      else
        match read_optional "forecast" (member "properties" points) with
        | None => sret (content id "Failed to get forecast URL from grid point data")
        | Some forecastUrl =>
            if negb (js_truthy net forecastUrl)
            then sret (content id "Failed to get forecast URL from grid point data")
            else
              forecastData <- requestForecast forecastUrl ;;
              match forecastData with
              | None => sret (content id "Failed to retrieve forecast data")
              | Some forecast =>
                  if negb (js_truthy net forecast)
                  then sret (content id "Failed to retrieve forecast data")
                  else
                    let periods :=
                      or_empty net
                        (read_optional "periods" (member "properties" forecast)) in
                    if length_is_zero net periods
                    then sret (content id "No forecast periods available")
                    else
                      formattedForecast <-
                        computed (js_map (formatPeriod net) periods "periods") ;;
                      sret (content id
                              ("Forecast for " ++ Number_toString net latitude ++ ", "
                               ++ Number_toString net longitude ++ ":" ++ LF ++ LF
                               ++ join LF formattedForecast))
              end
        end
  end.

(** The [catch] of [handleToolCall]. *)
Definition toolCallFailed (id : Json) (error : Thrown) : S RpcResponse :=
  match error with
  | ZodError issues =>
      sret (error_response id (-32602)%Z
              ("Invalid arguments: "
               ++ join ", " (map (fun issue => fst issue ++ ": " ++ snd issue) issues)))
  | JsError _ =>
      log_error "Error in tool call:" error ;;;
      sret (error_response id (-32000)%Z "Internal server error during tool execution.")
  end.

(** The last branch of [handleToolCall]; the template literal is inside
    the [try]. *)
Definition toolNotFound (id : Json) (name : option Json) : S RpcResponse :=
  text <- computed (template net name) ;;
  sret (error_response id (-32601)%Z ("Tool not found: " ++ text)).

(** [handleToolCall(id, params)].  Destructuring [params] happens before
    the [try]: it throws for a missing or null [params]. *)
Definition handleToolCall (id : Json) (params : option Json) : S RpcResponse :=
  match params with
  | None | Some JNull =>
      sthrow (JsError "TypeError: Cannot destructure property 'name' of 'params'")
  | Some p =>
      let name := member "name" p in
      let args := member "arguments" p in
      scatch
        (match name with
         | Some (JString n) =>
             if String.eqb n "get-alerts" then getAlerts id args
             else if String.eqb n "get-forecast" then getForecast id args
             else toolNotFound id name
         | _ => toolNotFound id name
         end)
        (toolCallFailed id)
  end.

(** [handleResourcesOrPromptsList(id, method)] *)
Definition handleResourcesOrPromptsList (id : Json) (method : string) : RpcResponse :=
  {| rpc_id := id;
     rpc_payload := RpcResult (EmptyListResult (nth_error (split "/" method) 0)) |}.

(** [handleUnknownMethod(id)] *)
Definition handleUnknownMethod (id : Json) : RpcResponse :=
  error_response id (-32601)%Z "Method not found".

(** [body?.id || null] *)
Definition id_or_null (body : option Json) : Json :=
  match body with
  | None | Some JNull => JNull
  | Some b =>
      match member "id" b with
      | Some id => if js_truthy net id then id else JNull
      | None => JNull
      end
  end.

(** The test that opens [processJsonRpcRequest]:
    [!body || typeof body.method !== "string" || typeof body.id === "undefined"]. *)
Definition invalid_request (body : option Json) : bool :=
  match body with
  | None => true
  | Some b =>
      negb (js_truthy net b)
      || match member "method" b with
         | Some (JString _) => false
         | _ => true
         end
      || match member "id" b with
         | Some _ => false
         | None => true
         end
  end.

(** [processJsonRpcRequest(body)] *)
Definition processJsonRpcRequest (body : option Json) : S RpcResponse :=
  if invalid_request body
  then sret (error_response (id_or_null body) (-32600)%Z "Invalid JSON-RPC request")
  else
    match body with
    | Some b =>
        match member "method" b, member "id" b with
        | Some (JString method), Some id =>
            let params := member "params" b in
            if String.eqb method "initialize" then sret (handleInitialize id)
            else if String.eqb method "tools/list" then sret (handleToolsList id)
            else if String.eqb method "tools/call" then handleToolCall id params
            else if String.eqb method "resources/list" || String.eqb method "prompts/list"
                 then sret (handleResourcesOrPromptsList id method)
                 else sret (handleUnknownMethod id)
        | _, _ => sret (error_response (id_or_null body) (-32600)%Z "Invalid JSON-RPC request")
        end
    | None => sret (error_response (id_or_null body) (-32600)%Z "Invalid JSON-RPC request")
    end.

End Handlers.

(** The fetches made in a history. *)
Definition fetched (h : list NetEvent) : list string :=
  flat_map (fun ev => match ev with
                      | EvFetch url _ => [url]
                      | _ => []
                      end) h.

(** The names of the tools that [tools/list] advertises. *)
Definition advertised : list string :=
  match rpc_payload (handleToolsList JNull) with
  | RpcResult (ToolsResult tools) => map tool_name tools
  | _ => []
  end.

(** A service that answers every request in the same way. *)
Definition sample (answer : Settled (HttpResponse Json)) : Net :=
  {| Number_toString := fun n => n;
     Number_truthy := fun n => negb (String.eqb n "0");
     Number_toFixed4 := fun n => n;
     String_toUpperCase := fun s => s;
     AlertsArgumentsSchema_parse :=
       fun args => match args with
                   | Some (JObject [("state", JString state)]) => Resolved state
                   | _ => Rejected (ZodError [("state", "Required")])
                   end;
     ForecastArgumentsSchema_parse :=
       fun args => match args with
                   | Some (JObject [("latitude", JNumber latitude);
                                    ("longitude", JNumber longitude)]) =>
                       Resolved (latitude, longitude)
                   | _ => Rejected (ZodError [("latitude", "Required")])
                   end;
     fetch := fun _ _ => answer |}.

(** The URL of the grid point of a pair of coordinates: [pointsUrl] in the
    "get-forecast" branch. *)
Definition pointsUrl (net : Net) (coordinates : Number * Number) : string :=
  NWS_API_BASE ++ "/points/" ++ Number_toFixed4 net (fst coordinates) ++ ","
  ++ Number_toFixed4 net (snd coordinates).

(** The weather service, asked at history [h] for the grid point at [url],
    answers with an ok status and a body that names a forecast URL: a
    value that is not falsy and that [fetch] can convert to the text
    [forecastUrl]. *)
Definition grid_point (net : Net) (h : list NetEvent) (url forecastUrl : string) : Prop :=
  exists response points forecast,
    fetch net h url = Resolved response /\
    ok response = true /\
    json response = Resolved points /\
    js_truthy net points = true /\
    read_optional "forecast" (member "properties" points) = Some forecast /\
    js_truthy net forecast = true /\
    js_String net forecast = Value forecastUrl.

(** The event of a request to the weather service. *)
Definition requested (url : string) : NetEvent := EvFetch url nws_headers.

(** A body that names the forecast URL of a grid point. *)
Definition grid (forecastUrl : string) : Json :=
  JObject [("properties", JObject [("forecast", JString forecastUrl)])].

(** A body of the alerts endpoint with the features [features]. *)
Definition alerts (features : list Json) : Json := JObject [("features", JArray features)].

Definition answered (body : Json) : Settled (HttpResponse Json) :=
  Resolved {| ok := true; status := "200"; json := Resolved body |}.

End Server.

(* ================================================================== *)
(** * Properties *)

(** ** Splitting qualified names *)

Section SplitFacts.

Local Open Scope string_scope.

Lemma append_nil_r (s : string) : s ++ EmptyString = s.
Proof. induction s as [|a s IH]; simpl; [reflexivity | now rewrite IH]. Qed.

Lemma append_assoc (s1 s2 s3 : string) : (s1 ++ s2) ++ s3 = s1 ++ (s2 ++ s3).
Proof. induction s1 as [|a s1 IH]; simpl; [reflexivity | now rewrite IH]. Qed.

Lemma includes_cons_false (sep : string) (a : ascii) (s : string) :
  includes sep (String a s) = false ->
  startsWith sep (String a s) = false /\ includes sep s = false.
Proof.
  simpl includes. intro H. apply orb_false_iff in H. exact H.
Qed.

Lemma endsWith_cons_cons (a b : ascii) (s : string) :
  endsWith "_" (String a (String b s)) = endsWith "_" (String b s).
Proof.
  unfold endsWith. simpl String.length. simpl Nat.leb. simpl Nat.sub.
  rewrite Nat.sub_0_r. reflexivity.
Qed.

(** A text without the separator is one piece. *)
Lemma split_from_no_sep (c cur : string) :
  includes SEP c = false -> split_from SEP 0 cur c = [cur ++ c].
Proof.
  revert cur. induction c as [|a c IH]; intros cur H.
  - simpl. now rewrite append_nil_r.
  - apply includes_cons_false in H. destruct H as [Hp Hc].
    cbn [split_from]. rewrite Hp. rewrite (IH _ Hc).
    rewrite append_assoc. reflexivity.
Qed.

(** No occurrence of the separator starts inside [p] when [p] neither
    holds one nor ends with an underscore. *)
Lemma split_from_qualified (p c cur : string) :
  includes SEP p = false -> endsWith "_" p = false ->
  split_from SEP 0 cur (p ++ SEP ++ c) = (cur ++ p) :: split_from SEP 0 EmptyString c.
Proof.
  revert cur. induction p as [|a p IH]; intros cur Hin Hend.
  - rewrite append_nil_r. reflexivity.
  - apply includes_cons_false in Hin. destruct Hin as [Hp Hin].
    assert (Hend' : endsWith "_" p = false).
    { destruct p as [|b p']; [reflexivity|].
      rewrite endsWith_cons_cons in Hend. exact Hend. }
    assert (Hpre : startsWith SEP (String a (p ++ SEP ++ c)) = false).
    { unfold SEP in *. cbn [startsWith] in Hp |- *.
      destruct (Ascii.eqb_spec "_" a) as [Ha|Ha]; [subst a | reflexivity].
      destruct p as [|b p']; [discriminate Hend|].
      cbn [append andb] in Hp |- *.
      destruct (Ascii.eqb "_" b); [discriminate Hp | reflexivity]. }
    change (String a p ++ SEP ++ c) with (String a (p ++ SEP ++ c)).
    cbn [split_from]. rewrite Hpre. rewrite (IH _ Hin Hend').
    rewrite append_assoc. reflexivity.
Qed.

End SplitFacts.

(** C6 (counterexample).  The provider name "a_" and the tool name "b"
    hold no separator, yet the qualified name "a___b" is cut after "a":
    the first occurrence of the separator starts one character early. *)
Lemma C6_roundtrip_fails_for_trailing_underscore :
  includes SEP "a_" = false /\ includes SEP "b" = false /\
  splitQualifiedName (qualifiedName "a_" "b") = (Some "a", Some "_b") /\
  ~ roundtrip_for_separator_free_names.
Proof.
  repeat split; try reflexivity.
  intro H. specialize (H "a_" "b" eq_refl eq_refl). discriminate H.
Qed.

(** C6 (amended).  For a provider name [p] and a tool name [c] that hold
    no separator, [p] not ending with an underscore, the qualified name
    built by the catalog splits into exactly the two pieces [p] and [c], so
    the dispatch reads back the pair [(p, c)]. *)
Theorem C6_qualify_resolve_roundtrip (p c : string) :
  includes SEP p = false -> includes SEP c = false -> endsWith "_" p = false ->
  split SEP (qualifiedName p c) = [p; c] /\
  splitQualifiedName (qualifiedName p c) = (Some p, Some c).
Proof.
  intros Hp Hc Hend.
  assert (E : split SEP (qualifiedName p c) = [p; c]).
  { unfold split, qualifiedName. change SEP with "__" at 1. cbv iota.
    rewrite (split_from_qualified p c EmptyString Hp Hend).
    rewrite (split_from_no_sep c EmptyString Hc). reflexivity. }
  split; [exact E|]. unfold splitQualifiedName. rewrite E. reflexivity.
Qed.

Lemma C6_qualify_resolve_roundtrip_witness :
  split SEP (qualifiedName "alerts" "get-alerts") = ["alerts"; "get-alerts"] /\
  splitQualifiedName (qualifiedName "alerts" "get-alerts")
  = (Some "alerts", Some "get-alerts").
Proof.
  apply (C6_qualify_resolve_roundtrip "alerts" "get-alerts"); reflexivity.
Defined.

(** With the configuration of the source only "demo-stdio-v1" is open. *)
Example getOpenServers_config :
  getOpenServers
    (Scenario.scripted config (fun _ => Ok tt) (fun _ => Ok [])
       (fun _ _ => Ok {| result_content := "ok" |}) (fun _ => Ok tt)
       (fun _ => Err "offline") [])
  = ["demo-stdio-v1"].
Proof. reflexivity. Qed.

(** ** Frames and the primitive steps *)

Open Scope list_scope.

Section Runs.
Variable w : World.

Lemma frame_refl (st : State) : frame st st [].
Proof. unfold frame. rewrite app_nil_r. auto. Qed.

Lemma frame_trans (st st1 st2 : State) (h1 h2 : list Event) :
  frame st st1 h1 -> frame st1 st2 h2 -> frame st st2 (h1 ++ h2).
Proof.
  unfold frame. intros (A1 & B1 & C1 & D1) (A2 & B2 & C2 & D2).
  rewrite A2, B2, C2, D2, A1, B1, C1, D1, app_assoc. auto.
Qed.

Lemma frame_new_events (st st' : State) (h : list Event) :
  frame st st' h -> new_events st st' = h.
Proof.
  intros (_ & _ & _ & E). unfold new_events. rewrite E.
  rewrite skipn_app, skipn_all, Nat.sub_diag. reflexivity.
Qed.

Lemma trace_new_events (st st' : State) (h : list Event) :
  trace st' = trace st ++ h -> new_events st st' = h.
Proof.
  intro E. unfold new_events. rewrite E.
  rewrite skipn_app, skipn_all, Nat.sub_diag. reflexivity.
Qed.

Lemma emit_run (ev : Event) (st : State) :
  exists st', emit ev st = (Return tt, st') /\ frame st st' [ev].
Proof. eexists. split; [reflexivity|]. unfold frame. simpl. auto. Qed.

Lemma await_run {A} (answer : list Event -> Result A) (record : Result A -> Event)
  (st : State) (r : Outcome A) (st' : State) :
  await answer record st = (r, st') ->
  frame st st' [record (answer (trace st))] /\
  match answer (trace st) with
  | Ok a => r = Return a
  | Err e => r = Throw e
  end.
Proof.
  unfold await. destruct (answer (trace st)); intro E; inversion E; subst;
    (split; [unfold frame; simpl; auto | reflexivity]).
Qed.

(** Every run of [dispatch] is one of the cases of [dispatch_run]. *)
Lemma dispatch_sound (availableTools : list FunctionTool) (tc : ToolCall) (l : Locals)
  (st : State) (r : Outcome Locals) (st' : State) :
  dispatch w availableTools tc l st = (r, st') ->
  exists h, frame st st' h /\ dispatch_run w (sessions st) availableTools tc l r h.
Proof.
  unfold dispatch.
  destruct (splitQualifiedName (tc_name tc)) as [serverName toolName] eqn:Es.
  unfold bind at 1. unfold get_sessions.
  destruct (sessions_get serverName (sessions st)) as [session|] eqn:Eg.
  - assert (Hr : route (sessions st) tc = Some (session, toolName)).
    { unfold route. rewrite Es, Eg. reflexivity. }
    unfold bind at 1. unfold lift.
    destruct (JSON_parse w (tc_arguments tc)) as [toolArgs|e] eqn:Ep.
    + unfold ret at 1. unfold bind at 1.
      destruct (client_callTool w session toolName toolArgs st) as [r1 st1] eqn:E1.
      unfold client_callTool in E1. apply await_run in E1. cbv beta in E1.
      destruct E1 as [F1 R1].
      destruct (Client_callTool w (trace st) session toolName toolArgs)
        as [toolResult|e] eqn:Ec.
      * subst r1. unfold bind at 1.
        destruct (emit_run (EvConsoleLog
                              [LogStr (LF ++ " -- toolResult.content -- " ++ LF)%string;
                               LogStr (result_content toolResult)]) st1)
          as (st2 & E2 & F2).
        unfold console_log. rewrite E2. unfold bind at 1.
        match goal with
        | |- context [openai_create w ?req st2] =>
            destruct (openai_create w req st2) as [r3 st3] eqn:E3
        end.
        unfold openai_create in E3. apply await_run in E3. cbv beta in E3.
        destruct E3 as [F3 R3].
        match type of R3 with
        | match ?x with _ => _ end => destruct x as [next|e] eqn:En
        end;
        pose proof (frame_trans _ _ _ _ _ F1 (frame_trans _ _ _ _ _ F2 F3)) as F;
        simpl in F.
        -- subst r3. destruct (choices next) as [|first rest] eqn:Ech.
           ++ intro E. inversion E; subst. eexists. split; [exact F|].
              eapply run_followup_empty; eauto.
           ++ assert (Hne : choices next <> []) by (rewrite Ech; discriminate).
              destruct (msg_content (choice_message first)) as [content|];
                [destruct (truthy content)|];
                intro E; inversion E; subst; eexists; (split; [exact F|]);
                eapply run_followup; eauto.
        -- subst r3. intro E. inversion E; subst. eexists. split; [exact F|].
           eapply run_followup_failed; eauto.
      * subst r1. intro E. inversion E; subst. eexists. split; [exact F1|].
        eapply run_invoke_failed; eauto.
    + intro E. inversion E; subst. exists []. split; [apply frame_refl|].
      eapply run_bad_arguments; eauto.
  - assert (Hr : route (sessions st) tc = None).
    { unfold route. rewrite Es, Eg. reflexivity. }
    intro E. inversion E; subst. exists []. split; [apply frame_refl|].
    pose proof (run_unknown w (sessions st') availableTools tc l Hr) as R.
    rewrite Es in R. exact R.
Qed.

End Runs.

(** ** Loops *)

Section Loops.
Context {A L : Type}.
Variable body : A -> L -> M L.
Variable P : A -> L -> Outcome L -> list Event -> Prop.
Variable ss : list (string * Client).

Hypothesis body_sound :
  forall x acc st r st',
    sessions st = ss -> body x acc st = (r, st') ->
    exists h, frame st st' h /\ P x acc r h.

(** A [for_of] loop over a sound body runs as [loop_run]. *)
Lemma for_of_sound (xs : list A) :
  forall acc st r st',
    sessions st = ss -> for_of body xs acc st = (r, st') ->
    exists h, frame st st' h /\ loop_run P xs acc r h.
Proof.
  induction xs as [|x xs IH]; intros acc st r st' Hss E.
  - inversion E; subst. exists []. split; [apply frame_refl | constructor].
  - cbn [for_of] in E. unfold bind in E.
    destruct (body x acc st) as [r1 st1] eqn:E1.
    destruct (body_sound _ _ _ _ _ Hss E1) as (h1 & F1 & P1).
    destruct r1 as [acc'|e|].
    + assert (Hss1 : sessions st1 = ss) by (destruct F1 as (S1 & _); congruence).
      destruct (IH _ _ _ _ Hss1 E) as (h2 & F2 & R2).
      exists (h1 ++ h2). split; [eapply frame_trans; eauto|].
      eapply loop_step; eauto.
    + inversion E; subst. exists h1. split; [exact F1|].
      apply loop_break; [exact P1 | discriminate].
    + inversion E; subst. exists h1. split; [exact F1|].
      apply loop_break; [exact P1 | discriminate].
Qed.

End Loops.

Lemma invocations_app (h1 h2 : list Event) :
  invocations (h1 ++ h2) = invocations h1 ++ invocations h2.
Proof. apply flat_map_app. Qed.

Lemma model_turns_app (h1 h2 : list Event) :
  model_turns (h1 ++ h2) = model_turns h1 ++ model_turns h2.
Proof. apply flat_map_app. Qed.

Lemma closed_app (h1 h2 : list Event) : closed (h1 ++ h2) = closed h1 ++ closed h2.
Proof. apply flat_map_app. Qed.

Lemma In_invocations (c : Client) (name : option string) (args : Json)
  (r : Result MCPToolResult) (h : list Event) :
  In (EvCallTool c name args r) h -> In (c, name) (invocations h).
Proof.
  intro H. unfold invocations. apply in_flat_map.
  exists (EvCallTool c name args r). split; [exact H | left; reflexivity].
Qed.

Lemma not_returned_Throw {X} (e : Error) : ~ returned (@Throw X e).
Proof. intros [a H]. discriminate H. Qed.

Lemma not_returned_Pending {X} : ~ returned (@Pending X).
Proof. intros [a H]. discriminate H. Qed.

Lemma returned_dec {X} (r : Outcome X) : returned r \/ forall a, r <> Return a.
Proof.
  destruct r as [a|e|]; [left; exists a; reflexivity | right; discriminate ..].
Qed.

(** *** [follows] through sequences and loops *)

Lemma follows_done {X} (a : X) : follows [] (Return a) [].
Proof. exists []. simpl. repeat split; auto. Qed.

Lemma follows_seq {X Y} (e1 e2 : list (Client * option string)) (a : X)
  (r : Outcome Y) (h1 h2 : list Event) :
  follows e1 (Return a) h1 -> follows e2 r h2 -> follows (e1 ++ e2) r (h1 ++ h2).
Proof.
  intros (rest1 & E1 & L1 & R1) (rest2 & E2 & L2 & R2).
  destruct (R1 (ex_intro _ a eq_refl)) as [N1 Q1]. subst rest1.
  rewrite app_nil_r in E1. exists rest2.
  rewrite invocations_app, model_turns_app, !length_app.
  split; [|split].
  - rewrite E1, E2, app_assoc. reflexivity.
  - lia.
  - intro Hr. destruct (R2 Hr) as [N2 Q2]. split; [exact N2 | lia].
Qed.

Lemma follows_stop {X} (e1 e2 : list (Client * option string)) (r : Outcome X)
  (h : list Event) :
  follows e1 r h -> (forall a, r <> Return a) -> follows (e1 ++ e2) r h.
Proof.
  intros (rest & E & Hl & _) Hn. exists (rest ++ e2). split; [|split].
  - rewrite E, app_assoc. reflexivity.
  - exact Hl.
  - intros [a Ha]. exfalso. exact (Hn a Ha).
Qed.

Lemma follows_outcome {X Y} (e : list (Client * option string)) (r : Outcome X)
  (r' : Outcome Y) (h : list Event) :
  follows e r h -> (returned r' -> returned r) -> follows e r' h.
Proof.
  intros (rest & E & Hl & R) Hi. exists rest. split; [exact E|]. split; [exact Hl|].
  intro Hr. exact (R (Hi Hr)).
Qed.

Lemma loop_run_follows {A L} (P : A -> L -> Outcome L -> list Event -> Prop)
  (f : A -> list (Client * option string)) :
  (forall x acc r h, P x acc r h -> follows (f x) r h) ->
  forall xs acc r h, loop_run P xs acc r h -> follows (flat_map f xs) r h.
Proof.
  intros HP xs acc r h R. induction R as [acc|x xs acc r h Hx Hn|x xs acc acc' h1 r h2 Hx R IH].
  - apply follows_done.
  - cbn [flat_map]. apply follows_stop; [eapply HP; eauto | exact Hn].
  - cbn [flat_map]. eapply follows_seq; [eapply HP; eauto | exact IH].
Qed.

(** *** [aborts_on_invoke_failure] through sequences and loops *)

Lemma aborts_seq {X Y} (a : X) (r : Outcome Y) (h1 h2 : list Event) :
  aborts_on_invoke_failure (Return a) h1 -> aborts_on_invoke_failure r h2 ->
  aborts_on_invoke_failure r (h1 ++ h2).
Proof.
  intros H1 H2 c name args e Hin. apply in_app_or in Hin. destruct Hin as [Hin|Hin].
  - destruct (H1 _ _ _ _ Hin) as [D _]. discriminate D.
  - destruct (H2 _ _ _ _ Hin) as [D (h0 & E)]. split; [exact D|].
    exists (h1 ++ h0). rewrite E, app_assoc. reflexivity.
Qed.

Lemma aborts_quiet {X} (r : Outcome X) (h : list Event) :
  invocations h = [] -> aborts_on_invoke_failure r h.
Proof.
  intros Hq c name args e Hin. apply In_invocations in Hin. rewrite Hq in Hin.
  destruct Hin.
Qed.

Lemma loop_run_aborts {A L} (P : A -> L -> Outcome L -> list Event -> Prop) :
  (forall x acc r h, P x acc r h -> aborts_on_invoke_failure r h) ->
  forall xs acc r h, loop_run P xs acc r h -> aborts_on_invoke_failure r h.
Proof.
  intros HP xs acc r h R. induction R as [acc|x xs acc r h Hx Hn|x xs acc acc' h1 r h2 Hx R IH].
  - apply aborts_quiet. reflexivity.
  - eapply HP; eauto.
  - eapply aborts_seq; [eapply HP; eauto | exact IH].
Qed.

(** *** One dispatch *)

Ltac follows_case :=
  split; [reflexivity|];
  split; [cbn; lia|];
  let Hx := fresh "Hx" in
  intro Hx;
  first [ destruct (not_returned_Throw _ Hx) | split; reflexivity ].

Lemma routes_one (ss : list (string * Client)) (tc : ToolCall) :
  routes ss [tc] = match route ss tc with Some r => [r] | None => [] end.
Proof. unfold routes. cbn [flat_map]. apply app_nil_r. Qed.

Lemma dispatch_run_follows (w : World) (ss : list (string * Client))
  (availableTools : list FunctionTool) (tc : ToolCall) (l : Locals)
  (r : Outcome Locals) (h : list Event) :
  dispatch_run w ss availableTools tc l r h -> follows (routes ss [tc]) r h.
Proof.
  intro R. rewrite routes_one. unfold follows.
  inversion R as [Hr|s t e Hr|s t a e Hr|s t a res lg req e Hr
                 |s t a res lg req nx e Hr|s t a res lg req nx l' Hr];
    subst; rewrite Hr; cbn.
  - exists []. follows_case.
  - exists [(s, t)]. follows_case.
  - exists []. follows_case.
  - exists []. follows_case.
  - exists []. follows_case.
  - exists []. follows_case.
Qed.

Lemma dispatch_run_aborts (w : World) (ss : list (string * Client))
  (availableTools : list FunctionTool) (tc : ToolCall) (l : Locals)
  (r : Outcome Locals) (h : list Event) :
  dispatch_run w ss availableTools tc l r h -> aborts_on_invoke_failure r h.
Proof.
  intro R.
  inversion R as [Hr|s t e Hr|s t a e Hr|s t a res lg req e Hr
                 |s t a res lg req nx e Hr|s t a res lg req nx l' Hr];
    subst; intros c name args e0 Hin; cbn in Hin;
    repeat (destruct Hin as [Hin|Hin]; [try discriminate Hin|]);
    try contradiction.
  inversion Hin; subst. split; [reflexivity|]. exists []. reflexivity.
Qed.

Lemma aborts_outcome {X Y} (r : Outcome X) (r' : Outcome Y) (h : list Event) :
  aborts_on_invoke_failure r h -> (forall e, r = Throw e -> r' = Throw e) ->
  aborts_on_invoke_failure r' h.
Proof.
  intros H Hi c name args e Hin. destruct (H _ _ _ _ Hin) as [D E].
  split; [exact (Hi _ D) | exact E].
Qed.

Lemma routes_app (ss : list (string * Client)) (l1 l2 : list ToolCall) :
  routes ss (l1 ++ l2) = routes ss l1 ++ routes ss l2.
Proof. apply flat_map_app. Qed.

Lemma flat_map_routes_one (ss : list (string * Client)) (tcs : list ToolCall) :
  flat_map (fun tc => routes ss [tc]) tcs = routes ss tcs.
Proof.
  induction tcs as [|tc tcs IH]; [reflexivity|].
  cbn [flat_map]. rewrite IH. change (tc :: tcs) with ([tc] ++ tcs).
  rewrite routes_app. reflexivity.
Qed.

Lemma routes_turn_calls (ss : list (string * Client)) (c : ChatCompletion) :
  flat_map (fun ch => routes ss (choice_calls ch)) (choices c) = routes ss (turn_calls c).
Proof.
  unfold turn_calls. induction (choices c) as [|ch chs IH]; [reflexivity|].
  cbn [flat_map]. rewrite routes_app, IH. reflexivity.
Qed.

(** *** The loops of [processQuery] *)

Section QueryRuns.
Variable w : World.

Lemma processChoice_sound (availableTools : list FunctionTool) (choice : Choice)
  (l : Locals) (st : State) (r : Outcome Locals) (st' : State) :
  processChoice w availableTools choice l st = (r, st') ->
  exists h, frame st st' h /\ choice_run w (sessions st) availableTools choice l r h.
Proof.
  unfold processChoice, choice_run, choice_calls.
  destruct (msg_tool_calls (choice_message choice)) as [tool_calls|]; intro E.
  - eapply (for_of_sound (dispatch w availableTools)
              (dispatch_run w (sessions st) availableTools) (sessions st)) in E;
      [|intros x acc st0 r0 st0' Hs E0; rewrite <- Hs; eapply dispatch_sound; eauto
       |reflexivity].
    destruct E as (h & F & R). exists h. split; [exact F|]. eexists. exact R.
  - inversion E; subst. exists []. split; [apply frame_refl|].
    eexists. constructor.
Qed.

Lemma choice_run_follows (ss : list (string * Client))
  (availableTools : list FunctionTool) (choice : Choice) (l : Locals)
  (r : Outcome Locals) (h : list Event) :
  choice_run w ss availableTools choice l r h ->
  follows (routes ss (choice_calls choice)) r h.
Proof.
  intros [l1 R]. rewrite <- flat_map_routes_one.
  eapply loop_run_follows; [|exact R].
  intros x acc r0 h0. apply dispatch_run_follows.
Qed.

Lemma choice_run_aborts (ss : list (string * Client))
  (availableTools : list FunctionTool) (choice : Choice) (l : Locals)
  (r : Outcome Locals) (h : list Event) :
  choice_run w ss availableTools choice l r h -> aborts_on_invoke_failure r h.
Proof.
  intros [l1 R]. eapply loop_run_aborts; [|exact R].
  intros x acc r0 h0. apply dispatch_run_aborts.
Qed.

Lemma quiet_app (h1 h2 : list Event) : quiet h1 -> quiet h2 -> quiet (h1 ++ h2).
Proof.
  intros [A1 B1] [A2 B2]. unfold quiet.
  rewrite invocations_app, model_turns_app, A1, A2, B1, B2. auto.
Qed.

Lemma listServerTools_sound (entry : string * Client) (acc : list FunctionTool)
  (st : State) (r : Outcome (list FunctionTool)) (st' : State) :
  listServerTools w entry acc st = (r, st') ->
  exists h, frame st st' h /\ quiet h.
Proof.
  unfold listServerTools. destruct entry as [serverName session].
  unfold bind. destruct (client_listTools w session st) as [r1 st1] eqn:E1.
  unfold client_listTools in E1. apply await_run in E1. destruct E1 as [F1 _].
  destruct r1; intro E; inversion E; subst; eexists; (split; [exact F1|]);
    split; reflexivity.
Qed.

Lemma listing_quiet (xs : list (string * Client)) (acc : list FunctionTool)
  (r : Outcome (list FunctionTool)) (h : list Event) :
  loop_run (fun _ _ _ h => quiet h) xs acc r h -> quiet h.
Proof.
  intro R. induction R as [acc|x xs acc r h Hx Hn|x xs acc acc' h1 r h2 Hx R IH].
  - split; reflexivity.
  - exact Hx.
  - apply quiet_app; assumption.
Qed.

(** The shape of every run of [processQuery]: the listing of tools, the
    first model turn, and the dispatch of the requests of that turn. *)
Lemma processQuery_run (query : string) (st : State) (r : Outcome string) (st' : State) :
  processQuery w query st = (r, st') ->
  exists h,
    frame st st' h /\ aborts_on_invoke_failure r h /\
    ((quiet h /\ ~ returned r) \/
     exists c0 h2,
       model_turns h = c0 :: model_turns h2 /\ invocations h = invocations h2 /\
       follows (routes (sessions st) (turn_calls c0)) r h2).
Proof.
  unfold processQuery. unfold bind at 1. unfold get_sessions.
  destruct (Nat.eqb (JsMap.size (sessions st)) 0).
  { intro E. inversion E; subst. exists []. split; [apply frame_refl|].
    split; [apply aborts_quiet; reflexivity|]. left.
    split; [split; reflexivity | apply not_returned_Throw]. }
  unfold bind at 1.
  destruct (for_of (listServerTools w) (sessions st) [] st) as [r1 st1] eqn:E1.
  eapply (for_of_sound (listServerTools w) (fun _ _ _ h => quiet h) (sessions st)) in E1;
    [|intros x acc st0 r0 st0' _ E0; eapply listServerTools_sound; eauto | reflexivity].
  destruct E1 as (h1 & F1 & R1). apply listing_quiet in R1.
  destruct r1 as [availableTools|e|].
  2:{ intro E. inversion E; subst. exists h1. split; [exact F1|].
      split; [apply aborts_quiet; apply R1|]. left.
      split; [exact R1 | apply not_returned_Throw]. }
  2:{ intro E. inversion E; subst. exists h1. split; [exact F1|].
      split; [apply aborts_quiet; apply R1|]. left.
      split; [exact R1 | apply not_returned_Pending]. }
  unfold bind at 1.
  match goal with
  | |- context [openai_create w ?req st1] =>
      destruct (openai_create w req st1) as [r2 st2] eqn:E2
  end.
  unfold openai_create in E2. apply await_run in E2. cbv beta in E2.
  destruct E2 as [F2 R2].
  match type of R2 with
  | match ?x with _ => _ end => destruct x as [c0|e] eqn:Ec
  end; subst r2.
  2:{ intro E. inversion E; subst. eexists. split; [eapply frame_trans; eauto|].
      assert (Q : quiet (h1 ++ [EvCompletion
                                  (completionRequest w [UserMessage query] availableTools)
                                  (Err e)])).
      { apply quiet_app; [exact R1 | split; reflexivity]. }
      split; [apply aborts_quiet; apply Q|]. left.
      split; [exact Q | apply not_returned_Throw]. }
  unfold bind at 1.
  match goal with
  | |- context [for_of ?b ?xs ?a st2] =>
      destruct (for_of b xs a st2) as [r3 st3] eqn:E3
  end.
  assert (S2 : sessions st2 = sessions st).
  { destruct F1 as (A1 & _). destruct F2 as (A2 & _). congruence. }
  eapply (for_of_sound (processChoice w availableTools)
            (choice_run w (sessions st) availableTools) (sessions st)) in E3;
    [|intros x acc st0 r0 st0' Hs E0; rewrite <- Hs; eapply processChoice_sound; eauto
     |exact S2].
  destruct E3 as (h3 & F3 & R3).
  assert (Fo : follows (routes (sessions st) (turn_calls c0)) r3 h3).
  { rewrite <- routes_turn_calls. eapply loop_run_follows; [|exact R3].
    intros x acc r0 h0. apply choice_run_follows. }
  assert (Ab : aborts_on_invoke_failure r3 h3).
  { eapply loop_run_aborts; [|exact R3]. intros x acc r0 h0. apply choice_run_aborts. }
  pose proof (frame_trans _ _ _ _ _ F1 (frame_trans _ _ _ _ _ F2 F3)) as F.
  intro E.
  assert (Hrel : (returned r -> returned r3) /\ (forall e, r3 = Throw e -> r = Throw e)
                 /\ st' = st3).
  { destruct r3 as [l|e|]; inversion E; subst.
    - split; [intros _; eexists; reflexivity|]. split; [|reflexivity].
      intros e0 D; discriminate D.
    - split; [intro Hx; destruct (not_returned_Throw _ Hx)|]. split; [|reflexivity].
      intros e0 D; inversion D; reflexivity.
    - split; [intro Hx; destruct (not_returned_Pending Hx)|]. split; [|reflexivity].
      intros e0 D; discriminate D. }
  destruct Hrel as (Hret & Hthrow & ->).
  eexists. split; [exact F|]. split.
  - eapply (aborts_seq (X := unit) tt); [apply aborts_quiet; apply R1|].
    eapply (aborts_seq (X := unit) tt); [apply aborts_quiet; reflexivity|].
    eapply aborts_outcome; eauto.
  - right. exists c0, h3. destruct R1 as [I1 T1].
    rewrite !model_turns_app, !invocations_app, I1, T1. cbn.
    repeat split; auto. eapply follows_outcome; eauto.
Qed.

End QueryRuns.

(* ================================================================== *)
(** ** C1: the conversation loop *)



(* ================================================================== *)
(** ** C2: a failing tool invocation *)

(** C2 (counterexample).  The provider "alerts" is registered and its tool
    fails when invoked: [processQuery] rejects with that failure, so the
    query is aborted (its second Call Request is not processed). *)
Lemma C2_invoke_failure_aborts_processQuery :
  ~ invoke_failure_tolerated Scenario.failing_tool "alerts for NY"
      (Scenario.connected "alerts").
Proof.
  unfold invoke_failure_tolerated. intro H. vm_compute in H.
  destruct (H {| client_id := 1 |} (Some "get-alerts") (JObject [])
              "McpError: tool execution failed"
              (or_intror (or_intror (or_introl eq_refl)))) as [a D].
  discriminate D.
Qed.

(** C2 (amended).  When the invocation of a provider's tool fails while
    [chatLoop] processes a line, [processQuery] rejects with that failure
    and the failed invocation is the last thing the query did (no further
    Call Request is processed, no text is returned); [chatLoop] catches the
    failure, prints it on the error console and goes on with the next
    line. *)
Theorem C2_invoke_failure_ends_the_query_only (w : World) (line : string)
  (rest : list string) (st : State) (c : Client) (name : option string)
  (args : Json) (e : Error) :
  let query := String_trim w line in
  let st1 := snd (emit (EvQuestion (LF ++ "Query: ")%string line) st) in
  let st2 := snd (processQuery w query st1) in
  String.eqb (String_toLowerCase w query) "quit" = false ->
  In (EvCallTool c name args (Err e)) (new_events st1 st2) ->
  fst (processQuery w query st1) = Throw e /\
  (exists h0, new_events st1 st2 = h0 ++ [EvCallTool c name args (Err e)]) /\
  chatLoop_while w (line :: rest) st
  = chatLoop_while w rest
      (snd (console_error [LogStr (LF ++ "Error:")%string; LogErr e] st2)).
Proof.
  cbv zeta. intros Hquit Hin.
  destruct (processQuery w (String_trim w line)
              (snd (emit (EvQuestion (LF ++ "Query: ")%string line) st))) as [r st2] eqn:E.
  cbn [fst snd] in *.
  destruct (processQuery_run w _ _ _ _ E) as (h & F & Ab & _).
  rewrite (frame_new_events _ _ _ F) in *.
  destruct (Ab _ _ _ _ Hin) as [D Hlast]. subst r.
  split; [reflexivity|]. split; [exact Hlast|].
  cbn [chatLoop_while]. unfold bind at 1. cbn [emit].
  rewrite Hquit. unfold bind at 1. unfold try_catch. unfold bind at 1.
  cbn [emit snd] in E. rewrite E. reflexivity.
Qed.

Lemma C2_invoke_failure_ends_the_query_only_witness :
  let w := Scenario.failing_tool in
  let st := Scenario.connected "alerts" in
  let st1 := snd (emit (EvQuestion (LF ++ "Query: ")%string "alerts for NY") st) in
  let st2 := snd (processQuery w "alerts for NY" st1) in
  fst (processQuery w "alerts for NY" st1) = Throw "McpError: tool execution failed" /\
  (exists h0,
     new_events st1 st2
     = h0 ++ [EvCallTool {| client_id := 1 |} (Some "get-alerts") (JObject [])
                (Err "McpError: tool execution failed")]) /\
  chatLoop_while w ["alerts for NY"; "quit"] st
  = chatLoop_while w ["quit"]
      (snd (console_error [LogStr (LF ++ "Error:")%string; LogErr "McpError: tool execution failed"] st2)).
Proof.
  apply (C2_invoke_failure_ends_the_query_only Scenario.failing_tool
           "alerts for NY" ["quit"] (Scenario.connected "alerts")
           {| client_id := 1 |} (Some "get-alerts") (JObject [])
           "McpError: tool execution failed").
  - reflexivity.
  - vm_compute. right. right. left. reflexivity.
Defined.

(* ================================================================== *)
(** ** C3: cleanup *)

Section Cleanup.
Variable w : World.

(** The loop of [cleanup]: it closes the transports in order and stops at
    the first close that fails. *)
Lemma close_loop (ts : list Transport) :
  forall st r st',
    for_of (fun transport (_ : unit) => transport_close w transport) ts tt st = (r, st') ->
    exists h,
      frame st st' h /\
      ((r = Return tt /\ closed h = ts /\
        forall t res, In (EvClose t res) h -> res = Ok tt) \/
       (exists e pre t post,
          r = Throw e /\ ts = pre ++ t :: post /\ closed h = pre ++ [t] /\
          In (EvClose t (Err e)) h)).
Proof.
  induction ts as [|t ts IH]; intros st r st' E.
  - inversion E; subst. exists []. split; [apply frame_refl|]. left.
    repeat split; auto. intros t res [].
  - cbn [for_of] in E. unfold bind in E.
    destruct (transport_close w t st) as [r1 st1] eqn:E1.
    unfold transport_close in E1. apply await_run in E1. cbv beta in E1.
    destruct E1 as [F1 R1].
    destruct (Transport_close w (trace st) t) as [[]|e] eqn:Ec; subst r1.
    + destruct (IH _ _ _ E) as (h2 & F2 & Hcases).
      exists ([EvClose t (Ok tt)] ++ h2). split; [eapply frame_trans; eauto|].
      rewrite closed_app.
      destruct Hcases as [(Hr & Hc & Hok)|(e & pre & t' & post & Hr & Hts & Hc & Hin)].
      * left. split; [exact Hr|]. split; [cbn; now rewrite Hc|].
        intros t0 res [D|Hin]; [inversion D; reflexivity | eapply Hok; eauto].
      * right. exists e, (t :: pre), t', post.
        split; [exact Hr|]. split; [cbn; now rewrite Hts|].
        split; [cbn; now rewrite Hc|]. right. exact Hin.
    + inversion E; subst. exists [EvClose t (Err e)]. split; [exact F1|].
      right. exists e, [], t, ts. repeat split; auto. left. reflexivity.
Qed.

Lemma cleanup_unfold (st : State) :
  cleanup w st
  = match for_of (fun transport (_ : unit) => transport_close w transport)
            (JsMap.values (transports st)) tt st with
    | (Return _, st1) =>
        (Return tt,
         {| sessions := []; transports := [];
            trace := trace st1; next_id := next_id st1 |})
    | (Throw e, st1) => (Throw e, st1)
    | (Pending, st1) => (Pending, st1)
    end.
Proof.
  unfold cleanup, bind, get_transports, get_sessions, put_transports, put_sessions.
  destruct (for_of (fun transport (_ : unit) => transport_close w transport)
              (JsMap.values (transports st)) tt st) as [[a|e|] st1]; reflexivity.
Qed.

End Cleanup.

(** C3 (counterexample).  Both providers are connected and the transport
    of the first one cannot be closed: [cleanup] rejects. *)
Lemma C3_cleanup_raises_when_a_close_fails :
  ~ closes_all_and_clears Scenario.failing_close
      (snd (connectAll Scenario.failing_close ["alerts"; "geo"] initial_state)).
Proof.
  unfold closes_all_and_clears. vm_compute. intros [D _]. discriminate D.
Qed.

(** C3 (amended).  [cleanup] closes the transport bindings one at a time
    in the order of registration.  When every close succeeds (also when
    the registry is empty) each binding has been closed once, both maps are
    cleared and [cleanup] returns.  At the first close that fails
    [cleanup] rejects with that failure at once: the bindings after it are
    not closed and the registry is not cleared. *)
Theorem C3_cleanup_closes_in_order_until_a_close_fails (w : World) (st : State) :
  let r := fst (cleanup w st) in
  let st' := snd (cleanup w st) in
  exists h,
    trace st' = trace st ++ h /\
    ((r = Return tt /\ closed h = JsMap.values (transports st) /\
      (forall t res, In (EvClose t res) h -> res = Ok tt) /\
      sessions st' = [] /\ transports st' = []) \/
     (exists e pre t post,
        r = Throw e /\ JsMap.values (transports st) = pre ++ t :: post /\
        closed h = pre ++ [t] /\ In (EvClose t (Err e)) h /\
        sessions st' = sessions st /\ transports st' = transports st)).
Proof.
  cbv zeta. rewrite cleanup_unfold.
  destruct (for_of (fun transport (_ : unit) => transport_close w transport)
              (JsMap.values (transports st)) tt st) as [r1 st1] eqn:E1.
  destruct (close_loop w _ _ _ _ E1) as (h & F & Hcases).
  destruct F as (Fs & Ft & Fn & Fh).
  exists h.
  destruct Hcases as [(Hr & Hc & Hok)|(e & pre & t & post & Hr & Hts & Hc & Hin)];
    subst r1; cbn.
  - split; [exact Fh|]. left. repeat split; auto.
  - split; [exact Fh|]. right. exists e, pre, t, post. repeat split; auto.
Qed.

(* ================================================================== *)
(** ** C8: a Call Request for a server that is not registered *)

Lemma for_of_app {A L} (body : A -> L -> M L) (xs ys : list A) (acc : L) (st : State) :
  for_of body (xs ++ ys) acc st
  = (acc' <- for_of body xs acc ;; for_of body ys acc') st.
Proof.
  revert acc st. induction xs as [|x xs IH]; intros acc st.
  - reflexivity.
  - cbn [app for_of]. unfold bind.
    destruct (body x acc st) as [[a|e|] st1]; [|reflexivity..].
    rewrite IH. reflexivity.
Qed.

Lemma dispatch_unknown (w : World) (availableTools : list FunctionTool)
  (tc : ToolCall) (l : Locals) (st : State) :
  route (sessions st) tc = None ->
  dispatch w availableTools tc l st
  = (Return (push_text (serverNotFound (fst (splitQualifiedName tc.(tc_name)))) l), st).
Proof.
  unfold route, dispatch.
  destruct (splitQualifiedName (tc_name tc)) as [serverName toolName].
  unfold bind, get_sessions.
  destruct (sessions_get serverName (sessions st)); [discriminate|].
  reflexivity.
Qed.

Lemma route_server_name (ss : list (string * Client)) (tc tc' : ToolCall) :
  fst (splitQualifiedName (tc_name tc')) = fst (splitQualifiedName (tc_name tc)) ->
  route ss tc = None -> route ss tc' = None.
Proof.
  unfold route.
  destruct (splitQualifiedName (tc_name tc')) as [s' t'].
  destruct (splitQualifiedName (tc_name tc)) as [s0 t0]. cbn [fst]. intros ->.
  destruct (sessions_get s0 ss); [discriminate | reflexivity].
Qed.

(** C8 (counterexample).  "geo" is the only registered provider and the
    model asks for "alerts__get-alerts": the dispatch of that request
    returns with the conversation as it was, so no turn is added for the
    request, attributed to it or not. *)
Lemma C8_no_turn_for_an_unresolvable_request :
  ~ unresolved_request_gets_a_turn Scenario.stale_name []
      (Scenario.request "call_1" "alerts__get-alerts")
      {| messages := [UserMessage "weather?"]; finalText := [] |}
      (Scenario.connected "geo").
Proof.
  unfold unresolved_request_gets_a_turn. intro H.
  specialize (H eq_refl). vm_compute in H.
  destruct H as (l' & turn & Hr & Hm & _).
  inversion Hr; subst l'. cbn in Hm. discriminate Hm.
Qed.

(** C8 (amended).  In a model turn with the Call Requests
    [pre ++ tc :: post], where the server name of [tc] is not registered:
    the dispatch of [tc] adds exactly one line,
    "[Error: Server <name> not found]", to the text that the query
    returns, and nothing to the conversation; it returns and leaves the
    state, trace included, as it was, so that no provider (and no model)
    is contacted for it.  The line names the server part of the qualified
    name only: any request with the same server part is dispatched in the
    same way, whatever its identifier, its tool name and its arguments.
    The whole loop runs the requests before [tc] and then the requests
    after it, in order, with only that line in between. *)
Theorem C8_unresolvable_request_is_isolated (w : World)
  (availableTools : list FunctionTool) (pre : list ToolCall) (tc : ToolCall)
  (post : list ToolCall) (l : Locals) (st : State) :
  route (sessions st) tc = None ->
  let line := ("[Error: Server " ++ show (fst (splitQualifiedName tc.(tc_name)))
               ++ " not found]")%string in
  (forall l1 st1,
     sessions st1 = sessions st ->
     dispatch w availableTools tc l1 st1
     = (Return {| messages := messages l1; finalText := finalText l1 ++ [line] |}, st1)) /\
  (forall tc' l1 st1,
     sessions st1 = sessions st ->
     fst (splitQualifiedName tc'.(tc_name)) = fst (splitQualifiedName tc.(tc_name)) ->
     dispatch w availableTools tc' l1 st1 = dispatch w availableTools tc l1 st1) /\
  for_of (dispatch w availableTools) (pre ++ tc :: post) l st
  = (l1 <- for_of (dispatch w availableTools) pre l ;;
     for_of (dispatch w availableTools) post (push_text line l1)) st.
Proof.
  intros Hr line.
  assert (Hd : forall l1 st1,
             sessions st1 = sessions st ->
             dispatch w availableTools tc l1 st1 = (Return (push_text line l1), st1)).
  { intros l1 st1 Hs. apply dispatch_unknown. rewrite Hs. exact Hr. }
  split; [exact Hd|]. split.
  { intros tc' l1 st1 Hs Hname. rewrite (Hd l1 st1 Hs).
    rewrite dispatch_unknown; [|rewrite Hs; eapply route_server_name; eauto].
    unfold line, serverNotFound. rewrite Hname. reflexivity. }
  rewrite for_of_app. unfold bind.
  destruct (for_of (dispatch w availableTools) pre l st) as [r1 st1] eqn:E1.
  destruct r1 as [l1|e|]; [|reflexivity..].
  eapply (for_of_sound (dispatch w availableTools)
            (dispatch_run w (sessions st) availableTools) (sessions st)) in E1;
    [|intros x acc st0 r0 st0' Hs E0; rewrite <- Hs; eapply dispatch_sound; eauto
     |reflexivity].
  destruct E1 as (h & (Hs & _) & _).
  cbn [for_of]. unfold bind. rewrite (Hd l1 st1 Hs). reflexivity.
Qed.

Lemma C8_unresolvable_request_is_isolated_witness :
  let w := Scenario.stale_name in
  let st := Scenario.connected "geo" in
  let tc := Scenario.request "call_1" "alerts__get-alerts" in
  let post := [Scenario.request "call_2" "geo__get-forecast"] in
  let line := "[Error: Server alerts not found]"%string in
  let l := {| messages := [UserMessage "weather?"]; finalText := [] |} in
  (forall l1 st1,
     sessions st1 = sessions st ->
     dispatch w [] tc l1 st1
     = (Return {| messages := messages l1; finalText := finalText l1 ++ [line] |}, st1)) /\
  (forall tc' l1 st1,
     sessions st1 = sessions st ->
     fst (splitQualifiedName tc'.(tc_name)) = fst (splitQualifiedName tc.(tc_name)) ->
     dispatch w [] tc' l1 st1 = dispatch w [] tc l1 st1) /\
  for_of (dispatch w []) ([] ++ tc :: post) l st
  = (l1 <- for_of (dispatch w []) [] l ;;
     for_of (dispatch w []) post (push_text line l1)) st.
Proof.
  intros w st tc post line l.
  apply (C8_unresolvable_request_is_isolated w [] [] tc post l st).
  reflexivity.
Defined.

(* ================================================================== *)
(** ** C10: a query without any session *)

(** C10.  With an empty session registry [processQuery] throws
    "Not connected to any server" and leaves the state as it was: no tool is
    listed, no catalog is built and neither the model service nor a
    provider is contacted. *)
Theorem C10_processQuery_requires_a_session (w : World) (query : string) (st : State) :
  sessions st = [] ->
  processQuery w query st = (Throw "Not connected to any server", st) /\
  new_events st (snd (processQuery w query st)) = [].
Proof.
  intro Hs.
  assert (E : processQuery w query st = (Throw "Not connected to any server", st)).
  { unfold processQuery, bind, get_sessions. rewrite Hs. reflexivity. }
  split; [exact E|]. rewrite E. apply trace_new_events. cbn [snd].
  rewrite app_nil_r. reflexivity.
Qed.

Lemma C10_processQuery_requires_a_session_witness :
  processQuery Scenario.chained "alerts for NY" initial_state
  = (Throw "Not connected to any server", initial_state) /\
  new_events initial_state
    (snd (processQuery Scenario.chained "alerts for NY" initial_state)) = [].
Proof.
  apply (C10_processQuery_requires_a_session Scenario.chained "alerts for NY"
           initial_state).
  reflexivity.
Defined.

(* ================================================================== *)
(** ** C9: connecting under a name that is already registered *)

Section JsMapFacts.
Context {V : Type}.

Lemma get_set_same (k : string) (v : V) (m : list (string * V)) :
  JsMap.get k (JsMap.set k v m) = Some v.
Proof.
  induction m as [|[k' v'] m IH]; cbn.
  - now rewrite String.eqb_refl.
  - destruct (String.eqb k' k) eqn:E; cbn; rewrite E; [reflexivity | exact IH].
Qed.

Lemma get_set_other (k k' : string) (v : V) (m : list (string * V)) :
  k' <> k -> JsMap.get k' (JsMap.set k v m) = JsMap.get k' m.
Proof.
  intro Hne. induction m as [|[k0 v0] m IH]; cbn.
  - destruct (String.eqb_spec k k'); [congruence | reflexivity].
  - destruct (String.eqb_spec k0 k) as [->|Hk]; cbn.
    + destruct (String.eqb_spec k k'); [congruence | reflexivity].
    + destruct (String.eqb k0 k'); [reflexivity | exact IH].
Qed.

(** Setting a key that is present keeps the keys, their order and the
    size. *)
Lemma keys_set_present (k : string) (v old : V) (m : list (string * V)) :
  JsMap.get k m = Some old -> JsMap.keys (JsMap.set k v m) = JsMap.keys m.
Proof.
  induction m as [|[k' v'] m IH]; cbn; [discriminate|].
  destruct (String.eqb k' k); cbn; [reflexivity|].
  intro H. f_equal. exact (IH H).
Qed.

Lemma size_set_present (k : string) (v old : V) (m : list (string * V)) :
  JsMap.get k m = Some old -> JsMap.size (JsMap.set k v m) = JsMap.size m.
Proof.
  intro H. apply (keys_set_present k v) in H. unfold JsMap.size.
  rewrite <- (length_map fst (JsMap.set k v m)), <- (length_map fst m).
  unfold JsMap.keys in H. rewrite H. reflexivity.
Qed.

End JsMapFacts.

Section Connect.
Variable w : World.

(** Building the transport either throws and changes nothing, or
    allocates one object. *)
Lemma createTransport_run (serverName : string) (serverConfig : ServerConfig)
  (st : State) (r : Outcome Transport) (st' : State) :
  createTransport w serverName serverConfig st = (r, st') ->
  (exists e, r = Throw e /\ st' = st) \/
  (exists kind,
     r = Return {| transport_id := next_id st; transport_kind := kind |} /\
     st' = {| sessions := sessions st; transports := transports st;
              trace := trace st; next_id := S (next_id st) |}).
Proof.
  assert (Hthrow : forall e,
             @throw Transport e st = (r, st') ->
             (exists e, r = Throw e /\ st' = st) \/
             (exists kind,
                r = Return {| transport_id := next_id st; transport_kind := kind |} /\
                st' = {| sessions := sessions st; transports := transports st;
                         trace := trace st; next_id := S (next_id st) |})).
  { intros e E. inversion E; subst. left. eauto. }
  assert (Hnew : forall kind,
             new_Transport kind st = (r, st') ->
             (exists e, r = Throw e /\ st' = st) \/
             (exists kind,
                r = Return {| transport_id := next_id st; transport_kind := kind |} /\
                st' = {| sessions := sessions st; transports := transports st;
                         trace := trace st; next_id := S (next_id st) |})).
  { intros kind E. inversion E; subst. right. eauto. }
  unfold createTransport.
  destruct (cfg_type serverConfig).
  - destruct (cfg_command serverConfig) as [command|]; [|apply Hthrow].
    destruct (truthy command); [|apply Hthrow].
    unfold createCommandTransport.
    destruct (split " " command) as [|cmd shellArgs]; [apply Hthrow|].
    destruct (negb (truthy cmd)); [apply Hthrow | apply Hnew].
  - destruct (cfg_url serverConfig) as [url|]; [|apply Hthrow].
    destruct (truthy url); [|apply Hthrow].
    unfold createSSETransport, bind, lift.
    destruct (new_URL w url) as [u|e]; [apply Hnew | apply Hthrow].
  - destruct (cfg_url serverConfig) as [url|]; [|apply Hthrow].
    destruct (truthy url); [|apply Hthrow].
    unfold createHttpTransport, bind, lift.
    destruct (new_URL w url) as [u|e]; [apply Hnew | apply Hthrow].
Qed.

(** The runs of [connectToServer]: it fails before anything is registered,
    or the connection is accepted and the session and the transport are
    stored under the server name. *)
Ltac no_chat :=
  split; [reflexivity|];
  unfold entered_chatLoop; cbn [In app];
  let D := fresh "D" in
  intro D; repeat (destruct D as [D|D]; [discriminate D|]); exact D.

Lemma connectToServer_run (serverName : string) (st : State) (r : Outcome unit)
  (st' : State) :
  connectToServer w serverName st = (r, st') ->
  exists h,
    trace st' = trace st ++ h /\ (closed h = [] /\ ~ entered_chatLoop h) /\
    (((forall c t, ~ In (EvConnect c t (Ok tt)) h) /\
      (exists e, r = Throw e) /\
      sessions st' = sessions st /\ transports st' = transports st) \/
     (exists t,
        let c := {| client_id := S (next_id st) |} in
        transport_id t = next_id st /\
        In (EvConnect c t (Ok tt)) h /\
        Client_connect w (trace st) c t = Ok tt /\
        r <> Pending /\
        sessions st' = JsMap.set serverName c (sessions st) /\
        transports st' = JsMap.set serverName t (transports st))).
Proof.
  unfold connectToServer.
  destruct (find (fun cfg => String.eqb (cfg_name cfg) serverName) (w_config w))
    as [serverConfig|].
  2:{ intro E. inversion E; subst. exists []. rewrite app_nil_r.
      split; [reflexivity|]. split; [no_chat|]. left.
      split; [intros c t []|]. split; [eauto|]. split; reflexivity. }
  unfold bind at 1.
  destruct (createTransport w serverName serverConfig st) as [r0 st0] eqn:E0.
  apply createTransport_run in E0.
  destruct E0 as [(e & -> & ->)|(kind & -> & ->)].
  { intro E. inversion E; subst. exists []. rewrite app_nil_r.
    split; [reflexivity|]. split; [no_chat|]. left.
    split; [intros c t []|]. split; [eauto|]. split; reflexivity. }
  unfold bind at 1. unfold new_Client at 1. unfold bind at 1, fresh_id at 1, ret at 1.
  cbn [next_id sessions transports trace].
  unfold bind at 1.
  match goal with
  | |- context [client_connect w ?c ?t ?s] =>
      destruct (client_connect w c t s) as [r1 st1] eqn:E1
  end.
  unfold client_connect in E1. apply await_run in E1. cbv beta in E1.
  cbn [trace] in E1. destruct E1 as [(S1 & T1 & N1 & H1) R1].
  cbn [next_id sessions transports trace] in S1, T1, N1, H1.
  match type of R1 with
  | match ?x with _ => _ end => destruct x as [[]|e] eqn:Ec
  end; subst r1.
  2:{ intro E. inversion E; subst. eexists. split; [exact H1|].
      split; [no_chat|]. left.
      split; [intros c t [D|[]]; inversion D|]. split; [eauto|].
      split; assumption. }
  unfold bind at 1, get_sessions at 1. unfold bind at 1, put_sessions at 1.
  unfold bind at 1, get_transports at 1. unfold bind at 1, put_transports at 1.
  cbn [next_id sessions transports trace].
  unfold bind at 1.
  match goal with
  | |- context [client_listTools w ?c ?s] =>
      destruct (client_listTools w c s) as [r2 st2] eqn:E2
  end.
  unfold client_listTools in E2. apply await_run in E2. cbv beta in E2.
  destruct E2 as [(S2 & T2 & N2 & H2) R2].
  cbn [next_id sessions transports trace] in S2, T2, N2, H2.
  match type of R2 with
  | match ?x with _ => _ end => destruct x as [tools|e] eqn:El
  end; subst r2.
  - unfold console_log, emit. intro E. inversion E; subst. cbn [trace sessions transports].
    eexists. split.
    + rewrite H2, H1, <- !app_assoc. reflexivity.
    + split; [no_chat|].
      right. exists {| transport_id := next_id st; transport_kind := kind |}.
      cbv zeta. cbn [transport_id].
      split; [reflexivity|]. split; [left; reflexivity|].
      split; [exact Ec|].
      split; [discriminate|]. rewrite S2, T2, S1, T1. split; reflexivity.
  - intro E. inversion E; subst.
    eexists. split.
    + rewrite H2, H1, <- !app_assoc. reflexivity.
    + split; [no_chat|].
      right. exists {| transport_id := next_id st; transport_kind := kind |}.
      cbv zeta. cbn [transport_id].
      split; [reflexivity|]. split; [left; reflexivity|].
      split; [exact Ec|].
      split; [discriminate|]. rewrite S2, T2, S1, T1. split; reflexivity.
Qed.

(** A transport that cannot be built cannot be built in any state: the
    failure comes from the configuration alone. *)
Lemma createTransport_throws (serverName : string) (serverConfig : ServerConfig)
  (st : State) (e : Error) (st' : State) :
  createTransport w serverName serverConfig st = (Throw e, st') ->
  forall st0, createTransport w serverName serverConfig st0 = (Throw e, st0).
Proof.
  intros E st0. revert E.
  assert (Hthrow : forall e0,
             @throw Transport e0 st = (Throw e, st') ->
             @throw Transport e0 st0 = (Throw e, st0)).
  { intros e0 E. inversion E; reflexivity. }
  assert (Hnew : forall kind,
             new_Transport kind st = (Throw e, st') ->
             new_Transport kind st0 = (Throw e, st0)).
  { intros kind E. discriminate E. }
  unfold createTransport.
  destruct (cfg_type serverConfig).
  - destruct (cfg_command serverConfig) as [command|]; [|apply Hthrow].
    destruct (truthy command); [|apply Hthrow].
    unfold createCommandTransport.
    destruct (split " " command) as [|cmd shellArgs]; [apply Hthrow|].
    destruct (negb (truthy cmd)); [apply Hthrow | apply Hnew].
  - destruct (cfg_url serverConfig) as [url|]; [|apply Hthrow].
    destruct (truthy url); [|apply Hthrow].
    unfold createSSETransport, bind, lift.
    destruct (new_URL w url) as [u|e0]; [apply Hnew | apply Hthrow].
  - destruct (cfg_url serverConfig) as [url|]; [|apply Hthrow].
    destruct (truthy url); [|apply Hthrow].
    unfold createHttpTransport, bind, lift.
    destruct (new_URL w url) as [u|e0]; [apply Hnew | apply Hthrow].
Qed.

(** Why [connectToServer] ends as it does: the configuration is missing,
    the transport cannot be built, the provider refuses the connection,
    or the connection is accepted and the outcome is that of the listing
    of the tools. *)
Lemma connectToServer_causes (serverName : string) (st : State) (r : Outcome unit)
  (st' : State) (h : list Event) :
  connectToServer w serverName st = (r, st') ->
  trace st' = trace st ++ h ->
  let c := {| client_id := S (next_id st) |} in
  let found := find (fun cfg => String.eqb (cfg_name cfg) serverName) (w_config w) in
  (found = None /\
   r = Throw ("Server configuration not found for: " ++ serverName)%string /\ h = []) \/
  (exists serverConfig e,
     found = Some serverConfig /\
     (forall st0, createTransport w serverName serverConfig st0 = (Throw e, st0)) /\
     r = Throw e /\ h = []) \/
  (exists t e,
     Client_connect w (trace st) c t = Err e /\
     r = Throw e /\ h = [EvConnect c t (Err e)]) \/
  (exists t,
     In (EvConnect c t (Ok tt)) h /\
     (r = Return tt \/ exists e, r = Throw e /\ In (EvListTools c (Err e)) h)).
Proof.
  cbv zeta. unfold connectToServer.
  destruct (find (fun cfg => String.eqb (cfg_name cfg) serverName) (w_config w))
    as [serverConfig|].
  2:{ intros E Ht. inversion E; subst. left.
      split; [reflexivity|]. split; [reflexivity|].
      apply (app_inv_head (trace st')). rewrite app_nil_r. symmetry. exact Ht. }
  unfold bind at 1.
  destruct (createTransport w serverName serverConfig st) as [r0 st0] eqn:E0.
  pose proof E0 as E0'. apply createTransport_run in E0'.
  destruct E0' as [(e & -> & ->)|(kind & -> & ->)].
  { intros E Ht. inversion E; subst. right. left. exists serverConfig, e.
    split; [reflexivity|]. split; [eapply createTransport_throws; eauto|].
    split; [reflexivity|].
    apply (app_inv_head (trace st')). rewrite app_nil_r. symmetry. exact Ht. }
  unfold bind at 1. unfold new_Client at 1. unfold bind at 1, fresh_id at 1, ret at 1.
  cbn [next_id sessions transports trace].
  unfold bind at 1.
  match goal with
  | |- context [client_connect w ?c ?t ?s] =>
      destruct (client_connect w c t s) as [r1 st1] eqn:E1
  end.
  unfold client_connect in E1. apply await_run in E1. cbv beta in E1.
  cbn [trace] in E1. destruct E1 as [(S1 & T1 & N1 & H1) R1].
  cbn [next_id sessions transports trace] in S1, T1, N1, H1.
  match type of R1 with
  | match ?x with _ => _ end => destruct x as [[]|e] eqn:Ec
  end; subst r1.
  2:{ intros E Ht. inversion E; subst. right. right. left.
      eexists _, e. split; [exact Ec|]. split; [reflexivity|].
      rewrite H1 in Ht. apply app_inv_head in Ht. symmetry. exact Ht. }
  unfold bind at 1, get_sessions at 1. unfold bind at 1, put_sessions at 1.
  unfold bind at 1, get_transports at 1. unfold bind at 1, put_transports at 1.
  cbn [next_id sessions transports trace].
  unfold bind at 1.
  match goal with
  | |- context [client_listTools w ?c ?s] =>
      destruct (client_listTools w c s) as [r2 st2] eqn:E2
  end.
  unfold client_listTools in E2. apply await_run in E2. cbv beta in E2.
  destruct E2 as [(S2 & T2 & N2 & H2) R2].
  cbn [next_id sessions transports trace] in S2, T2, N2, H2.
  match type of R2 with
  | match ?x with _ => _ end => destruct x as [tools|e] eqn:El
  end; subst r2.
  - unfold console_log, emit. intros E Ht. inversion E; subst.
    cbn [trace] in Ht. rewrite H2, H1, <- !app_assoc in Ht.
    apply app_inv_head in Ht. subst h.
    right. right. right. eexists. split; [left; reflexivity|]. left. reflexivity.
  - intros E Ht. inversion E; subst.
    cbn [trace] in El. rewrite H1 in El.
    rewrite H2, H1, <- !app_assoc in Ht. apply app_inv_head in Ht. subst h.
    rewrite El.
    right. right. right. eexists. split; [left; reflexivity|].
    right. exists e. split; [reflexivity|]. right. left. reflexivity.
Qed.

End Connect.

(** C9 (counterexample).  "alerts" is registered with the session of
    client 1; connecting to "alerts" again returns normally and the
    registration now holds the session of a new client. *)
Lemma C9_duplicate_name_is_accepted :
  ~ duplicate_rejected Scenario.chained "alerts" (Scenario.connected "alerts").
Proof.
  unfold duplicate_rejected. vm_compute. intro H.
  destruct (H eq_refl) as [[e D] _]. discriminate D.
Qed.

(** C9 (amended).  Connecting under a name that is already registered
    raises no error for the duplicate and closes nothing.  The attempt ends
    for the same reasons as for a new name.  It fails before the connection
    is accepted, with the registry unchanged, only when the configuration
    is missing, when the transport cannot be built (whatever the state of
    the client) or when the provider refuses the connection.  Otherwise
    the connection is accepted and the new session and transport take the
    place of the ones registered under that name (same keys in the same
    order, same size, the other registrations unchanged); the call then
    returns, or rejects with the failure of the listing of the tools. *)
Theorem C9_reconnecting_replaces_the_registration (w : World) (serverName : string)
  (st : State) (old : Client) :
  JsMap.get serverName (sessions st) = Some old ->
  let r := fst (connectToServer w serverName st) in
  let st' := snd (connectToServer w serverName st) in
  let c := {| client_id := S (next_id st) |} in
  let found := find (fun cfg => String.eqb (cfg_name cfg) serverName) (w_config w) in
  exists h,
    trace st' = trace st ++ h /\ closed h = [] /\
    (((forall c t, ~ In (EvConnect c t (Ok tt)) h) /\
      sessions st' = sessions st /\ transports st' = transports st /\
      ((found = None /\
        r = Throw ("Server configuration not found for: " ++ serverName)%string /\
        h = []) \/
       (exists serverConfig e,
          found = Some serverConfig /\
          (forall st0, createTransport w serverName serverConfig st0 = (Throw e, st0)) /\
          r = Throw e /\ h = []) \/
       (exists t e,
          Client_connect w (trace st) c t = Err e /\
          r = Throw e /\ h = [EvConnect c t (Err e)]))) \/
     (exists t,
        transport_id t = next_id st /\
        In (EvConnect c t (Ok tt)) h /\
        (r = Return tt \/ exists e, r = Throw e /\ In (EvListTools c (Err e)) h) /\
        sessions st' = JsMap.set serverName c (sessions st) /\
        transports st' = JsMap.set serverName t (transports st) /\
        JsMap.get serverName (sessions st') = Some c /\
        JsMap.keys (sessions st') = JsMap.keys (sessions st) /\
        JsMap.size (sessions st') = JsMap.size (sessions st) /\
        (forall k, k <> serverName ->
                   JsMap.get k (sessions st') = JsMap.get k (sessions st)))).
Proof.
  intros Hold. cbv zeta.
  destruct (connectToServer w serverName st) as [r st'] eqn:E. cbn [fst snd].
  destruct (connectToServer_run w _ _ _ _ E) as (h & Ht & (Hc & _) & Hcases).
  pose proof (connectToServer_causes w _ _ _ _ h E Ht) as Hwhy. cbv zeta in Hwhy.
  exists h. split; [exact Ht|]. split; [exact Hc|].
  destruct Hcases as [(Hno & _ & Hs & Htr)|(t & Hid & Hin & _ & Hp & Hs & Htr)].
  - left. split; [exact Hno|]. split; [exact Hs|]. split; [exact Htr|].
    destruct Hwhy as [Ha|[Hb|[Hc'|(t & Hin & _)]]]; auto.
    destruct (Hno _ _ Hin).
  - right. exists t. rewrite Hs.
    split; [exact Hid|]. split; [exact Hin|].
    split.
    { destruct Hwhy as [(_ & _ & ->)|[(cfg & e & _ & _ & _ & ->)
                       |[(t0 & e & _ & _ & ->)|(t0 & _ & Hr)]]];
        [destruct Hin | destruct Hin | | exact Hr].
      destruct Hin as [D|[]]. discriminate D. }
    split; [reflexivity|]. split; [exact Htr|].
    split; [apply get_set_same|].
    split; [eapply keys_set_present; eauto|].
    split; [eapply size_set_present; eauto|].
    intros k Hk. apply get_set_other. exact Hk.
Qed.

Lemma C9_reconnecting_replaces_the_registration_witness :
  let w := Scenario.chained in
  let serverName := "alerts"%string in
  let st := Scenario.connected "alerts" in
  let r := fst (connectToServer w serverName st) in
  let st' := snd (connectToServer w serverName st) in
  let c := {| client_id := S (next_id st) |} in
  let found := find (fun cfg => String.eqb (cfg_name cfg) serverName) (w_config w) in
  exists h,
    trace st' = trace st ++ h /\ closed h = [] /\
    (((forall c t, ~ In (EvConnect c t (Ok tt)) h) /\
      sessions st' = sessions st /\ transports st' = transports st /\
      ((found = None /\
        r = Throw ("Server configuration not found for: " ++ serverName)%string /\
        h = []) \/
       (exists serverConfig e,
          found = Some serverConfig /\
          (forall st0, createTransport w serverName serverConfig st0 = (Throw e, st0)) /\
          r = Throw e /\ h = []) \/
       (exists t e,
          Client_connect w (trace st) c t = Err e /\
          r = Throw e /\ h = [EvConnect c t (Err e)]))) \/
     (exists t,
        transport_id t = next_id st /\
        In (EvConnect c t (Ok tt)) h /\
        (r = Return tt \/ exists e, r = Throw e /\ In (EvListTools c (Err e)) h) /\
        sessions st' = JsMap.set serverName c (sessions st) /\
        transports st' = JsMap.set serverName t (transports st) /\
        JsMap.get serverName (sessions st') = Some c /\
        JsMap.keys (sessions st') = JsMap.keys (sessions st) /\
        JsMap.size (sessions st') = JsMap.size (sessions st) /\
        (forall k, k <> serverName ->
                   JsMap.get k (sessions st') = JsMap.get k (sessions st)))).
Proof.
  apply (C9_reconnecting_replaces_the_registration Scenario.chained "alerts"
           (Scenario.connected "alerts") {| client_id := 1 |}).
  reflexivity.
Defined.

(* ================================================================== *)
(** ** C4, C5: connecting the open servers *)

(** C4 (the code at the failing input).  Two servers are open.  "alerts"
    connects; "geo" accepts the connection and then fails to list its
    tools, so [connectToServer] rejects and [main] reports
    "Failed to connect to server 'geo':".  The loop does not raise, one
    connection succeeded, and the registry holds two sessions. *)
Theorem C4_failed_connection_stays_registered :
  let w := Scenario.failing_list in
  let openServers := getOpenServers w in
  let st' := snd (connectAll w openServers initial_state) in
  openServers = ["alerts"; "geo"] /\
  fst (connectAll w openServers initial_state) = Return tt /\
  connect_outcomes w openServers initial_state
  = [Return tt; Throw "McpError: Request timed out"] /\
  successful_connections w openServers initial_state = 1 /\
  In (EvConsoleError [LogStr "Failed to connect to server 'geo':";
                      LogErr "McpError: Request timed out"]) (trace st') /\
  JsMap.keys (sessions st') = ["alerts"; "geo"] /\
  JsMap.size (sessions st') = 2.
Proof.
  vm_compute. repeat (split; [reflexivity|]).
  split; [|split; reflexivity].
  do 5 right. left. reflexivity.
Qed.

(** C5 (the code at the failing input).  The only open server accepts the
    connection and then fails to list its tools: no call of
    [connectToServer] succeeds and [main] reports the failure, yet the
    session is registered, [main] does not throw and the conversation loop
    is entered. *)
Theorem C5_run_proceeds_after_every_connection_failed :
  let w := Scenario.only_failing_list in
  let openServers := getOpenServers w in
  let h := trace (snd (main w initial_state)) in
  connect_outcomes w openServers initial_state = [Throw "McpError: Request timed out"] /\
  successful_connections w openServers initial_state = 0 /\
  In (EvConsoleError [LogStr "Failed to connect to server 'geo':";
                      LogErr "McpError: Request timed out"]) h /\
  fst (main w initial_state) = Return tt /\
  entered_chatLoop h.
Proof.
  vm_compute. repeat (split; [reflexivity|]).
  split; [do 3 right; left; reflexivity|].
  split; [reflexivity|].
  do 4 right. left. reflexivity.
Qed.

(* ================================================================== *)
(** ** C7: qualified names with more than one separator *)

(** C7 (the code at the failing input).  The provider "srv" offers the
    tool "get__alerts"; the catalog names it "srv__get__alerts".  When the
    model requests that name, the server name is the text before the first
    separator, but the tool invoked on "srv" is "get": the text after the
    second separator is dropped. *)
Theorem C7_text_after_second_separator_is_dropped :
  let w := Scenario.nested_name in
  let st := Scenario.connected "srv" in
  let h := new_events st (snd (processQuery w "alerts?" st)) in
  qualifiedName "srv" "get__alerts" = "srv__get__alerts" /\
  split SEP "srv__get__alerts" = ["srv"; "get"; "alerts"] /\
  splitQualifiedName "srv__get__alerts" = (Some "srv", Some "get") /\
  invocations h = [({| client_id := 1 |}, Some "get")].
Proof. vm_compute. repeat split; reflexivity. Qed.

(* ================================================================== *)
(** ** What holds of the connection loop and of the split *)

Section ConnectAll.
Variable w : World.

Lemma not_entered_app (h1 h2 : list Event) :
  ~ entered_chatLoop h1 -> ~ entered_chatLoop h2 -> ~ entered_chatLoop (h1 ++ h2).
Proof.
  unfold entered_chatLoop. intros H1 H2 Hin. apply in_app_or in Hin. tauto.
Qed.

(** One round of the loop of [main]: the failure of a connection is
    caught and reported, the round itself returns. *)
Lemma connectOne_run (serverName : string) (st : State) :
  exists st' h,
    connectOne w serverName tt st = (Return tt, st') /\
    trace st' = trace st ++ h /\ ~ entered_chatLoop h /\
    (refused w -> sessions st' = sessions st /\ transports st' = transports st).
Proof.
  unfold connectOne, try_catch.
  destruct (connectToServer w serverName st) as [r st1] eqn:E.
  destruct (connectToServer_run w _ _ _ _ E) as (h & Ht & (_ & Hn) & Hcases).
  assert (Hkeep : refused w -> sessions st1 = sessions st /\ transports st1 = transports st).
  { intro Href.
    destruct Hcases as [(_ & _ & Hs & Htr)|(t & _ & _ & Hc & _)]; [auto|].
    cbv zeta in Hc. destruct (Href (trace st) {| client_id := S (next_id st) |} t) as [e He].
    rewrite He in Hc. discriminate Hc. }
  destruct r as [[]|e|].
  - exists st1, h. auto.
  - eexists. exists (h ++ [EvConsoleError
                             [LogStr ("Failed to connect to server '" ++ serverName ++ "':");
                              LogErr e]]).
    split; [reflexivity|]. cbn [trace sessions transports].
    split; [rewrite Ht, app_assoc; reflexivity|].
    split; [|exact Hkeep].
    apply not_entered_app; [exact Hn|].
    intros [D|[]]. discriminate D.
  - exfalso. destruct Hcases as [(_ & (e & D) & _)|(t & _ & _ & _ & Hp & _)];
      [discriminate D | apply Hp; reflexivity].
Qed.

(** The loop over the open servers never raises, whatever the individual
    connections do, and attempts every server in turn. *)
Lemma connectAll_run (openServers : list string) :
  forall st,
  exists st' h,
    connectAll w openServers st = (Return tt, st') /\
    trace st' = trace st ++ h /\ ~ entered_chatLoop h /\
    (refused w -> sessions st' = sessions st /\ transports st' = transports st).
Proof.
  unfold connectAll.
  induction openServers as [|serverName rest IH]; intro st.
  - exists st, []. rewrite app_nil_r. repeat split; auto.
  - destruct (connectOne_run serverName st) as (st1 & h1 & E1 & T1 & N1 & K1).
    destruct (IH st1) as (st2 & h2 & E2 & T2 & N2 & K2).
    exists st2, (h1 ++ h2). cbn [for_of]. unfold bind. rewrite E1, E2.
    split; [reflexivity|]. split; [rewrite T2, T1, app_assoc; reflexivity|].
    split; [apply not_entered_app; assumption|].
    intro Href. destruct (K1 Href) as [A1 B1]. destruct (K2 Href) as [A2 B2].
    split; congruence.
Qed.

Lemma connectAll_never_raises (openServers : list string) (st : State) :
  fst (connectAll w openServers st) = Return tt.
Proof.
  destruct (connectAll_run openServers st) as (st' & h & E & _). now rewrite E.
Qed.

(** X11.  When every provider refuses the connection and the registry
    starts empty, [main] throws "Failed to connect to any server" and the
    conversation loop is not entered. *)
Lemma main_stops_when_every_connection_is_refused (st : State) :
  refused w -> sessions st = [] -> transports st = [] ->
  fst (main w st) = Throw "Failed to connect to any server" /\
  ~ entered_chatLoop (new_events st (snd (main w st))).
Proof.
  intros Href Hs Ht. unfold main, try_finally, hasActiveSessions, console_log.
  unfold bind, emit, get_sessions, ret, throw.
  match goal with
  | |- context [connectAll w ?names ?s0] =>
      destruct (connectAll_run names s0) as (st1 & h & E & T & N & K)
  end.
  destruct (K Href) as [S1 T1]. cbn [sessions transports trace] in S1, T1, T.
  rewrite E. cbv beta iota. rewrite S1, Hs.
  cbn [JsMap.size List.length Nat.ltb Nat.leb negb].
  rewrite cleanup_unfold, T1, Ht. cbn [JsMap.values map for_of ret fst snd].
  split; [reflexivity|].
  erewrite trace_new_events; [|cbn [trace]; rewrite T, <- app_assoc; reflexivity].
  apply not_entered_app; [|exact N].
  intros [D|[]]. discriminate D.
Qed.

End ConnectAll.

Example unreachable_providers_stop_main :
  fst (main Scenario.unreachable initial_state) = Throw "Failed to connect to any server" /\
  ~ entered_chatLoop (new_events initial_state (snd (main Scenario.unreachable initial_state))).
Proof.
  apply main_stops_when_every_connection_is_refused; try reflexivity.
  intros h c t. exists "ECONNREFUSED". reflexivity.
Defined.

(** X12.  For a provider name that holds no separator and does not end
    with an underscore, whatever the tool name is: the first piece of the
    split of the qualified name, which the dispatch takes as server name,
    is the provider name, and the remaining pieces are those of the tool
    name. *)
Lemma split_at_first_separator (p rest : string) :
  includes SEP p = false -> endsWith "_" p = false ->
  split SEP (qualifiedName p rest) = p :: split SEP rest.
Proof.
  intros Hp He. unfold split, qualifiedName. change SEP with "__" at 1 3. cbv iota.
  apply (split_from_qualified p rest EmptyString Hp He).
Qed.

(* ================================================================== *)
(** * Further properties of the client *)

(** ** The shape of a query *)

Lemma loop_run_Forall {A L} (P : A -> L -> Outcome L -> list Event -> Prop)
  (Q : Event -> Prop) :
  (forall x acc r h, P x acc r h -> Forall Q h) ->
  forall xs acc r h, loop_run P xs acc r h -> Forall Q h.
Proof.
  intros HP xs acc r h R.
  induction R as [acc|x xs acc r h Hx Hn|x xs acc acc' h1 r h2 Hx R IH].
  - constructor.
  - eapply HP; eauto.
  - apply Forall_app. split; [eapply HP; eauto | exact IH].
Qed.

Lemma loop_run_settles {A L} (P : A -> L -> Outcome L -> list Event -> Prop) :
  (forall x acc r h, P x acc r h -> r <> Pending) ->
  forall xs acc r h, loop_run P xs acc r h -> r <> Pending.
Proof.
  intros HP xs acc r h R.
  induction R as [acc|x xs acc r h Hx Hn|x xs acc acc' h1 r h2 Hx R IH].
  - discriminate.
  - eapply HP; eauto.
  - exact IH.
Qed.

Lemma dispatch_run_events (w : World) (ss : list (string * Client))
  (availableTools : list FunctionTool) (tc : ToolCall) (l : Locals)
  (r : Outcome Locals) (h : list Event) :
  dispatch_run w ss availableTools tc l r h -> Forall query_event h /\ r <> Pending.
Proof.
  intro R. inversion R; subst; (split; [repeat constructor | discriminate]).
Qed.

Section QueryShape.
Variable w : World.

(** [processQuery], step by step. *)
Lemma processQuery_cases (query : string) (st : State) (r : Outcome string) (st' : State) :
  processQuery w query st = (r, st') ->
  (sessions st = [] /\ r = Throw "Not connected to any server" /\ st' = st) \/
  (sessions st <> [] /\
   exists r1 st1,
     for_of (listServerTools w) (sessions st) [] st = (r1, st1) /\
     match r1 with
     | Return tools =>
         exists r2 st2,
           openai_create w (completionRequest w [UserMessage query] tools) st1 = (r2, st2) /\
           match r2 with
           | Return c0 =>
               exists r3,
                 for_of (processChoice w tools) (choices c0)
                   {| messages := [UserMessage query]; finalText := [] |} st2 = (r3, st') /\
                 r = outcome_map (fun l => join LF (finalText l)) r3
           | Throw e => r = Throw e /\ st' = st2
           | Pending => r = Pending /\ st' = st2
           end
     | Throw e => r = Throw e /\ st' = st1
     | Pending => r = Pending /\ st' = st1
     end).
Proof.
  unfold processQuery. unfold bind at 1. unfold get_sessions.
  destruct (Nat.eqb (JsMap.size (sessions st)) 0) eqn:Hz.
  { intro E. inversion E; subst. left.
    split; [|split; reflexivity].
    destruct (sessions st'); [reflexivity | discriminate Hz]. }
  intro E. right.
  split; [intro Hs; rewrite Hs in Hz; discriminate Hz|].
  unfold bind at 1 in E.
  destruct (for_of (listServerTools w) (sessions st) [] st) as [r1 st1] eqn:E1.
  exists r1, st1. split; [reflexivity|].
  destruct r1 as [tools|e|]; [|inversion E; auto..].
  unfold bind at 1 in E. cbn [messages] in E.
  destruct (openai_create w (completionRequest w [UserMessage query] tools) st1)
    as [r2 st2] eqn:E2.
  exists r2, st2. split; [reflexivity|].
  destruct r2 as [c0|e|]; [|inversion E; auto..].
  unfold bind at 1 in E.
  destruct (for_of (processChoice w tools) (choices c0)
              {| messages := [UserMessage query]; finalText := [] |} st2)
    as [r3 st3] eqn:E3.
  exists r3. destruct r3 as [l|e|]; inversion E; subst; auto.
Qed.

Lemma listServerTools_events (entry : string * Client) (acc : list FunctionTool)
  (st : State) (r : Outcome (list FunctionTool)) (st' : State) :
  listServerTools w entry acc st = (r, st') ->
  exists h, frame st st' h /\ (Forall query_event h /\ r <> Pending).
Proof.
  unfold listServerTools. destruct entry as [serverName session].
  unfold bind. destruct (client_listTools w session st) as [r1 st1] eqn:E1.
  unfold client_listTools in E1. apply await_run in E1. destruct E1 as [F1 R1].
  cbv beta in R1.
  destruct (Client_listTools w (trace st) session); subst r1;
    intro E; inversion E; subst; eexists; (split; [exact F1|]);
    (split; [repeat constructor | discriminate]).
Qed.

Lemma choice_run_events (ss : list (string * Client))
  (availableTools : list FunctionTool) (choice : Choice) (l : Locals)
  (r : Outcome Locals) (h : list Event) :
  choice_run w ss availableTools choice l r h -> Forall query_event h /\ r <> Pending.
Proof.
  intros [l1 R]. split.
  - eapply loop_run_Forall; [|exact R]. intros x acc r0 h0 H.
    apply (dispatch_run_events _ _ _ _ _ _ _ H).
  - eapply loop_run_settles; [|exact R]. intros x acc r0 h0 H.
    apply (dispatch_run_events _ _ _ _ _ _ _ H).
Qed.

(** A query only lists tools, invokes tools, asks the model and prints
    progress lines; it settles, and it leaves the registry as it was. *)
Lemma processQuery_frame (query : string) (st : State) (r : Outcome string) (st' : State) :
  processQuery w query st = (r, st') ->
  r <> Pending /\ exists h, frame st st' h /\ Forall query_event h.
Proof.
  intro E. apply processQuery_cases in E.
  destruct E as [(Hs & -> & ->)|(Hne & r1 & st1 & E1 & Hrest)].
  { split; [discriminate|]. exists []. split; [apply frame_refl | constructor]. }
  eapply (for_of_sound (listServerTools w)
            (fun _ _ r h => Forall query_event h /\ r <> Pending) (sessions st)) in E1;
    [|intros x acc st0 r0 st0' _ E0; eapply listServerTools_events; eauto | reflexivity].
  destruct E1 as (h1 & F1 & R1).
  assert (Q1 : Forall query_event h1).
  { eapply loop_run_Forall; [|exact R1]. intros x acc r0 h0 H. apply H. }
  assert (P1 : r1 <> Pending).
  { eapply loop_run_settles; [|exact R1]. intros x acc r0 h0 H. apply H. }
  destruct r1 as [tools|e|]; [|destruct Hrest as [-> ->]..].
  2:{ split; [discriminate|]. exists h1. auto. }
  2:{ contradiction. }
  destruct Hrest as (r2 & st2 & E2 & Hrest).
  unfold openai_create in E2. apply await_run in E2. cbv beta in E2.
  destruct E2 as [F2 R2].
  match type of R2 with
  | match ?x with _ => _ end => destruct x as [c0|e] eqn:Ec
  end; subst r2.
  2:{ destruct Hrest as [-> ->]. split; [discriminate|].
      eexists. split; [eapply frame_trans; eauto|].
      apply Forall_app. split; [exact Q1 | repeat constructor]. }
  destruct Hrest as (r3 & E3 & ->).
  assert (S2 : sessions st2 = sessions st).
  { destruct F1 as (A1 & _). destruct F2 as (A2 & _). congruence. }
  eapply (for_of_sound (processChoice w tools)
            (choice_run w (sessions st) tools) (sessions st)) in E3;
    [|intros x acc st0 r0 st0' Hs E0; rewrite <- Hs; eapply processChoice_sound; eauto
     |exact S2].
  destruct E3 as (h3 & F3 & R3).
  assert (Q3 : Forall query_event h3).
  { eapply loop_run_Forall; [|exact R3]. intros x acc r0 h0 H.
    apply (choice_run_events _ _ _ _ _ _ H). }
  assert (P3 : r3 <> Pending).
  { eapply loop_run_settles; [|exact R3]. intros x acc r0 h0 H.
    apply (choice_run_events _ _ _ _ _ _ H). }
  split; [destruct r3; [discriminate | discriminate | contradiction]|].
  eexists. split; [eapply frame_trans; [exact F1 | eapply frame_trans; eauto]|].
  apply Forall_app. split; [exact Q1|]. apply Forall_app. split; [|exact Q3].
  repeat constructor.
Qed.

End QueryShape.

(** X1.  A query never changes the registry: after [processQuery], however
    it ends, the sessions, the transports and the object counter are what
    they were, and the trace has only grown, by listings of tools,
    invocations of tools, requests to the model and progress lines; no
    connection is opened and no transport is closed. *)
Theorem X1_processQuery_keeps_the_registry (w : World) (query : string) (st : State) :
  let st' := snd (processQuery w query st) in
  sessions st' = sessions st /\ transports st' = transports st /\
  next_id st' = next_id st /\
  exists h, trace st' = trace st ++ h /\ Forall query_event h /\ closed h = [].
Proof.
  cbv zeta. destruct (processQuery w query st) as [r st'] eqn:E. cbn [snd].
  destruct (processQuery_frame w _ _ _ _ E) as (_ & h & (Hs & Ht & Hn & Hh) & Q).
  repeat (split; [assumption|]). exists h. split; [exact Hh|]. split; [exact Q|].
  clear - Q. induction Q as [|ev h Hev Q IH]; [reflexivity|].
  destruct ev; cbn in Hev |- *; try contradiction; exact IH.
Qed.

(** ** The catalog and the requests sent to the model *)

Lemma requests_app (h1 h2 : list Event) : requests (h1 ++ h2) = requests h1 ++ requests h2.
Proof. apply flat_map_app. Qed.

Lemma requests_listing (ss : list (string * Client)) (answers : list (list Tool)) :
  requests (listing ss answers) = [].
Proof.
  unfold listing. induction (combine ss answers) as [|p ps IH]; [reflexivity | exact IH].
Qed.

Lemma catalog_length (ss : list (string * Client)) :
  forall answers,
    List.length answers = List.length ss ->
    List.length (catalog ss answers) = list_sum (map (@List.length Tool) answers).
Proof.
  unfold catalog. induction ss as [|entry ss IH]; intros [|ts answers] Hl;
    try discriminate Hl; [reflexivity|].
  cbn [combine flat_map map list_sum fst snd]. rewrite length_app, length_map.
  rewrite IH; [reflexivity | now inversion Hl].
Qed.

Lemma loop_run_carries {A} (w : World) (query : string) (tools : list FunctionTool)
  (P : A -> Locals -> Outcome Locals -> list Event -> Prop) :
  (forall x acc r h, P x acc r h -> carries w query tools acc r h) ->
  forall xs acc r h, loop_run P xs acc r h -> carries w query tools acc r h.
Proof.
  intros HP xs acc r h R.
  induction R as [acc|x xs acc r h Hx Hn|x xs acc acc' h1 r h2 Hx R IH].
  - intros Hm. split; [intros req []|]. intros l' D. inversion D; subst. exact Hm.
  - eapply HP; eauto.
  - intros Hm. destruct (HP _ _ _ _ Hx Hm) as [Q1 M1].
    destruct (IH (M1 _ eq_refl)) as [Q2 M2]. split; [|exact M2].
    intros req Hin. rewrite requests_app in Hin. apply in_app_or in Hin.
    destruct Hin; auto.
Qed.

Section Catalog.
Variable w : World.

(** Step 1 of [processQuery]: when every session answers, the catalog is
    made of the answers in the order of the registry. *)
Lemma listing_run (ss : list (string * Client)) :
  forall acc st tools st1,
    for_of (listServerTools w) ss acc st = (Return tools, st1) ->
    exists answers,
      List.length answers = List.length ss /\
      tools = acc ++ catalog ss answers /\
      frame st st1 (listing ss answers).
Proof.
  induction ss as [|[serverName session] ss IH]; intros acc st tools st1 E.
  - inversion E; subst. exists []. split; [reflexivity|].
    split; [now rewrite app_nil_r | apply frame_refl].
  - cbn [for_of] in E. unfold bind at 1 in E.
    destruct (listServerTools w (serverName, session) acc st) as [r0 st0] eqn:E0.
    unfold listServerTools, bind in E0.
    destruct (client_listTools w session st) as [r1 st2] eqn:E1.
    unfold client_listTools in E1. apply await_run in E1. cbv beta in E1.
    destruct E1 as [F1 R1].
    destruct (Client_listTools w (trace st) session) as [ts|e]; subst r1;
      inversion E0; subst; [|discriminate E].
    destruct (IH _ _ _ _ E) as (answers & Hl & Ht & F).
    exists (ts :: answers). split; [cbn; now rewrite Hl|].
    split.
    + rewrite Ht. unfold catalog. cbn [combine flat_map fst snd].
      rewrite app_assoc. reflexivity.
    + apply (frame_trans _ _ _ _ _ F1 F).
Qed.

Lemma listServerTools_run (entry : string * Client) (acc : list FunctionTool)
  (st : State) (r : Outcome (list FunctionTool)) (st' : State) :
  listServerTools w entry acc st = (r, st') ->
  exists h, frame st st' h /\ requests h = [].
Proof.
  unfold listServerTools. destruct entry as [serverName session].
  unfold bind. destruct (client_listTools w session st) as [r1 st1] eqn:E1.
  unfold client_listTools in E1. apply await_run in E1. destruct E1 as [F1 _].
  destruct r1; intro E; inversion E; subst; eexists; (split; [exact F1 | reflexivity]).
Qed.

Lemma loop_run_no_requests {A L} (xs : list A) (acc : L) (r : Outcome L) (h : list Event) :
  loop_run (fun _ _ _ h => requests h = []) xs acc r h -> requests h = [].
Proof.
  intro R. induction R as [acc|x xs acc r h Hx Hn|x xs acc acc' h1 r h2 Hx R IH].
  - reflexivity.
  - exact Hx.
  - rewrite requests_app, Hx, IH. reflexivity.
Qed.

Lemma dispatch_carries (query : string) (availableTools : list FunctionTool)
  (tc : ToolCall) (l : Locals) (st : State) (r : Outcome Locals) (st' : State) :
  dispatch w availableTools tc l st = (r, st') ->
  exists h, frame st st' h /\ carries w query availableTools l r h.
Proof.
  assert (Hnone : forall (l' : Locals) rr,
             messages l' = messages l -> (forall x, rr = Return x -> x = l') ->
             carries w query availableTools l rr []).
  { intros l' rr Hm Hr Hq. split; [intros req []|].
    intros x D. rewrite (Hr _ D), Hm. exact Hq. }
  unfold dispatch.
  destruct (splitQualifiedName (tc_name tc)) as [serverName toolName].
  unfold bind at 1. unfold get_sessions.
  destruct (sessions_get serverName (sessions st)) as [session|].
  2:{ intro E. inversion E; subst. exists []. split; [apply frame_refl|].
      eapply Hnone; [|intros x D; inversion D; reflexivity]. reflexivity. }
  unfold bind at 1. unfold lift.
  destruct (JSON_parse w (tc_arguments tc)) as [toolArgs|e].
  2:{ intro E. inversion E; subst. exists []. split; [apply frame_refl|].
      apply (Hnone l); [reflexivity | intros x D; discriminate D]. }
  unfold ret at 1. unfold bind at 1.
  destruct (client_callTool w session toolName toolArgs st) as [r1 st1] eqn:E1.
  unfold client_callTool in E1. apply await_run in E1. cbv beta in E1.
  destruct E1 as [F1 R1].
  destruct (Client_callTool w (trace st) session toolName toolArgs) as [toolResult|e];
    subst r1.
  2:{ intro E. inversion E; subst. eexists. split; [exact F1|].
      intros Hq. split; [intros req []|]. intros x D; discriminate D. }
  unfold bind at 1. unfold console_log at 1, emit at 1. unfold bind at 1.
  match goal with
  | |- context [openai_create w ?req ?s2] =>
      destruct (openai_create w req s2) as [r3 st3] eqn:E3
  end.
  unfold openai_create in E3. apply await_run in E3. cbv beta in E3.
  cbn [trace] in E3. destruct E3 as [(S3 & T3 & N3 & H3) R3].
  cbn [sessions transports next_id trace] in S3, T3, N3, H3.
  destruct F1 as (S1 & T1 & N1 & H1).
  match type of R3 with
  | match ?x with _ => _ end => set (answer := x) in *
  end.
  assert (F : frame st st3
                [EvCallTool session toolName toolArgs (Ok toolResult);
                 EvConsoleLog [LogStr (LF ++ " -- toolResult.content -- " ++ LF)%string;
                               LogStr (result_content toolResult)];
                 EvCompletion
                   (completionRequest w
                      (messages l ++
                       [AssistantMessage EmptyString [tc];
                        ToolMessage (tc_id tc) (result_content toolResult)])
                      availableTools) answer]).
  { unfold frame. rewrite S3, T3, N3, H3, S1, T1, N1, H1, <- !app_assoc.
    repeat split; reflexivity. }
  assert (Hreq : (exists later, messages l = UserMessage query :: later) ->
                 forall req,
                   In req (requests
                             [EvCallTool session toolName toolArgs (Ok toolResult);
                              EvConsoleLog
                                [LogStr (LF ++ " -- toolResult.content -- " ++ LF)%string;
                                 LogStr (result_content toolResult)];
                              EvCompletion
                                (completionRequest w
                                   (messages l ++
                                    [AssistantMessage EmptyString [tc];
                                     ToolMessage (tc_id tc) (result_content toolResult)])
                                   availableTools) answer]) ->
                   well_formed_request w query availableTools req).
  { intros [later Hm] req [<-|[]]. unfold well_formed_request, completionRequest.
    cbn. rewrite Hm. repeat split. eexists. reflexivity. }
  assert (Hmsg : forall x : Locals,
             messages x = messages l ++
                          [AssistantMessage EmptyString [tc];
                           ToolMessage (tc_id tc) (result_content toolResult)] ->
             (exists later, messages l = UserMessage query :: later) ->
             exists later, messages x = UserMessage query :: later).
  { intros x Hx [later Hm]. rewrite Hx, Hm. eexists. reflexivity. }
  destruct answer as [next|e]; subst r3.
  2:{ intro E. inversion E; subst. eexists. split; [exact F|].
      intros Hq. split; [exact (Hreq Hq)|]. intros x D; discriminate D. }
  destruct (choices next) as [|first rest].
  { intro E. inversion E; subst. eexists. split; [exact F|].
    intros Hq. split; [exact (Hreq Hq)|]. intros x D; discriminate D. }
  destruct (msg_content (choice_message first)) as [content|];
    [destruct (truthy content)|];
    intro E; inversion E; subst; eexists; (split; [exact F|]);
    intros Hq; (split; [exact (Hreq Hq)|]); intros x D; inversion D; subst;
    (apply Hmsg; [reflexivity | exact Hq]).
Qed.

Lemma processChoice_carries (query : string) (availableTools : list FunctionTool)
  (choice : Choice) (l : Locals) (st : State) (r : Outcome Locals) (st' : State) :
  processChoice w availableTools choice l st = (r, st') ->
  exists h, frame st st' h /\ carries w query availableTools l r h.
Proof.
  unfold processChoice.
  set (l1 := match msg_content (choice_message choice) with
             | Some content => if truthy content then push_text content l else l
             | None => l
             end).
  assert (Hl1 : messages l1 = messages l).
  { unfold l1. destruct (msg_content (choice_message choice)) as [content|];
      [destruct (truthy content)|]; reflexivity. }
  destruct (msg_tool_calls (choice_message choice)) as [tool_calls|]; intro E.
  - eapply (for_of_sound (dispatch w availableTools)
              (fun _ => carries w query availableTools) (sessions st)) in E;
      [|intros x acc st0 r0 st0' _ E0; eapply dispatch_carries; eauto | reflexivity].
    destruct E as (h & F & R). exists h. split; [exact F|].
    apply (loop_run_carries w query availableTools _ (fun _ _ _ _ H => H)) in R.
    intros Hq. apply R. rewrite Hl1. exact Hq.
  - inversion E; subst. exists []. split; [apply frame_refl|].
    intros Hq. split; [intros req []|]. intros x D. inversion D; subst.
    rewrite Hl1. exact Hq.
Qed.

End Catalog.

(** X2.  Every request sent to the model during a query is well formed and
    carries one and the same catalog: whenever a request is sent, every
    session of the registry has answered the listing of its tools, in the
    order of the registry, before anything else; the catalog holds one
    entry per answered tool (its size is the sum of the providers' tool
    counts), built as "server__tool" with the description "[server] ..." ;
    and each request names the configured model, sets tool_choice to
    "auto", carries that catalog and has the user's query as its first
    message. *)
Theorem X2_every_request_carries_the_catalog (w : World) (query : string) (st : State) :
  let h := new_events st (snd (processQuery w query st)) in
  requests h = [] \/
  exists answers rest,
    List.length answers = List.length (sessions st) /\
    h = listing (sessions st) answers ++ rest /\
    List.length (catalog (sessions st) answers)
    = list_sum (map (@List.length Tool) answers) /\
    forall req,
      In req (requests h) ->
      well_formed_request w query (catalog (sessions st) answers) req.
Proof.
  cbv zeta. destruct (processQuery w query st) as [r st'] eqn:E. cbn [snd].
  apply processQuery_cases in E.
  destruct E as [(Hs & -> & ->)|(Hne & r1 & st1 & E1 & Hrest)].
  { left. rewrite (frame_new_events _ _ _ (frame_refl st)). reflexivity. }
  assert (Hquiet : requests (new_events st st1) = []).
  { eapply (for_of_sound (listServerTools w)
              (fun _ _ _ h => requests h = []) (sessions st)) in E1;
      [|intros x acc st0 r0 st0' _ E0; eapply listServerTools_run; eauto | reflexivity].
    destruct E1 as (h1 & F1 & R1). rewrite (frame_new_events _ _ _ F1).
    apply (loop_run_no_requests _ _ _ _ R1). }
  destruct r1 as [tools|e|];
    [|left; destruct Hrest as [-> ->]; exact Hquiet..].
  clear Hquiet. apply listing_run in E1. destruct E1 as (answers & Hl & Ht & F1).
  cbn [app] in Ht. subst tools.
  destruct Hrest as (r2 & st2 & E2 & Hrest).
  unfold openai_create in E2. apply await_run in E2. cbv beta in E2.
  destruct E2 as [F2 R2].
  match type of F2 with
  | frame _ _ [EvCompletion ?req ?x] => set (answer := x) in *; set (req0 := req) in *
  end.
  assert (W0 : well_formed_request w query (catalog (sessions st) answers) req0).
  { unfold well_formed_request, req0, completionRequest. cbn. repeat split.
    exists []. reflexivity. }
  right. exists answers.
  destruct answer as [c0|e]; subst r2.
  2:{ destruct Hrest as [-> ->]. exists [EvCompletion req0 (Err e)].
      split; [exact Hl|].
      split; [apply frame_new_events; eapply frame_trans; eauto|].
      split; [apply catalog_length; exact Hl|].
      rewrite (frame_new_events _ _ _ (frame_trans _ _ _ _ _ F1 F2)).
      rewrite requests_app, requests_listing. intros req [<-|[]]. exact W0. }
  destruct Hrest as (r3 & E3 & ->).
  eapply (for_of_sound (processChoice w (catalog (sessions st) answers))
            (fun _ => carries w query (catalog (sessions st) answers)) (sessions st)) in E3;
    [|intros x acc st0 r0 st0' _ E0; eapply processChoice_carries; eauto
     |destruct F1 as (A1 & _); destruct F2 as (A2 & _); congruence].
  destruct E3 as (h3 & F3 & R3).
  apply (loop_run_carries w query _ _ (fun _ _ _ _ H => H)) in R3.
  destruct (R3 (ex_intro _ [] eq_refl)) as [Q3 _].
  exists (EvCompletion req0 (Ok c0) :: h3).
  pose proof (frame_trans _ _ _ _ _ F1 (frame_trans _ _ _ _ _ F2 F3)) as F.
  split; [exact Hl|]. split; [apply frame_new_events; exact F|].
  split; [apply catalog_length; exact Hl|].
  rewrite (frame_new_events _ _ _ F).
  rewrite requests_app, requests_listing. cbn [app requests flat_map].
  intros req [<-|Hin]; [exact W0 | apply Q3; exact Hin].
Qed.

(** ** C1 (amended): what the model is sent *)







Section Conversation.
Variable w : World.
Variable ss : list (string * Client).
Variable tools : list FunctionTool.




End Conversation.

Section ConversationOfAQuery.
Variable w : World.





End ConversationOfAQuery.


(** ** A first turn without Call Requests *)

Lemma model_turns_listing (ss : list (string * Client)) (answers : list (list Tool)) :
  model_turns (listing ss answers) = [] /\ invocations (listing ss answers) = [].
Proof.
  unfold listing. induction (combine ss answers) as [|p ps IH]; [split; reflexivity | exact IH].
Qed.

Lemma turn_calls_nil (c : ChatCompletion) :
  turn_calls c = [] -> forall ch, In ch (choices c) -> choice_calls ch = [].
Proof.
  unfold turn_calls, choice_calls. induction (choices c) as [|ch0 chs IH]; intros H ch Hin.
  - destruct Hin.
  - cbn [flat_map] in H. apply app_eq_nil in H. destruct H as [H0 H1].
    destruct Hin as [<-|Hin]; [exact H0 | exact (IH H1 _ Hin)].
Qed.

Lemma choices_without_calls (w : World) (availableTools : list FunctionTool)
  (chs : list Choice) :
  (forall ch, In ch chs -> choice_calls ch = []) ->
  forall l st,
    for_of (processChoice w availableTools) chs l st
    = (Return {| messages := messages l;
                 finalText := finalText l ++ contents {| choices := chs |} |}, st).
Proof.
  unfold contents. cbn [choices].
  induction chs as [|ch chs IH]; intros Hall l st.
  - cbn. rewrite app_nil_r. destruct l; reflexivity.
  - cbn [for_of flat_map]. unfold bind.
    assert (E : processChoice w availableTools ch l st
                = (Return {| messages := messages l;
                             finalText := finalText l ++
                               match msg_content (choice_message ch) with
                               | Some content => if truthy content then [content] else []
                               | None => []
                               end |}, st)).
    { pose proof (Hall ch (or_introl eq_refl)) as Hc.
      unfold choice_calls in Hc. unfold processChoice.
      assert (El : match msg_content (choice_message ch) with
                   | Some content => if truthy content then push_text content l else l
                   | None => l
                   end
                   = {| messages := messages l;
                        finalText := finalText l ++
                          match msg_content (choice_message ch) with
                          | Some content => if truthy content then [content] else []
                          | None => []
                          end |}).
      { destruct (msg_content (choice_message ch)) as [content|];
          [destruct (truthy content)|]; cbn; rewrite ?app_nil_r;
          destruct l; reflexivity. }
      rewrite El.
      destruct (msg_tool_calls (choice_message ch)) as [tcs|]; [|reflexivity].
      subst tcs. reflexivity. }
    rewrite E. rewrite IH by (intros c Hin; apply Hall; right; exact Hin).
    cbn [messages finalText]. rewrite <- app_assoc. reflexivity.
Qed.

(** X3.  When the first model turn of a query asks for no tool, the query
    ends there: [processQuery] returns the non-empty contents of the
    choices of that turn, joined by line feeds; the model was asked exactly
    once and no provider tool was invoked. *)
Theorem X3_turn_without_requests_ends_the_query (w : World) (query : string)
  (st : State) (c0 : ChatCompletion) :
  let r := fst (processQuery w query st) in
  let h := new_events st (snd (processQuery w query st)) in
  hd_error (model_turns h) = Some c0 -> turn_calls c0 = [] ->
  r = Return (join LF (contents c0)) /\
  model_turns h = [c0] /\ invocations h = [] /\ List.length (requests h) = 1.
Proof.
  cbv zeta. destruct (processQuery w query st) as [r st'] eqn:E. cbn [fst snd].
  intros Hhd Hnone. apply processQuery_cases in E.
  destruct E as [(Hs & -> & ->)|(Hne & r1 & st1 & E1 & Hrest)].
  { rewrite (frame_new_events _ _ _ (frame_refl st)) in Hhd. discriminate Hhd. }
  assert (Hquiet : quiet (new_events st st1)).
  { eapply (for_of_sound (listServerTools w) (fun _ _ _ h => quiet h) (sessions st)) in E1;
      [|intros x acc st0 r0 st0' _ E0; eapply listServerTools_sound; eauto | reflexivity].
    destruct E1 as (h1 & F1 & R1). rewrite (frame_new_events _ _ _ F1).
    apply (listing_quiet _ _ _ _ R1). }
  destruct r1 as [tools|e|];
    [|destruct Hrest as [-> ->]; destruct Hquiet as [_ Hq];
      rewrite Hq in Hhd; discriminate Hhd..].
  clear Hquiet. apply listing_run in E1. destruct E1 as (answers & Hl & Ht & F1).
  destruct (model_turns_listing (sessions st) answers) as [Tl Il].
  destruct Hrest as (r2 & st2 & E2 & Hrest).
  unfold openai_create in E2. apply await_run in E2. cbv beta in E2.
  destruct E2 as [F2 R2].
  match type of F2 with
  | frame _ _ [EvCompletion ?req ?x] => set (answer := x) in *; set (req0 := req) in *
  end.
  pose proof (frame_trans _ _ _ _ _ F1 F2) as F12.
  destruct answer as [c1|e]; subst r2.
  2:{ destruct Hrest as [-> ->]. rewrite (frame_new_events _ _ _ F12) in Hhd.
      rewrite model_turns_app, Tl in Hhd. discriminate Hhd. }
  destruct Hrest as (r3 & E3 & ->).
  pose proof E3 as E3'.
  eapply (for_of_sound (processChoice w tools)
            (choice_run w (sessions st) tools) (sessions st)) in E3';
    [|intros x acc st0 r0 st0' Hs E0; rewrite <- Hs; eapply processChoice_sound; eauto
     |destruct F1 as (A1 & _); destruct F2 as (A2 & _); congruence].
  destruct E3' as (h3 & F3 & _).
  rewrite (frame_new_events _ _ _ (frame_trans _ _ _ _ _ F12 F3)) in Hhd.
  rewrite !model_turns_app, Tl in Hhd. cbn in Hhd. inversion Hhd; subst c1.
  rewrite (choices_without_calls w tools (choices c0) (turn_calls_nil c0 Hnone)) in E3.
  inversion E3; subst. cbn [outcome_map finalText app].
  rewrite (frame_new_events _ _ _ F12).
  rewrite !model_turns_app, !invocations_app, !requests_app, Tl, Il, requests_listing.
  destruct c0 as [chs]. repeat split; reflexivity.
Qed.

Lemma X3_turn_without_requests_ends_the_query_witness :
  let w := Scenario.failing_close in
  let st := Scenario.connected "alerts" in
  let c0 := Scenario.answer (Some "hello") None in
  let r := fst (processQuery w "hi" st) in
  let h := new_events st (snd (processQuery w "hi" st)) in
  r = Return (join LF (contents c0)) /\
  model_turns h = [c0] /\ invocations h = [] /\ List.length (requests h) = 1.
Proof.
  apply (X3_turn_without_requests_ends_the_query Scenario.failing_close "hi"
           (Scenario.connected "alerts") (Scenario.answer (Some "hello") None));
    reflexivity.
Defined.

(** ** The registry under connections *)

Lemma keys_set_congr {V W : Type} (k : string) (v : V) (v' : W)
  (m : list (string * V)) :
  forall m' : list (string * W),
    JsMap.keys m = JsMap.keys m' ->
    JsMap.keys (JsMap.set k v m) = JsMap.keys (JsMap.set k v' m').
Proof.
  induction m as [|[k0 v0] m IH]; intros [|[k1 v1] m'] H; try discriminate H.
  - reflexivity.
  - cbn in H. inversion H; subst k1. cbn.
    destruct (String.eqb k0 k); cbn; [congruence|].
    f_equal. apply IH. assumption.
Qed.

Lemma closed_query_events (h : list Event) : Forall query_event h -> closed h = [].
Proof.
  intro Q. induction Q as [|ev h Hev Q IH]; [reflexivity|].
  destruct ev; cbn in Hev |- *; try contradiction; exact IH.
Qed.

Lemma In_nil_closed (h : list Event) :
  closed h = [] -> forall t res, ~ In (EvClose t res) h.
Proof.
  intros Hc t res Hin.
  assert (Ht : In t (closed h)).
  { unfold closed. apply in_flat_map. exists (EvClose t res).
    split; [exact Hin | left; reflexivity]. }
  rewrite Hc in Ht. destruct Ht.
Qed.

Lemma closed_log (args : list LogArg) (h : list Event) :
  closed (EvConsoleLog args :: h) = closed h.
Proof. reflexivity. Qed.

Lemma console_app (h1 h2 : list Event) : console (h1 ++ h2) = console h1 ++ console h2.
Proof. apply filter_app. Qed.

Section Registry.
Variable w : World.

(** What [connectToServer] writes on the console: its line when it
    returns, nothing when it throws. *)
Lemma connectToServer_console (serverName : string) (st : State) (r : Outcome unit)
  (st' : State) :
  connectToServer w serverName st = (r, st') ->
  match r with
  | Return _ =>
      exists names,
        console (new_events st st')
        = [EvConsoleLog [LogStr (LF ++ "Connected to server '" ++ serverName
                                 ++ "' with tools:")%string;
                         LogStrs names]]
  | Throw _ => console (new_events st st') = []
  | Pending => False
  end.
Proof.
  unfold connectToServer.
  destruct (find (fun cfg => String.eqb (cfg_name cfg) serverName) (w_config w))
    as [serverConfig|].
  2:{ intro E. inversion E; subst.
      rewrite (frame_new_events _ _ _ (frame_refl st')). reflexivity. }
  unfold bind at 1.
  destruct (createTransport w serverName serverConfig st) as [r0 st0] eqn:E0.
  apply createTransport_run in E0.
  destruct E0 as [(e & -> & ->)|(kind & -> & ->)].
  { intro E. inversion E; subst.
    rewrite (frame_new_events _ _ _ (frame_refl st')). reflexivity. }
  unfold bind at 1. unfold new_Client at 1. unfold bind at 1, fresh_id at 1, ret at 1.
  cbn [next_id sessions transports trace].
  unfold bind at 1.
  match goal with
  | |- context [client_connect w ?c ?t ?s] =>
      destruct (client_connect w c t s) as [r1 st1] eqn:E1
  end.
  unfold client_connect in E1. apply await_run in E1. cbv beta in E1.
  cbn [trace] in E1. destruct E1 as [(_ & _ & _ & H1) R1].
  cbn [trace] in H1.
  match type of R1 with
  | match ?x with _ => _ end => destruct x as [[]|e]
  end; subst r1.
  2:{ intro E. inversion E; subst.
      rewrite (trace_new_events _ _ _ H1). reflexivity. }
  unfold bind at 1, get_sessions at 1. unfold bind at 1, put_sessions at 1.
  unfold bind at 1, get_transports at 1. unfold bind at 1, put_transports at 1.
  cbn [next_id sessions transports trace].
  unfold bind at 1.
  match goal with
  | |- context [client_listTools w ?c ?s] =>
      destruct (client_listTools w c s) as [r2 st2] eqn:E2
  end.
  unfold client_listTools in E2. apply await_run in E2. cbv beta in E2.
  destruct E2 as [(_ & _ & _ & H2) R2]. cbn [trace] in H2.
  match type of R2 with
  | match ?x with _ => _ end => destruct x as [tools|e]
  end; subst r2.
  - unfold console_log, emit. intro E. inversion E; subst. exists (map tool_name tools).
    erewrite trace_new_events;
      [|cbn [trace]; rewrite H2, H1, <- !app_assoc; reflexivity].
    reflexivity.
  - intro E. inversion E; subst.
    erewrite trace_new_events; [|rewrite H2, H1, <- !app_assoc; reflexivity].
    reflexivity.
Qed.

(** One round of the connection loop. *)
Lemma connectOne_effects (serverName : string) (st : State) :
  exists st' h,
    connectOne w serverName tt st = (Return tt, st') /\
    trace st' = trace st ++ h /\ closed h = [] /\
    (exists ev, console h = [ev] /\ report_of serverName ev) /\
    (registry_aligned st -> registry_aligned st').
Proof.
  unfold connectOne, try_catch.
  destruct (connectToServer w serverName st) as [r st1] eqn:E.
  pose proof (connectToServer_console _ _ _ _ E) as Hcon.
  destruct (connectToServer_run w _ _ _ _ E) as (h & Ht & (Hc & _) & Hcases).
  rewrite (trace_new_events _ _ _ Ht) in Hcon.
  assert (Hal : registry_aligned st -> registry_aligned st1).
  { unfold registry_aligned. intro Ha.
    destruct Hcases as [(_ & _ & Hs & Htr)|(t & _ & _ & _ & _ & Hs & Htr)].
    - rewrite Hs, Htr. exact Ha.
    - cbv zeta in Hs, Htr. rewrite Hs, Htr. apply keys_set_congr. exact Ha. }
  destruct r as [[]|e|]; [| |destruct Hcon].
  - destruct Hcon as [names Hn]. exists st1, h.
    split; [reflexivity|]. split; [exact Ht|]. split; [exact Hc|].
    split; [|exact Hal]. eexists. split; [exact Hn|]. left. eexists. reflexivity.
  - eexists. exists (h ++ [EvConsoleError
                             [LogStr ("Failed to connect to server '"
                                      ++ serverName ++ "':")%string;
                              LogErr e]]).
    split; [reflexivity|]. cbn [trace sessions transports].
    split; [rewrite Ht, app_assoc; reflexivity|].
    split; [rewrite closed_app, Hc; reflexivity|].
    split; [|exact Hal].
    eexists. split; [rewrite console_app, Hcon; reflexivity|].
    right. eexists. reflexivity.
Qed.

(** The connection loop as a whole. *)
Lemma connectAll_effects (openServers : list string) :
  forall st,
  exists st' h,
    connectAll w openServers st = (Return tt, st') /\
    trace st' = trace st ++ h /\ closed h = [] /\
    Forall2 report_of openServers (console h) /\
    (registry_aligned st -> registry_aligned st').
Proof.
  unfold connectAll.
  induction openServers as [|serverName rest IH]; intro st.
  - exists st, []. rewrite app_nil_r. repeat split; auto.
  - destruct (connectOne_effects serverName st)
      as (st1 & h1 & E1 & T1 & C1 & (ev & Hev & Hrep) & A1).
    destruct (IH st1) as (st2 & h2 & E2 & T2 & C2 & R2 & A2).
    exists st2, (h1 ++ h2). cbn [for_of]. unfold bind. rewrite E1, E2.
    split; [reflexivity|]. split; [rewrite T2, T1, app_assoc; reflexivity|].
    split; [rewrite closed_app, C1, C2; reflexivity|].
    split; [|auto].
    rewrite console_app, Hev. constructor; assumption.
Qed.

End Registry.


(** X5.  The two maps of the client stay aligned: when [sessions] and
    [transports] hold the same names in the same order, they still do
    after [connectToServer] (whether it returns or throws), after the
    connection loop, after [processQuery] and after [cleanup]. *)
Theorem X5_sessions_and_transports_stay_aligned (w : World) (st : State)
  (serverName : string) (openServers : list string) (query : string) :
  registry_aligned st ->
  registry_aligned (snd (connectToServer w serverName st)) /\
  registry_aligned (snd (connectAll w openServers st)) /\
  registry_aligned (snd (processQuery w query st)) /\
  registry_aligned (snd (cleanup w st)).
Proof.
  intro Ha. split; [|split; [|split]].
  - destruct (connectToServer w serverName st) as [r st'] eqn:E. cbn [snd].
    destruct (connectToServer_run w _ _ _ _ E) as (h & _ & _ & Hcases).
    unfold registry_aligned in *.
    destruct Hcases as [(_ & _ & Hs & Htr)|(t & _ & _ & _ & _ & Hs & Htr)].
    + rewrite Hs, Htr. exact Ha.
    + cbv zeta in Hs, Htr. rewrite Hs, Htr. apply keys_set_congr. exact Ha.
  - destruct (connectAll_effects w openServers st) as (st' & h & E & _ & _ & _ & A).
    rewrite E. exact (A Ha).
  - destruct (processQuery w query st) as [r st'] eqn:E. cbn [snd].
    destruct (processQuery_frame w _ _ _ _ E) as (_ & h & (Hs & Ht & _) & _).
    unfold registry_aligned in *. rewrite Hs, Ht. exact Ha.
  - rewrite cleanup_unfold.
    destruct (for_of (fun transport (_ : unit) => transport_close w transport)
                (JsMap.values (transports st)) tt st) as [r1 st1] eqn:E1.
    destruct (close_loop w _ _ _ _ E1) as (h & (Hs & Ht & _) & _).
    unfold registry_aligned in *.
    destruct r1 as [[]|e|]; cbn [snd sessions transports];
      [reflexivity | rewrite Hs, Ht; exact Ha..].
Qed.

Lemma X5_sessions_and_transports_stay_aligned_witness :
  let w := Scenario.failing_list in
  let st := Scenario.connected "alerts" in
  registry_aligned (snd (connectToServer w "geo" st)) /\
  registry_aligned (snd (connectAll w ["alerts"; "geo"] st)) /\
  registry_aligned (snd (processQuery w "weather?" st)) /\
  registry_aligned (snd (cleanup w st)).
Proof.
  apply (X5_sessions_and_transports_stay_aligned Scenario.failing_list
           (Scenario.connected "alerts") "geo" ["alerts"; "geo"] "weather?").
  reflexivity.
Defined.

(** ** The interactive loop *)

Lemma questions_app (h1 h2 : list Event) :
  questions (h1 ++ h2) = questions h1 ++ questions h2.
Proof. apply flat_map_app. Qed.

Lemma query_events_are_silent (h : list Event) :
  Forall query_event h -> questions h = [] /\ ~ In EvReadlineClose h.
Proof.
  intro Q. induction Q as [|ev h Hev Q [IHq IHc]]; [split; [reflexivity | intros []]|].
  destruct ev; cbn in Hev; try contradiction;
    (split; [exact IHq | intros [D|D]; [discriminate D | exact (IHc D)]]).
Qed.

Section ChatLoop.
Variable w : World.

(** One line of input that is not the exit word: the query is processed,
    its answer or its error is printed, and the registry is untouched. *)
Lemma chat_round (query : string) (st : State) :
  exists st' h,
    try_catch
      (response <- processQuery w query ;; console_log [LogStr (LF ++ response)%string])
      (fun error => console_error [LogStr (LF ++ "Error:")%string; LogErr error]) st
    = (Return tt, st') /\
    frame st st' h /\ questions h = [] /\ ~ In EvReadlineClose h /\ closed h = [].
Proof.
  unfold try_catch, bind.
  destruct (processQuery w query st) as [r st1] eqn:E.
  destruct (processQuery_frame w _ _ _ _ E) as (Hp & h & F & Q).
  destruct (query_events_are_silent _ Q) as [Hq Hc].
  pose proof (closed_query_events _ Q) as Hcl.
  destruct r as [response|e|]; [| |contradiction].
  - destruct (emit_run (EvConsoleLog [LogStr (LF ++ response)%string]) st1)
      as (st2 & E2 & F2).
    unfold console_log. rewrite E2. exists st2, (h ++ [EvConsoleLog [LogStr (LF ++ response)%string]]).
    split; [reflexivity|]. split; [eapply frame_trans; eauto|].
    rewrite questions_app, closed_app, Hq, Hcl. repeat split; auto.
    intro Hin. apply in_app_or in Hin. destruct Hin as [Hin|[D|[]]];
      [exact (Hc Hin) | discriminate D].
  - destruct (emit_run (EvConsoleError [LogStr (LF ++ "Error:")%string; LogErr e]) st1)
      as (st2 & E2 & F2).
    unfold console_error. rewrite E2.
    exists st2, (h ++ [EvConsoleError [LogStr (LF ++ "Error:")%string; LogErr e]]).
    split; [reflexivity|]. split; [eapply frame_trans; eauto|].
    rewrite questions_app, closed_app, Hq, Hcl. repeat split; auto.
    intro Hin. apply in_app_or in Hin. destruct Hin as [Hin|[D|[]]];
      [exact (Hc Hin) | discriminate D].
Qed.

(** The [while (true)] of [chatLoop]. *)
Lemma chatLoop_while_run (lines : list string) :
  forall st,
  exists r st' h,
    chatLoop_while w lines st = (r, st') /\
    frame st st' h /\
    questions h = fst (read_until_quit w lines) /\
    r = (if snd (read_until_quit w lines) then Return tt
         else if readline_closed w then Throw ERR_USE_AFTER_CLOSE else Pending) /\
    ~ In EvReadlineClose h /\ closed h = [].
Proof.
  induction lines as [|line rest IH]; intro st.
  - exists (if readline_closed w then Throw ERR_USE_AFTER_CLOSE else Pending), st, [].
    split; [cbn [chatLoop_while]; unfold unanswered; destruct (readline_closed w); reflexivity|].
    split; [apply frame_refl|].
    repeat split; auto.
  - cbn [chatLoop_while read_until_quit]. unfold bind at 1.
    destruct (emit_run (EvQuestion (LF ++ "Query: ")%string line) st) as (st1 & E1 & F1).
    rewrite E1. fold (is_quit w line).
    destruct (is_quit w line) eqn:Hq.
    + exists (Return tt), st1, [EvQuestion (LF ++ "Query: ")%string line].
      split; [reflexivity|]. split; [exact F1|].
      repeat split; auto.
      intros [D|[]]. discriminate D.
    + unfold bind at 1.
      destruct (chat_round (String_trim w line) st1)
        as (st2 & h2 & E2 & F2 & Q2 & C2 & L2).
      rewrite E2.
      destruct (IH st2) as (r & st3 & h3 & E3 & F3 & Q3 & R3 & C3 & L3).
      rewrite E3.
      destruct (read_until_quit w rest) as [read found]. cbn [fst snd] in *.
      exists r, st3, ([EvQuestion (LF ++ "Query: ")%string line] ++ h2 ++ h3).
      split; [reflexivity|].
      split; [eapply frame_trans; [exact F1 | eapply frame_trans; eauto]|].
      rewrite !questions_app, !closed_app, Q2, Q3, L2, L3.
      repeat split; auto.
      intro Hin. apply in_app_or in Hin. destruct Hin as [[D|[]]|Hin];
        [discriminate D|].
      apply in_app_or in Hin. tauto.
Qed.

(** [chatLoop] as a whole. *)
Lemma chatLoop_run (st : State) :
  exists r st' h,
    chatLoop w st = (r, st') /\
    frame st st' (EvConsoleLog [LogStr (LF ++ "MCP Client Started!")%string] :: h) /\
    questions h = fst (read_until_quit w (readline_answers w)) /\
    r = chat_outcome w /\
    (In EvReadlineClose h <-> r <> Pending) /\
    closed h = [].
Proof.
  unfold chatLoop. unfold bind at 1.
  destruct (emit_run (EvConsoleLog [LogStr (LF ++ "MCP Client Started!")%string]) st)
    as (st1 & E1 & F1).
  unfold console_log at 1. rewrite E1. unfold bind at 1.
  destruct (emit_run (EvConsoleLog [LogStr "Type your queries or 'quit' to exit."]) st1)
    as (st2 & E2 & F2).
  unfold console_log at 1. rewrite E2. unfold try_finally.
  destruct (chatLoop_while_run (readline_answers w) st2)
    as (r & st3 & h3 & E3 & F3 & Q3 & R3 & C3 & L3).
  rewrite E3.
  fold (chat_outcome w) in R3.
  assert (Hclosing : forall r0 : Outcome unit,
             r = r0 -> r0 <> Pending ->
             exists r' st' h,
               match emit EvReadlineClose st3 with
               | (Return _, st'') => (r0, st'')
               | (Throw e', st'') => (Throw e', st'')
               | (Pending, st'') => (Pending, st'')
               end = (r', st') /\
               frame st st' (EvConsoleLog [LogStr (LF ++ "MCP Client Started!")%string] :: h) /\
               questions h = fst (read_until_quit w (readline_answers w)) /\
               r' = chat_outcome w /\
               (In EvReadlineClose h <-> r' <> Pending) /\
               closed h = []).
  { intros r0 Hr0 Hnp.
    destruct (emit_run EvReadlineClose st3) as (st4 & E4 & F4). rewrite E4.
    exists r0, st4,
      ([EvConsoleLog [LogStr "Type your queries or 'quit' to exit."]]
       ++ h3 ++ [EvReadlineClose]).
    split; [reflexivity|].
    split; [apply (frame_trans _ _ _ _ _ F1
                     (frame_trans _ _ _ _ _ F2 (frame_trans _ _ _ _ _ F3 F4)))|].
    rewrite !questions_app, !closed_app, Q3, L3. cbn [questions closed flat_map app].
    rewrite !app_nil_r. split; [reflexivity|]. split; [congruence|].
    split; [|reflexivity]. split; [intros _; exact Hnp|].
    intros _. right. apply in_or_app. right. left. reflexivity. }
  destruct r as [[]|e|].
  - apply Hclosing; [reflexivity | discriminate].
  - apply Hclosing; [reflexivity | discriminate].
  - exists Pending, st3,
      ([EvConsoleLog [LogStr "Type your queries or 'quit' to exit."]] ++ h3).
    split; [reflexivity|].
    split; [apply (frame_trans _ _ _ _ _ F1 (frame_trans _ _ _ _ _ F2 F3))|].
    rewrite !questions_app, !closed_app, Q3, L3. cbn [questions closed flat_map app].
    split; [reflexivity|]. split; [exact R3|]. split; [|reflexivity].
    split; [|intro D; contradiction].
    intros [D|Hin]; [discriminate D | destruct (C3 Hin)].
Qed.

End ChatLoop.

(** X6.  The questions of [chatLoop] are answered by the lines that
    readline has for them, up to and including the first one that, trimmed
    and lowercased, is "quit".
    A query that fails never ends it: the failure is reported and the next
    question is asked.  With such a line it returns.  Without one it ends
    at the question that follows the last line: it rejects with
    ERR_USE_AFTER_CLOSE when the interface is closed by then, and stays
    pending when that question is never answered.  The readline interface
    is closed by [chatLoop] exactly when it does not stay pending.  It
    changes nothing in the registry and closes no transport. *)
Theorem X6_chatLoop_reads_until_quit (w : World) (st : State) :
  let r := fst (chatLoop w st) in
  let st' := snd (chatLoop w st) in
  let h := new_events st st' in
  questions h = fst (read_until_quit w (readline_answers w)) /\
  r = (if snd (read_until_quit w (readline_answers w)) then Return tt
       else if readline_closed w then Throw ERR_USE_AFTER_CLOSE else Pending) /\
  (In EvReadlineClose h <->
   snd (read_until_quit w (readline_answers w)) = true \/ readline_closed w = true) /\
  sessions st' = sessions st /\ transports st' = transports st /\ closed h = [].
Proof.
  cbv zeta. destruct (chatLoop_run w st) as (r & st' & h & E & F & Q & R & C & L).
  rewrite E. cbn [fst snd]. rewrite (frame_new_events _ _ _ F).
  destruct F as (Hs & Ht & _).
  cbn [questions closed flat_map app].
  split; [exact Q|]. split; [exact R|]. split; [|auto].
  assert (Hnp : r <> Pending <->
                snd (read_until_quit w (readline_answers w)) = true \/ readline_closed w = true).
  { subst r. unfold chat_outcome.
    destruct (snd (read_until_quit w (readline_answers w))); [split; [auto | discriminate]|].
    destruct (readline_closed w); [split; [auto | discriminate]|].
    split; [intro D; contradiction | intros [D|D]; discriminate D]. }
  split.
  - intros [D|Hin]; [discriminate D | apply Hnp, C; exact Hin].
  - intro H. right. apply C, Hnp. exact H.
Qed.

(** When the input ends after the line "hi", the second question finds
    the interface closed: [chatLoop] rejects, and so does [main], after
    [cleanup] has closed the transport and cleared the maps. *)
Example the_input_ends_before_quit :
  fst (chatLoop Scenario.piped (Scenario.connected "alerts")) = Throw ERR_USE_AFTER_CLOSE /\
  questions (trace (snd (chatLoop Scenario.piped (Scenario.connected "alerts")))) = ["hi"] /\
  fst (main Scenario.piped initial_state) = Throw ERR_USE_AFTER_CLOSE /\
  List.length (closed (trace (snd (main Scenario.piped initial_state)))) = 1 /\
  sessions (snd (main Scenario.piped initial_state)) = [].
Proof. vm_compute. repeat split; reflexivity. Qed.

(** ** The whole run *)

Section WholeRun.
Variable w : World.

(** The loop of [cleanup] leaves only close events. *)
Lemma close_loop_only_closes (ts : list Transport) :
  forall st r st',
    for_of (fun transport (_ : unit) => transport_close w transport) ts tt st = (r, st') ->
    Forall (fun ev => exists t res, ev = EvClose t res) (new_events st st').
Proof.
  induction ts as [|t ts IH]; intros st r st' E.
  - inversion E; subst. rewrite (frame_new_events _ _ _ (frame_refl st')). constructor.
  - cbn [for_of] in E. unfold bind in E.
    destruct (transport_close w t st) as [r1 st1] eqn:E1.
    unfold transport_close in E1. apply await_run in E1. cbv beta in E1.
    destruct E1 as [F1 R1].
    assert (H1 : Forall (fun ev => exists t res, ev = EvClose t res)
                   [EvClose t (Transport_close w (trace st) t)]).
    { constructor; [eauto | constructor]. }
    destruct (Transport_close w (trace st) t) as [[]|e]; subst r1.
    + pose proof (IH _ _ _ E) as H2.
      destruct (close_loop w _ _ _ _ E) as (h2 & F2 & _).
      rewrite (frame_new_events _ _ _ F2) in H2.
      rewrite (frame_new_events _ _ _ (frame_trans _ _ _ _ _ F1 F2)).
      apply Forall_app. split; assumption.
    + inversion E; subst. rewrite (frame_new_events _ _ _ F1). exact H1.
Qed.

(** [cleanup], with what it leaves on the trace. *)
Lemma cleanup_run (st : State) :
  exists r st' h,
    cleanup w st = (r, st') /\ trace st' = trace st ++ h /\
    Forall (fun ev => exists t res, ev = EvClose t res) h /\
    ((r = Return tt /\ closed h = JsMap.values (transports st) /\
      (forall t res, In (EvClose t res) h -> res = Ok tt) /\
      sessions st' = [] /\ transports st' = []) \/
     (exists e pre t post,
        r = Throw e /\ JsMap.values (transports st) = pre ++ t :: post /\
        closed h = pre ++ [t] /\ In (EvClose t (Err e)) h)).
Proof.
  rewrite cleanup_unfold.
  destruct (for_of (fun transport (_ : unit) => transport_close w transport)
              (JsMap.values (transports st)) tt st) as [r1 st1] eqn:E1.
  pose proof (close_loop_only_closes _ _ _ _ E1) as Hev.
  destruct (close_loop w _ _ _ _ E1) as (h & F & Hcases).
  rewrite (frame_new_events _ _ _ F) in Hev.
  destruct F as (_ & _ & _ & Fh).
  destruct Hcases as [(Hr & Hc & Hok)|(e & pre & t & post & Hr & Hts & Hc & Hin)];
    subst r1.
  - eexists _, _, h. split; [reflexivity|]. cbn [trace sessions transports].
    split; [exact Fh|]. split; [exact Hev|]. left. repeat split; auto.
  - eexists _, _, h. split; [reflexivity|].
    split; [exact Fh|]. split; [exact Hev|]. right. exists e, pre, t, post. auto.
Qed.

Lemma not_entered_closes (h : list Event) :
  Forall (fun ev => exists t res, ev = EvClose t res) h -> ~ entered_chatLoop h.
Proof.
  unfold entered_chatLoop. intros Hall Hin. rewrite Forall_forall in Hall.
  destruct (Hall _ Hin) as (t & res & D). discriminate D.
Qed.

End WholeRun.

(** X7.  [main] releases what it acquired on every exit.  When the
    connection loop leaves no session, [main] throws
    "Failed to connect to any server" without entering the conversation
    loop; otherwise it enters the loop and ends as the loop does: it
    returns once "quit" is read, and rejects with ERR_USE_AFTER_CLOSE when
    the interface is closed at a question.  In each of these cases
    [cleanup] then closes every registered transport once, in the order of
    registration, and clears both maps, unless a close fails: then [main]
    rejects with that failure and the later transports stay open.  The
    only run in which nothing is closed is the one that stays pending
    because a question is never answered. *)
Theorem X7_main_cleans_up_on_every_exit (w : World) (st : State) :
  let r := fst (main w st) in
  let st' := snd (main w st) in
  let h := new_events st st' in
  let st1 := after_connecting w st in
  (r = Pending /\ sessions st1 <> [] /\
   snd (read_until_quit w (readline_answers w)) = false /\ readline_closed w = false /\
   closed h = []) \/
  (((sessions st1 = [] /\ r = Throw "Failed to connect to any server" /\
     ~ entered_chatLoop h) \/
    (sessions st1 <> [] /\ entered_chatLoop h /\
     ((r = Return tt /\ snd (read_until_quit w (readline_answers w)) = true) \/
      (r = Throw ERR_USE_AFTER_CLOSE /\
       snd (read_until_quit w (readline_answers w)) = false /\ readline_closed w = true)))) /\
   closed h = JsMap.values (transports st1) /\
   (forall t res, In (EvClose t res) h -> res = Ok tt) /\
   sessions st' = [] /\ transports st' = []) \/
  (exists e pre t post,
     r = Throw e /\ JsMap.values (transports st1) = pre ++ t :: post /\
     closed h = pre ++ [t] /\ In (EvClose t (Err e)) h).
Proof.
  cbv zeta. unfold after_connecting.
  set (log0 := [LogStr "Connecting to servers:"; LogStr (join ", " (getOpenServers w))]).
  set (st0 := snd (console_log log0 st)).
  assert (T0 : trace st0 = trace st ++ [EvConsoleLog log0]) by reflexivity.
  destruct (connectAll_effects w (getOpenServers w) st0)
    as (st1 & hc & Ec & Tc & Cc & _ & _).
  assert (Nc : ~ entered_chatLoop hc).
  { destruct (connectAll_run w (getOpenServers w) st0) as (st1' & hc' & Ec' & Tc' & Nc & _).
    rewrite Ec in Ec'. inversion Ec'; subst st1'. rewrite Tc in Tc'.
    apply app_inv_head in Tc'. subst hc'. exact Nc. }
  assert (N0 : ~ entered_chatLoop [EvConsoleLog log0]).
  { intros [D|[]]. discriminate D. }
  rewrite Ec. cbn [snd].
  destruct (main w st) as [r st'] eqn:Em. cbn [fst snd].
  assert (Em' : try_finally
                  (connectAll w (getOpenServers w) ;;;
                   active <- hasActiveSessions ;;
                   if negb active then throw "Failed to connect to any server"
                   else chatLoop w)
                  (cleanup w) st0 = (r, st')) by exact Em.
  clear Em. unfold try_finally in Em'. unfold bind at 1 in Em'. rewrite Ec in Em'.
  unfold bind at 1, hasActiveSessions at 1 in Em'.
  unfold bind at 1, get_sessions at 1, ret at 1 in Em'.
  destruct (sessions st1) as [|entry ss] eqn:Hs1.
  - cbn [JsMap.size List.length Nat.ltb Nat.leb negb] in Em'. unfold throw at 1 in Em'.
    destruct (cleanup_run w st1) as (r2 & st2 & h2 & E2 & T2 & Ev2 & Hcases).
    rewrite E2 in Em'.
    assert (Th : new_events st st2 = [EvConsoleLog log0] ++ hc ++ h2).
    { apply trace_new_events. rewrite T2, Tc, T0, <- !app_assoc. reflexivity. }
    assert (Ch : closed ([EvConsoleLog log0] ++ hc ++ h2) = closed h2).
    { rewrite !closed_app, Cc. reflexivity. }
    destruct Hcases as [(-> & Hc & Hok & Hs & Ht)|(e & pre & t & post & -> & Hts & Hc & Hin)];
      inversion Em'; subst r st'; rewrite Th, Ch.
    + right. left. split.
      * left. split; [reflexivity|]. split; [reflexivity|].
        apply not_entered_app; [exact N0|].
        apply not_entered_app; [exact Nc | apply not_entered_closes; exact Ev2].
      * split; [exact Hc|]. split; [|auto].
        intros t res Hin. apply in_app_or in Hin. destruct Hin as [[D|[]]|Hin];
          [discriminate D|].
        apply in_app_or in Hin. destruct Hin as [Hin|Hin]; [|eauto].
        exfalso. apply (In_nil_closed hc Cc t res Hin).
    + right. right. exists e, pre, t, post. repeat split; auto.
      apply in_or_app. right. apply in_or_app. right. exact Hin.
  - cbn [JsMap.size List.length Nat.ltb Nat.leb negb] in Em'.
    destruct (chatLoop_run w st1) as (r2 & st2 & h2 & E2 & F2 & _ & R2 & _ & L2).
    rewrite E2 in Em'. destruct F2 as (S2 & Tr2 & _ & T2).
    assert (Hout : (r2 = Return tt /\ snd (read_until_quit w (readline_answers w)) = true) \/
                   (r2 = Throw ERR_USE_AFTER_CLOSE /\
                    snd (read_until_quit w (readline_answers w)) = false /\
                    readline_closed w = true) \/
                   (r2 = Pending /\ snd (read_until_quit w (readline_answers w)) = false /\
                    readline_closed w = false)).
    { subst r2. unfold chat_outcome.
      destruct (snd (read_until_quit w (readline_answers w))); [auto|].
      destruct (readline_closed w); auto. }
    destruct Hout as [(-> & Hfound)|[(-> & Hfound & Hclosed)|(-> & Hfound & Hclosed)]].
    + destruct (cleanup_run w st2) as (r3 & st3 & h3 & E3 & T3 & Ev3 & Hcases).
      rewrite E3 in Em'.
      assert (Th : new_events st st3
                   = [EvConsoleLog log0] ++ hc
                     ++ (EvConsoleLog [LogStr (LF ++ "MCP Client Started!")%string] :: h2)
                     ++ h3).
      { apply trace_new_events. rewrite T3, T2, Tc, T0, <- !app_assoc. reflexivity. }
      assert (Ch : closed ([EvConsoleLog log0] ++ hc
                           ++ (EvConsoleLog [LogStr (LF ++ "MCP Client Started!")%string]
                               :: h2) ++ h3) = closed h3).
      { rewrite !closed_app, Cc, !closed_log, L2. reflexivity. }
      assert (Hen : entered_chatLoop
                      ([EvConsoleLog log0] ++ hc
                       ++ (EvConsoleLog [LogStr (LF ++ "MCP Client Started!")%string]
                           :: h2) ++ h3)).
      { unfold entered_chatLoop. apply in_or_app. right. apply in_or_app. right.
        left. reflexivity. }
      rewrite Tr2 in Hcases.
      destruct Hcases as [(-> & Hc & Hok & Hs & Ht)|(e & pre & t & post & -> & Hts & Hc & Hin)];
        inversion Em'; subst r st'; rewrite Th, Ch.
      * right. left. split.
        -- right. split; [discriminate|]. auto.
        -- split; [exact Hc|]. split; [|auto].
           intros t res Hin. apply in_app_or in Hin. destruct Hin as [[D|[]]|Hin];
             [discriminate D|].
           apply in_app_or in Hin. destruct Hin as [Hin|Hin];
             [exfalso; apply (In_nil_closed hc Cc t res Hin)|].
           apply in_app_or in Hin. destruct Hin as [[D|Hin]|Hin];
             [discriminate D | exfalso; apply (In_nil_closed h2 L2 t res Hin) | eauto].
      * right. right. exists e, pre, t, post. repeat split; auto.
        apply in_or_app. right. apply in_or_app. right.
        apply in_or_app. right. exact Hin.
    + destruct (cleanup_run w st2) as (r3 & st3 & h3 & E3 & T3 & Ev3 & Hcases).
      rewrite E3 in Em'.
      assert (Th : new_events st st3
                   = [EvConsoleLog log0] ++ hc
                     ++ (EvConsoleLog [LogStr (LF ++ "MCP Client Started!")%string] :: h2)
                     ++ h3).
      { apply trace_new_events. rewrite T3, T2, Tc, T0, <- !app_assoc. reflexivity. }
      assert (Ch : closed ([EvConsoleLog log0] ++ hc
                           ++ (EvConsoleLog [LogStr (LF ++ "MCP Client Started!")%string]
                               :: h2) ++ h3) = closed h3).
      { rewrite !closed_app, Cc, !closed_log, L2. reflexivity. }
      assert (Hen : entered_chatLoop
                      ([EvConsoleLog log0] ++ hc
                       ++ (EvConsoleLog [LogStr (LF ++ "MCP Client Started!")%string]
                           :: h2) ++ h3)).
      { unfold entered_chatLoop. apply in_or_app. right. apply in_or_app. right.
        left. reflexivity. }
      rewrite Tr2 in Hcases.
      destruct Hcases as [(-> & Hc & Hok & Hs & Ht)|(e & pre & t & post & -> & Hts & Hc & Hin)];
        inversion Em'; subst r st'; rewrite Th, Ch.
      * right. left. split.
        -- right. split; [discriminate|]. auto.
        -- split; [exact Hc|]. split; [|auto].
           intros t res Hin. apply in_app_or in Hin. destruct Hin as [[D|[]]|Hin];
             [discriminate D|].
           apply in_app_or in Hin. destruct Hin as [Hin|Hin];
             [exfalso; apply (In_nil_closed hc Cc t res Hin)|].
           apply in_app_or in Hin. destruct Hin as [[D|Hin]|Hin];
             [discriminate D | exfalso; apply (In_nil_closed h2 L2 t res Hin) | eauto].
      * right. right. exists e, pre, t, post. repeat split; auto.
        apply in_or_app. right. apply in_or_app. right.
        apply in_or_app. right. exact Hin.
    + inversion Em'; subst r st'. left. split; [reflexivity|]. split; [discriminate|].
      split; [exact Hfound|]. split; [exact Hclosed|].
      erewrite trace_new_events; [|rewrite T2, Tc, T0, <- !app_assoc; reflexivity].
      rewrite !closed_app, Cc, !closed_log, L2. reflexivity.
Qed.

(** ** Command lines, configurations and arguments *)

(** The first piece of a split at spaces holds no space and is the
    beginning of the text. *)
Lemma split_space_head (s : string) :
  forall cur,
  exists x tl,
    split_from " " 0 cur s = (cur ++ x)%string :: tl /\
    includes " " x = false /\ startsWith x s = true.
Proof.
  induction s as [|a s IH]; intro cur.
  - exists EmptyString, []. rewrite append_nil_r. repeat split.
  - cbn [split_from].
    destruct (startsWith " " (String a s)) eqn:Hs.
    + exists EmptyString. eexists. rewrite append_nil_r. repeat split.
    + destruct (IH (cur ++ String a EmptyString)%string) as (x & tl & E & Hi & Hp).
      exists (String a x), tl. rewrite E. rewrite append_assoc.
      split; [reflexivity|]. split.
      * cbn [includes startsWith] in Hs |- *. rewrite Hi.
        destruct (Ascii.eqb " " a); [discriminate Hs | reflexivity].
      * cbn [startsWith]. rewrite Ascii.eqb_refl, Hp. reflexivity.
Qed.

(** X8.  [createCommandTransport] takes as command the text of the command
    line before its first space.  A command line that is empty or starts
    with a space has no command: the call throws "Invalid shell command"
    and allocates nothing.  Every other command line yields one new stdio
    transport whose command is not empty, holds no space and is the
    beginning of the command line, and whose environment holds exactly the
    defined variables of the process. *)
Theorem X8_createCommandTransport_needs_a_command (w : World) (shell : string)
  (st : State) :
  (shell = EmptyString \/ startsWith " " shell = true ->
   createCommandTransport w shell st = (Throw "Invalid shell command", st)) /\
  (shell <> EmptyString -> startsWith " " shell = false ->
   exists command args,
     createCommandTransport w shell st
     = (Return {| transport_id := next_id st;
                  transport_kind :=
                    StdioClientTransport
                      {| sp_command := command; sp_args := args;
                         sp_env := flat_map (fun kv => match snd kv with
                                                       | Some v => [(fst kv, v)]
                                                       | None => []
                                                       end) (process_env w) |} |},
        {| sessions := sessions st; transports := transports st;
           trace := trace st; next_id := S (next_id st) |}) /\
     truthy command = true /\ includes " " command = false /\
     startsWith command shell = true).
Proof.
  split.
  - intros [->|Hs]; [reflexivity|].
    destruct shell as [|a s]; [discriminate Hs|].
    unfold createCommandTransport, split. cbn [split_from]. rewrite Hs. reflexivity.
  - intros Hne Hs. destruct shell as [|a s]; [contradiction|].
    unfold createCommandTransport, split. cbn [split_from]. rewrite Hs.
    destruct (split_space_head s (String a EmptyString)) as (x & tl & E & Hi & Hp).
    cbn [append] in E |- *. rewrite E.
    assert (Ha : Ascii.eqb " " a = false).
    { cbn [startsWith] in Hs. destruct (Ascii.eqb " " a); [discriminate Hs | reflexivity]. }
    exists (String a x), (map (expandTilde w) tl).
    split; [reflexivity|]. split; [reflexivity|]. split.
    + cbn [includes startsWith]. rewrite Ha, Hi. reflexivity.
    + cbn [startsWith]. rewrite Ascii.eqb_refl, Hp. reflexivity.
Qed.

Lemma X8_createCommandTransport_needs_a_command_witness :
  let w := Scenario.chained in
  (createCommandTransport w " tsx server.ts" initial_state
   = (Throw "Invalid shell command", initial_state)) /\
  (exists command args,
     createCommandTransport w "tsx ~/server.ts" initial_state
     = (Return {| transport_id := 0;
                  transport_kind :=
                    StdioClientTransport
                      {| sp_command := command; sp_args := args;
                         sp_env := [("PATH", "/usr/bin")] |} |},
        {| sessions := []; transports := []; trace := []; next_id := 1 |}) /\
     truthy command = true /\ includes " " command = false /\
     startsWith command "tsx ~/server.ts" = true).
Proof.
  split.
  - apply (X8_createCommandTransport_needs_a_command Scenario.chained
             " tsx server.ts" initial_state). right. reflexivity.
  - apply (X8_createCommandTransport_needs_a_command Scenario.chained
             "tsx ~/server.ts" initial_state); [discriminate | reflexivity].
Defined.

(** X9.  [connectToServer] looks the configuration up by name.  For a
    name that no configuration carries it throws
    "Server configuration not found for: <name>" and leaves the client as
    it was: nothing is allocated, contacted or registered.  [main] never
    meets that error, because such a name is not among the open
    servers. *)
Theorem X9_unknown_server_name (w : World) (serverName : string) (st : State) :
  (forall cfg, In cfg (w_config w) -> cfg_name cfg <> serverName) ->
  connectToServer w serverName st
  = (Throw ("Server configuration not found for: " ++ serverName)%string, st) /\
  ~ In serverName (getOpenServers w).
Proof.
  intro Hnone. split.
  - unfold connectToServer.
    destruct (find (fun cfg => String.eqb (cfg_name cfg) serverName) (w_config w))
      as [cfg|] eqn:Ef; [|reflexivity].
    apply find_some in Ef. destruct Ef as [Hin Heq].
    apply String.eqb_eq in Heq. destruct (Hnone _ Hin Heq).
  - unfold getOpenServers. intro Hin. apply in_map_iff in Hin.
    destruct Hin as (cfg & Hname & Hf). apply filter_In in Hf.
    destruct Hf as [Hin _]. exact (Hnone _ Hin Hname).
Qed.

Lemma X9_unknown_server_name_witness :
  connectToServer Scenario.chained "geo" (Scenario.connected "alerts")
  = (Throw "Server configuration not found for: geo", Scenario.connected "alerts") /\
  ~ In "geo" (getOpenServers Scenario.chained).
Proof.
  apply (X9_unknown_server_name Scenario.chained "geo" (Scenario.connected "alerts")).
  intros cfg [<-|[]]. discriminate.
Defined.

(** X10.  A Call Request that is routed to a registered session but whose
    arguments are not valid JSON aborts the query before the provider is
    contacted: in a turn with the requests [pre ++ tc :: post], the loop
    runs the requests of [pre] and then throws the error of [JSON.parse];
    nothing is added for [tc], and the requests of [post] are not
    processed. *)
Theorem X10_unparsable_arguments_abort_the_query (w : World)
  (availableTools : list FunctionTool) (pre : list ToolCall) (tc : ToolCall)
  (post : list ToolCall) (l : Locals) (st : State) (session : Client)
  (toolName : option string) (e : Error) :
  route (sessions st) tc = Some (session, toolName) ->
  JSON_parse w tc.(tc_arguments) = Err e ->
  for_of (dispatch w availableTools) (pre ++ tc :: post) l st
  = (l1 <- for_of (dispatch w availableTools) pre l ;; throw e) st.
Proof.
  intros Hr Hp.
  assert (Hd : forall l1 st1,
             sessions st1 = sessions st ->
             dispatch w availableTools tc l1 st1 = (Throw e, st1)).
  { intros l1 st1 Hs. unfold route in Hr. unfold dispatch.
    destruct (splitQualifiedName (tc_name tc)) as [serverName name].
    unfold bind, get_sessions. rewrite Hs.
    destruct (sessions_get serverName (sessions st)); [|discriminate Hr].
    unfold lift. rewrite Hp. reflexivity. }
  rewrite for_of_app. unfold bind.
  destruct (for_of (dispatch w availableTools) pre l st) as [r1 st1] eqn:E1.
  destruct r1 as [l1|e1|]; [|reflexivity..].
  eapply (for_of_sound (dispatch w availableTools)
            (dispatch_run w (sessions st) availableTools) (sessions st)) in E1;
    [|intros x acc st0 r0 st0' Hs E0; rewrite <- Hs; eapply dispatch_sound; eauto
     |reflexivity].
  destruct E1 as (h & (Hs & _) & _).
  cbn [for_of]. unfold bind. rewrite (Hd l1 st1 Hs). reflexivity.
Qed.

Lemma X10_unparsable_arguments_abort_the_query_witness :
  let w := Scenario.stale_name in
  let st := Scenario.connected "geo" in
  let tc := {| tc_id := "call_1"; tc_name := "geo__get-forecast";
               tc_arguments := "{latitude:" |} in
  let post := [Scenario.request "call_2" "geo__get-forecast"] in
  let l := {| messages := [UserMessage "weather?"]; finalText := [] |} in
  for_of (dispatch w []) ([] ++ tc :: post) l st
  = (l1 <- for_of (dispatch w []) [] l ;; throw "SyntaxError: Unexpected token") st.
Proof.
  intros w st tc post l.
  apply (X10_unparsable_arguments_abort_the_query w [] [] tc post l st
           {| client_id := 1 |} (Some "get-forecast") "SyntaxError: Unexpected token");
    reflexivity.
Defined.

Lemma split_at_first_separator_witness :
  split SEP (qualifiedName "srv" "get__alerts") = "srv" :: split SEP "get__alerts".
Proof.
  apply (split_at_first_separator "srv" "get__alerts"); reflexivity.
Defined.

(** ** The size of the registry *)

Lemma accepted_app (h1 h2 : list Event) : accepted (h1 ++ h2) = accepted h1 + accepted h2.
Proof. unfold accepted. rewrite filter_app, length_app. reflexivity. Qed.

Lemma set_absent {V : Type} (k : string) (v : V) (m : list (string * V)) :
  JsMap.get k m = None -> JsMap.set k v m = m ++ [(k, v)].
Proof.
  induction m as [|[k0 v0] m IH]; cbn; [reflexivity|].
  destruct (String.eqb k0 k); [discriminate|]. intro H. now rewrite (IH H).
Qed.

Section RegistrySize.
Variable w : World.

(** Whether [connectToServer] registers a session is decided by the
    provider accepting the connection, and by nothing else. *)
Lemma connectToServer_accepted (serverName : string) (st : State) (r : Outcome unit)
  (st' : State) :
  connectToServer w serverName st = (r, st') ->
  (accepted (new_events st st') = 0 /\ (exists e, r = Throw e) /\
   sessions st' = sessions st /\ transports st' = transports st) \/
  (accepted (new_events st st') = 1 /\
   exists kind,
     sessions st' = JsMap.set serverName {| client_id := S (next_id st) |} (sessions st) /\
     transports st'
     = JsMap.set serverName {| transport_id := next_id st; transport_kind := kind |}
         (transports st)).
Proof.
  unfold connectToServer.
  destruct (find (fun cfg => String.eqb (cfg_name cfg) serverName) (w_config w))
    as [serverConfig|].
  2:{ intro E. inversion E; subst. left.
      rewrite (frame_new_events _ _ _ (frame_refl st')). eauto. }
  unfold bind at 1.
  destruct (createTransport w serverName serverConfig st) as [r0 st0] eqn:E0.
  apply createTransport_run in E0.
  destruct E0 as [(e & -> & ->)|(kind & -> & ->)].
  { intro E. inversion E; subst. left.
    rewrite (frame_new_events _ _ _ (frame_refl st')). eauto. }
  unfold bind at 1. unfold new_Client at 1. unfold bind at 1, fresh_id at 1, ret at 1.
  cbn [next_id sessions transports trace].
  unfold bind at 1.
  match goal with
  | |- context [client_connect w ?c ?t ?s] =>
      destruct (client_connect w c t s) as [r1 st1] eqn:E1
  end.
  unfold client_connect in E1. apply await_run in E1. cbv beta in E1.
  cbn [trace] in E1. destruct E1 as [(S1 & T1 & _ & H1) R1].
  cbn [trace sessions transports] in H1, S1, T1.
  match type of R1 with
  | match ?x with _ => _ end => destruct x as [[]|e]
  end; subst r1.
  2:{ intro E. inversion E; subst. left.
      rewrite (trace_new_events _ _ _ H1). eauto. }
  unfold bind at 1, get_sessions at 1. unfold bind at 1, put_sessions at 1.
  unfold bind at 1, get_transports at 1. unfold bind at 1, put_transports at 1.
  cbn [next_id sessions transports trace].
  unfold bind at 1.
  match goal with
  | |- context [client_listTools w ?c ?s] =>
      destruct (client_listTools w c s) as [r2 st2] eqn:E2
  end.
  unfold client_listTools in E2. apply await_run in E2. cbv beta in E2.
  destruct E2 as [(S2 & T2 & _ & H2) R2]. cbn [trace sessions transports] in H2, S2, T2.
  match type of R2 with
  | match ?x with _ => _ end => destruct x as [tools|e]
  end; subst r2.
  - unfold console_log, emit. intro E. inversion E; subst. right.
    cbn [sessions transports].
    erewrite trace_new_events;
      [|cbn [trace]; rewrite H2, H1, <- !app_assoc; reflexivity].
    split; [reflexivity|]. exists kind. rewrite S2, T2, S1, T1. split; reflexivity.
  - intro E. inversion E; subst. right.
    erewrite trace_new_events; [|rewrite H2, H1, <- !app_assoc; reflexivity].
    split; [reflexivity|]. exists kind. rewrite S2, T2, S1, T1. split; reflexivity.
Qed.

Lemma connectOne_accepted (serverName : string) (st : State) :
  exists st' h,
    connectOne w serverName tt st = (Return tt, st') /\
    trace st' = trace st ++ h /\
    ((accepted h = 0 /\ sessions st' = sessions st) \/
     (accepted h = 1 /\
      exists c, sessions st' = JsMap.set serverName c (sessions st))).
Proof.
  destruct (connectOne_effects w serverName st) as (st' & h & E & T & _).
  exists st', h. split; [exact E|]. split; [exact T|].
  unfold connectOne, try_catch in E.
  destruct (connectToServer w serverName st) as [r st1] eqn:E1.
  pose proof (connectToServer_accepted _ _ _ _ E1) as Hacc.
  destruct (connectToServer_run w _ _ _ _ E1) as (h1 & T1 & _ & _).
  rewrite (trace_new_events _ _ _ T1) in Hacc.
  assert (Hh : accepted h = accepted h1 /\ sessions st' = sessions st1).
  { destruct r as [[]|e|]; inversion E; subst.
    - rewrite T1 in T. apply app_inv_head in T. subst h1. auto.
    - cbn [trace] in T. rewrite T1, <- app_assoc in T. apply app_inv_head in T.
      subst h. rewrite accepted_app. cbn. split; [apply Nat.add_0_r | reflexivity]. }
  destruct Hh as [-> ->].
  destruct Hacc as [(A & _ & S1 & _)|(A & kind & S1 & _)]; [left | right]; eauto.
Qed.

End RegistrySize.

(** X13.  When the open servers have distinct names, none of them
    registered yet, the connection loop registers one session per
    connection that a provider accepted: the registry grows by exactly the
    number of accepted connections, whether or not the listing of tools
    that follows succeeds. *)
Theorem X13_registry_grows_by_the_accepted_connections (w : World)
  (openServers : list string) (st : State) :
  NoDup openServers ->
  (forall n, In n openServers -> JsMap.get n (sessions st) = None) ->
  let st' := snd (connectAll w openServers st) in
  JsMap.size (sessions st') = JsMap.size (sessions st) + accepted (new_events st st').
Proof.
  cbv zeta. revert st. unfold connectAll.
  induction openServers as [|serverName rest IH]; intros st Hnd Hfree.
  - cbn. rewrite (frame_new_events _ _ _ (frame_refl st)). cbn. lia.
  - inversion Hnd as [|? ? Hnotin Hnd']; subst.
    destruct (connectOne_accepted w serverName st) as (st1 & h1 & E1 & T1 & Hcase).
    cbn [for_of]. unfold bind. rewrite E1.
    assert (Hfree1 : forall n, In n rest -> JsMap.get n (sessions st1) = None).
    { intros n Hn.
      destruct Hcase as [(_ & ->)|(_ & c & ->)]; [apply Hfree; right; exact Hn|].
      rewrite get_set_other; [apply Hfree; right; exact Hn|].
      intro D. subst n. exact (Hnotin Hn). }
    specialize (IH st1 Hnd' Hfree1).
    destruct (for_of (connectOne w) rest tt st1) as [r2 st2] eqn:E2. cbn [snd] in *.
    assert (T2 : trace st2 = trace st1 ++ new_events st1 st2).
    { destruct (connectAll_effects w rest st1) as (st2' & h2 & E2' & T2' & _).
      unfold connectAll in E2'. rewrite E2 in E2'. inversion E2'; subst st2'.
      rewrite (trace_new_events _ _ _ T2'). exact T2'. }
    rewrite IH.
    erewrite (trace_new_events st st2); [|rewrite T2, T1, <- app_assoc; reflexivity].
    rewrite accepted_app.
    destruct Hcase as [(-> & ->)|(-> & c & ->)]; [lia|].
    rewrite (set_absent serverName c (sessions st) (Hfree _ (or_introl eq_refl))).
    unfold JsMap.size. rewrite length_app. cbn. lia.
Qed.

Lemma X13_registry_grows_by_the_accepted_connections_witness :
  let w := Scenario.failing_list in
  let st' := snd (connectAll w ["alerts"; "geo"] initial_state) in
  JsMap.size (sessions st')
  = JsMap.size (sessions initial_state) + accepted (new_events initial_state st').
Proof.
  apply (X13_registry_grows_by_the_accepted_connections Scenario.failing_list
           ["alerts"; "geo"] initial_state).
  - repeat constructor; cbn; intuition discriminate.
  - reflexivity.
Defined.

(* ================================================================== *)
(** * Properties of the weather server *)

Module ServerFacts.
Import Server.

Lemma Json_eq_null (value : Json) : value = JNull \/ value <> JNull.
Proof. destruct value; [left; reflexivity | right; discriminate ..]. Qed.

Lemma fetched_app (h1 h2 : list NetEvent) : fetched (h1 ++ h2) = fetched h1 ++ fetched h2.
Proof. apply flat_map_app. Qed.

(** The runs of [makeNWSRequest]. *)
Lemma makeNWSRequest_run {T} (fetchT : list NetEvent -> string -> Settled (HttpResponse T))
  (url : string) (h : list NetEvent) :
  exists data extra,
    makeNWSRequest fetchT url h = (Resolved data, h ++ EvFetch url nws_headers :: extra) /\
    ((exists response d,
        fetchT h url = Resolved response /\ ok response = true /\
        json response = Resolved d /\ data = Some d /\ extra = []) \/
     (data = None /\ exists e, extra = [EvLogError "Error making NWS request:" e] /\
      ((fetchT h url = Rejected e) \/
       (exists response,
          fetchT h url = Resolved response /\
          ((ok response = false /\ e = JsError ("HTTP error! status: " ++ status response))
           \/ (ok response = true /\ json response = Rejected e)))))).
Proof.
  unfold makeNWSRequest, scatch, sbind, do_fetch, log_error, sret, sthrow.
  destruct (fetchT h url) as [response|e] eqn:Ef.
  - destruct (ok response) eqn:Hok; cbn [negb].
    + unfold slift. destruct (json response) as [d|e] eqn:Hj.
      * exists (Some d), []. split; [reflexivity|]. left. exists response, d. auto.
      * exists None, [EvLogError "Error making NWS request:" e].
        split; [cbn; rewrite <- app_assoc; reflexivity|]. right.
        split; [reflexivity|]. exists e. split; [reflexivity|]. right.
        exists response. auto.
    + exists None,
        [EvLogError "Error making NWS request:"
           (JsError ("HTTP error! status: " ++ status response))].
      split; [cbn; rewrite <- app_assoc; reflexivity|]. right.
      split; [reflexivity|]. eexists. split; [reflexivity|]. right.
      exists response. auto.
  - exists None, [EvLogError "Error making NWS request:" e].
    split; [cbn; rewrite <- app_assoc; reflexivity|]. right.
    split; [reflexivity|]. exists e. auto.
Qed.

(** X14.  [makeNWSRequest] never rejects.  It makes exactly one request,
    to the given URL with the User-Agent and Accept headers of the module,
    and resolves with the decoded body when the request succeeds with an
    ok status and the body decodes; in every other case (the request
    fails, the status is not ok, the body does not decode) it writes one
    line on the error console and resolves with null. *)
Theorem X14_makeNWSRequest_never_rejects {T}
  (fetchT : list NetEvent -> string -> Settled (HttpResponse T))
  (url : string) (h : list NetEvent) :
  exists data extra,
    makeNWSRequest fetchT url h
    = (Resolved data,
       h ++ EvFetch url [("User-Agent", "weather-app/1.0");
                         ("Accept", "application/geo+json")] :: extra) /\
    match data with
    | Some d =>
        extra = [] /\
        exists response,
          fetchT h url = Resolved response /\ ok response = true /\
          json response = Resolved d
    | None =>
        (exists e, extra = [EvLogError "Error making NWS request:" e]) /\
        ~ (exists response d,
             fetchT h url = Resolved response /\ ok response = true /\
             json response = Resolved d)
    end.
Proof.
  destruct (makeNWSRequest_run fetchT url h) as (data & extra & E & Hcases).
  exists data, extra. split; [exact E|].
  destruct Hcases as [(response & d & Hf & Hok & Hj & -> & ->)
                     |(-> & e & -> & Hwhy)].
  - split; [reflexivity|]. exists response. auto.
  - split; [eauto|]. intros (response & d & Hf & Hok & Hj).
    destruct Hwhy as [Hr|(response' & Hf' & [[Hok' _]|[_ Hj']])].
    + rewrite Hr in Hf. discriminate Hf.
    + rewrite Hf in Hf'. inversion Hf'; subst. rewrite Hok in Hok'. discriminate Hok'.
    + rewrite Hf in Hf'. inversion Hf'; subst. rewrite Hj in Hj'. discriminate Hj'.
Qed.

Lemma fetched_requested (urls : list string) : fetched (map requested urls) = urls.
Proof. induction urls as [|url urls IH]; [reflexivity | simpl; f_equal; exact IH]. Qed.

Section HandlerRuns.
Variable net : Net.

(** The runs of the "get-alerts" branch. *)
Lemma getAlerts_run (id : Json) (args : option Json) (h : list NetEvent) :
  (exists e,
     AlertsArgumentsSchema_parse net args = Rejected e /\
     getAlerts net id args h = (Rejected e, h)) \/
  (exists state r extra,
     AlertsArgumentsSchema_parse net args = Resolved state /\
     getAlerts net id args h = (r, h ++ extra) /\
     ((exists text,
         r = Resolved (content id text) /\
         fetched extra
         = [(NWS_API_BASE ++ "/alerts?area=" ++ String_toUpperCase net state)%string]) \/
      (exists message,
         r = Rejected (JsError message) /\
         extra = [requested (NWS_API_BASE ++ "/alerts?area="
                             ++ String_toUpperCase net state)%string]))).
Proof.
  destruct (AlertsArgumentsSchema_parse net args) as [state|e] eqn:Hp.
  2:{ left. exists e. split; [reflexivity|].
      unfold getAlerts, sbind, slift. rewrite Hp. reflexivity. }
  right. exists state. unfold getAlerts. unfold sbind at 1. unfold slift.
  rewrite Hp. unfold sret at 1. cbv beta zeta.
  set (url := (NWS_API_BASE ++ "/alerts?area=" ++ String_toUpperCase net state)%string).
  destruct (makeNWSRequest_run (fetch net) url h) as (data & extra & E & Hcases).
  unfold sbind at 1. rewrite E.
  assert (Hf : fetched (EvFetch url nws_headers :: extra) = [url]).
  { destruct Hcases as [(_ & _ & _ & _ & _ & _ & ->)|(_ & e & -> & _)]; reflexivity. }
  assert (Hone : forall text,
             exists r extra0,
               Resolved state = Resolved state /\
               (Resolved (content id text), h ++ EvFetch url nws_headers :: extra)
               = (r, h ++ extra0) /\
               ((exists text0, r = Resolved (content id text0) /\ fetched extra0 = [url]) \/
                (exists message,
                   r = Rejected (JsError message) /\ extra0 = [requested url]))).
  { intro text. eexists _, _. split; [reflexivity|]. split; [reflexivity|].
    left. exists text. split; [reflexivity | exact Hf]. }
  destruct data as [data|]; [|apply Hone].
  destruct (js_truthy net data); cbn [negb]; [|apply Hone].
  destruct (length_is_zero net (or_empty net (member "features" data))); [apply Hone|].
  unfold sbind, computed.
  destruct (js_map (formatAlert net) (or_empty net (member "features" data)) "features")
    as [formatted|message].
  - apply Hone.
  - destruct Hcases as [(_ & _ & _ & _ & _ & _ & ->)|(D & _)]; [|discriminate D].
    eexists _, _. split; [reflexivity|]. split; [reflexivity|].
    right. eexists. split; reflexivity.
Qed.

Lemma getForecast_rejected (id : Json) (args : option Json) (e : Thrown)
  (h : list NetEvent) :
  ForecastArgumentsSchema_parse net args = Rejected e ->
  getForecast net id args h = (Rejected e, h).
Proof. intro Hp. unfold getForecast, sbind, slift. rewrite Hp. reflexivity. Qed.

(** The runs of the "get-forecast" branch, once the coordinates are
    accepted. *)
Lemma getForecast_run (id : Json) (args : option Json) (coordinates : Number * Number)
  (h : list NetEvent) :
  ForecastArgumentsSchema_parse net args = Resolved coordinates ->
  exists r extra,
    getForecast net id args h = (r, h ++ extra) /\
    (((exists text, r = Resolved (content id text)) /\
      fetched extra = [pointsUrl net coordinates] /\
      ~ exists forecastUrl, grid_point net h (pointsUrl net coordinates) forecastUrl) \/
     (exists forecastUrl,
        grid_point net h (pointsUrl net coordinates) forecastUrl /\
        ((exists text,
            r = Resolved (content id text) /\
            fetched extra = [pointsUrl net coordinates; forecastUrl]) \/
         (exists message,
            r = Rejected (JsError message) /\
            extra = [requested (pointsUrl net coordinates); requested forecastUrl])))).
Proof.
  intro Hp. unfold getForecast. unfold sbind at 1. unfold slift.
  rewrite Hp. unfold sret at 1. cbv beta zeta.
  change (NWS_API_BASE ++ "/points/" ++ Number_toFixed4 net (fst coordinates) ++ ","
          ++ Number_toFixed4 net (snd coordinates))%string
    with (pointsUrl net coordinates).
  set (url := pointsUrl net coordinates).
  destruct (makeNWSRequest_run (fetch net) url h) as (data & extra & E & Hcases).
  unfold sbind at 1. rewrite E.
  assert (Hone : forall text,
             (~ exists forecastUrl, grid_point net h url forecastUrl) ->
             fetched extra = [] ->
             exists r extra0,
               (Resolved (content id text), h ++ EvFetch url nws_headers :: extra)
               = (r, h ++ extra0) /\
               (((exists text0, r = Resolved (content id text0)) /\
                 fetched extra0 = [url] /\
                 ~ exists forecastUrl, grid_point net h url forecastUrl) \/
                (exists forecastUrl,
                   grid_point net h url forecastUrl /\
                   ((exists text0,
                       r = Resolved (content id text0) /\
                       fetched extra0 = [url; forecastUrl]) \/
                    (exists message,
                       r = Rejected (JsError message) /\
                       extra0 = [requested url; requested forecastUrl]))))).
  { intros text Hno Hex. eexists _, _. split; [reflexivity|]. left.
    split; [eauto|]. split; [|exact Hno].
    change (url :: fetched extra = [url]). rewrite Hex. reflexivity. }
  destruct Hcases as [(response & d & Ef & Hok & Hj & -> & ->)
                     |(-> & e & -> & Hwhy)].
  2:{ apply Hone; [|reflexivity].
      intros (u & r' & p' & f' & Ef' & Hok' & Hj' & _).
      destruct Hwhy as [Ef|(response & Ef & [(Hok & _)|(_ & Hj)])];
        rewrite Ef in Ef'; [discriminate Ef'| |];
        inversion Ef'; subst r'; congruence. }
  assert (Hsame : forall u,
             grid_point net h url u ->
             js_truthy net d = true /\
             exists f,
               read_optional "forecast" (member "properties" d) = Some f /\
               js_truthy net f = true /\ js_String net f = Value u).
  { intros u (r' & p' & f' & Ef' & _ & Hj' & Ht & Hr & Htf & Hs).
    rewrite Ef in Ef'. inversion Ef'; subst r'.
    rewrite Hj in Hj'. inversion Hj'; subst p'. eauto. }
  destruct (js_truthy net d) eqn:Htd; cbn [negb].
  2:{ apply Hone; [|reflexivity].
      intros (u & Hg). apply Hsame in Hg. destruct Hg as [D _]. discriminate D. }
  destruct (read_optional "forecast" (member "properties" d)) as [f|] eqn:Hf.
  2:{ apply Hone; [|reflexivity].
      intros (u & Hg). apply Hsame in Hg. destruct Hg as (_ & f & D & _). discriminate D. }
  destruct (js_truthy net f) eqn:Htf; cbn [negb].
  2:{ apply Hone; [|reflexivity].
      intros (u & Hg). apply Hsame in Hg. destruct Hg as (_ & f' & D & Ht' & _).
      inversion D; subst f'. congruence. }
  unfold sbind at 1. unfold requestForecast.
  destruct (js_String net f) as [u|message] eqn:Hs.
  2:{ cbv beta iota delta [sbind log_error sret].
      eexists _, _. split; [rewrite <- app_assoc; reflexivity|]. left.
      split; [eauto|]. split; [reflexivity|].
      intros (u & Hg). apply Hsame in Hg. destruct Hg as (_ & f' & D & _ & Hs').
      inversion D; subst f'. congruence. }
  assert (Hg : grid_point net h url u).
  { exists response, d, f. repeat split; assumption. }
  destruct (makeNWSRequest_run (fetch net) u (h ++ [EvFetch url nws_headers]))
    as (forecast & extra2 & E2 & Hcases2).
  rewrite E2.
  assert (Hf2 : fetched extra2 = []).
  { destruct Hcases2 as [(_ & _ & _ & _ & _ & _ & ->)|(_ & e & -> & _)]; reflexivity. }
  assert (Htwo : forall text,
             exists r extra0,
               (Resolved (content id text),
                (h ++ [EvFetch url nws_headers]) ++ EvFetch u nws_headers :: extra2)
               = (r, h ++ extra0) /\
               (((exists text0, r = Resolved (content id text0)) /\
                 fetched extra0 = [url] /\
                 ~ exists forecastUrl, grid_point net h url forecastUrl) \/
                (exists forecastUrl,
                   grid_point net h url forecastUrl /\
                   ((exists text0,
                       r = Resolved (content id text0) /\
                       fetched extra0 = [url; forecastUrl]) \/
                    (exists message,
                       r = Rejected (JsError message) /\
                       extra0 = [requested url; requested forecastUrl]))))).
  { intro text.
    exists (Resolved (content id text)),
      (EvFetch url nws_headers :: EvFetch u nws_headers :: extra2).
    split; [rewrite <- app_assoc; reflexivity|].
    right. exists u. split; [exact Hg|]. left. exists text. split; [reflexivity|].
    change (url :: u :: fetched extra2 = [url; u]). rewrite Hf2. reflexivity. }
  destruct forecast as [forecast|]; [|apply Htwo].
  destruct (js_truthy net forecast); cbn [negb]; [|apply Htwo].
  destruct (length_is_zero net
              (or_empty net (read_optional "periods" (member "properties" forecast))));
    [apply Htwo|].
  unfold sbind, computed.
  destruct (js_map (formatPeriod net)
              (or_empty net (read_optional "periods" (member "properties" forecast)))
              "periods") as [formatted|message].
  - apply Htwo.
  - destruct Hcases2 as [(_ & _ & _ & _ & _ & _ & ->)|(D & _)]; [|discriminate D].
    eexists _, _. split; [unfold sthrow; rewrite <- app_assoc; reflexivity|].
    right. exists u. split; [exact Hg|]. right. eexists. split; reflexivity.
Qed.

Lemma handleToolCall_unfold (id : Json) (p : Json) :
  p <> JNull ->
  handleToolCall net id (Some p)
  = scatch
      (match member "name" p with
       | Some (JString n) =>
           if String.eqb n "get-alerts" then getAlerts net id (member "arguments" p)
           else if String.eqb n "get-forecast"
                then getForecast net id (member "arguments" p)
                else toolNotFound net id (member "name" p)
       | _ => toolNotFound net id (member "name" p)
       end)
      (toolCallFailed id).
Proof. intro Hp. destruct p; try reflexivity. contradiction. Qed.

(** What the [catch] of [handleToolCall] makes of a branch that
    rejects. *)
Lemma toolCallFailed_run (id : Json) (e : Thrown) (h : list NetEvent) :
  exists resp,
    rpc_id resp = id /\
    match e with
    | ZodError _ =>
        toolCallFailed id e h = (Resolved resp, h) /\
        exists message, rpc_payload resp = RpcError (-32602)%Z message
    | JsError _ =>
        toolCallFailed id e h = (Resolved resp, h ++ [EvLogError "Error in tool call:" e]) /\
        resp = error_response id (-32000)%Z "Internal server error during tool execution."
    end.
Proof.
  destruct e as [issues|message]; eexists; (split; [|split; [reflexivity|]]);
    try reflexivity. eexists. reflexivity.
Qed.

(** Every run of [handleToolCall] with [params] that can be
    destructured. *)
Lemma handleToolCall_run (id : Json) (p : Json) (h : list NetEvent) :
  p <> JNull ->
  exists resp extra,
    handleToolCall net id (Some p) h = (Resolved resp, h ++ extra) /\
    rpc_id resp = id /\
    (((exists n, member "name" p = Some (JString n) /\ In n advertised) /\
      ((exists text, rpc_payload resp = RpcResult (ContentResult text) /\
                     1 <= List.length (fetched extra) <= 2) \/
       (exists message, rpc_payload resp = RpcError (-32602)%Z message /\ extra = []) \/
       (exists e urls,
          resp = error_response id (-32000)%Z "Internal server error during tool execution." /\
          extra = map requested urls ++ [EvLogError "Error in tool call:" e] /\
          List.length urls <= 2))) \/
     ((~ exists n, member "name" p = Some (JString n) /\ In n advertised) /\
      ((exists text,
          template net (member "name" p) = Value text /\
          resp = error_response id (-32601)%Z ("Tool not found: " ++ text) /\
          extra = []) \/
       (exists message,
          template net (member "name" p) = TypeError message /\
          resp = error_response id (-32000)%Z "Internal server error during tool execution." /\
          extra = [EvLogError "Error in tool call:"
                     (JsError ("TypeError: " ++ message))])))).
Proof.
  intro Hp. rewrite (handleToolCall_unfold id p Hp).
  assert (Hunknown :
            (~ exists n, member "name" p = Some (JString n) /\ In n advertised) ->
            exists resp extra,
              scatch (toolNotFound net id (member "name" p)) (toolCallFailed id) h
              = (Resolved resp, h ++ extra) /\
              rpc_id resp = id /\
              (((exists n, member "name" p = Some (JString n) /\ In n advertised) /\
                ((exists text, rpc_payload resp = RpcResult (ContentResult text) /\
                               1 <= List.length (fetched extra) <= 2) \/
                 (exists message,
                    rpc_payload resp = RpcError (-32602)%Z message /\ extra = []) \/
                 (exists e urls,
                    resp = error_response id (-32000)%Z
                             "Internal server error during tool execution." /\
                    extra = map requested urls ++ [EvLogError "Error in tool call:" e] /\
                    List.length urls <= 2))) \/
               ((~ exists n, member "name" p = Some (JString n) /\ In n advertised) /\
                ((exists text,
                    template net (member "name" p) = Value text /\
                    resp = error_response id (-32601)%Z ("Tool not found: " ++ text) /\
                    extra = []) \/
                 (exists message,
                    template net (member "name" p) = TypeError message /\
                    resp = error_response id (-32000)%Z
                             "Internal server error during tool execution." /\
                    extra = [EvLogError "Error in tool call:"
                               (JsError ("TypeError: " ++ message))]))))).
  { intro Hnot. unfold scatch, toolNotFound, sbind, computed.
    destruct (template net (member "name" p)) as [text|message].
    - eexists _, []. rewrite app_nil_r. split; [reflexivity|]. split; [reflexivity|].
      right. split; [exact Hnot|]. left. exists text. auto.
    - eexists _, _. split; [reflexivity|]. split; [reflexivity|].
      right. split; [exact Hnot|]. right. exists message. auto. }
  assert (Hno : forall v,
             (forall n, v = Some (JString n) -> ~ In n advertised) ->
             ~ exists n, v = Some (JString n) /\ In n advertised).
  { intros v Hv (n & Hn & Hin). exact (Hv n Hn Hin). }
  assert (Hfailed : forall (e : Thrown) (urls : list string),
             List.length urls <= 2 ->
             (forall issues, e = ZodError issues -> urls = []) ->
             exists resp extra,
               toolCallFailed id e (h ++ map requested urls) = (Resolved resp, h ++ extra) /\
               rpc_id resp = id /\
               ((exists message,
                   rpc_payload resp = RpcError (-32602)%Z message /\ extra = []) \/
                (exists e0 urls0,
                   resp = error_response id (-32000)%Z
                            "Internal server error during tool execution." /\
                   extra = map requested urls0 ++ [EvLogError "Error in tool call:" e0] /\
                   List.length urls0 <= 2))).
  { intros e urls Hlen Hzod.
    destruct (toolCallFailed_run id e (h ++ map requested urls)) as (resp & Hid & Hrun).
    destruct e as [issues|message].
    - destruct Hrun as (E & m & Hm). rewrite (Hzod issues eq_refl) in E |- *.
      exists resp, []. cbn [map] in E. split; [exact E|]. split; [exact Hid|].
      left. exists m. auto.
    - destruct Hrun as (E & ->).
      eexists _, _. split; [rewrite E, <- app_assoc; reflexivity|].
      split; [reflexivity|]. right. eexists _, urls. auto. }
  destruct (member "name" p) as [[| | |n| |]|] eqn:Hname;
    try (apply Hunknown; apply Hno; intros n0 D; discriminate D).
  destruct (String.eqb_spec n "get-alerts") as [->|Hna].
  { assert (Hadv : exists n, Some (JString "get-alerts") = Some (JString n) /\ In n advertised).
    { exists "get-alerts". split; [reflexivity | left; reflexivity]. }
    unfold scatch.
    destruct (getAlerts_run id (member "arguments" p) h)
      as [(e & _ & E)|(state & r & extra & _ & E & Hr)]; rewrite E.
    - destruct (Hfailed e [] (Nat.le_0_l 2) (fun _ _ => eq_refl))
        as (resp & extra & E' & Hid & Hcases).
      cbn [map] in E'. rewrite app_nil_r in E'.
      exists resp, extra. split; [exact E'|]. split; [exact Hid|].
      left. split; [exact Hadv|]. right. exact Hcases.
    - destruct Hr as [(text & -> & Hf)|(message & -> & ->)].
      + exists (content id text), extra. split; [reflexivity|]. split; [reflexivity|].
        left. split; [exact Hadv|]. left. exists text. split; [reflexivity|].
        rewrite Hf. cbn. lia.
      + match goal with
        | |- context [requested ?u] =>
            destruct (Hfailed (JsError message) [u]) as (resp & extra & E' & Hid & Hcases);
              [cbn; lia | intros issues D; discriminate D |]
        end.
        exists resp, extra. split; [exact E'|]. split; [exact Hid|].
        left. split; [exact Hadv|]. right. exact Hcases. }
  destruct (String.eqb_spec n "get-forecast") as [->|Hnf].
  { assert (Hadv : exists n, Some (JString "get-forecast") = Some (JString n)
                             /\ In n advertised).
    { exists "get-forecast". split; [reflexivity | right; left; reflexivity]. }
    unfold scatch.
    destruct (ForecastArgumentsSchema_parse net (member "arguments" p))
      as [coordinates|e] eqn:Hparse.
    - destruct (getForecast_run id (member "arguments" p) coordinates h Hparse)
        as (r & extra & E & Hr). rewrite E.
      destruct Hr as [((text & ->) & Hf & _)
                     |(u & _ & [(text & -> & Hf)|(message & -> & ->)])].
      + exists (content id text), extra. split; [reflexivity|]. split; [reflexivity|].
        left. split; [exact Hadv|]. left. exists text. split; [reflexivity|].
        rewrite Hf. cbn. lia.
      + exists (content id text), extra. split; [reflexivity|]. split; [reflexivity|].
        left. split; [exact Hadv|]. left. exists text. split; [reflexivity|].
        rewrite Hf. cbn. lia.
      + destruct (Hfailed (JsError message) [pointsUrl net coordinates; u])
          as (resp & extra & E' & Hid & Hcases);
          [cbn; lia | intros issues D; discriminate D |].
        exists resp, extra. split; [exact E'|]. split; [exact Hid|].
        left. split; [exact Hadv|]. right. exact Hcases.
    - rewrite (getForecast_rejected id _ e h Hparse).
      destruct (Hfailed e [] (Nat.le_0_l 2) (fun _ _ => eq_refl))
        as (resp & extra & E' & Hid & Hcases).
      cbn [map] in E'. rewrite app_nil_r in E'.
      exists resp, extra. split; [exact E'|]. split; [exact Hid|].
      left. split; [exact Hadv|]. right. exact Hcases. }
  apply Hunknown. apply Hno. intros n0 D Hin. inversion D; subst n0.
  change advertised with ["get-alerts"; "get-forecast"] in Hin.
  destruct Hin as [Ha|[Hf|[]]]; congruence.
Qed.

End HandlerRuns.

(** X15.  [handleToolCall] answers every call whose [params] can be
    destructured: whatever the tool, the arguments and the weather service
    do, it resolves with a response that carries the id of the request,
    after at most two requests to the weather service.  It rejects only
    when [params] is missing or null, before doing anything. *)
Theorem X15_handleToolCall_always_answers (net : Net) (id : Json)
  (params : option Json) (h : list NetEvent) :
  (params = None \/ params = Some JNull ->
   exists e, handleToolCall net id params h = (Rejected e, h)) /\
  (forall p, params = Some p -> p <> JNull ->
   exists resp extra,
     handleToolCall net id params h = (Resolved resp, h ++ extra) /\
     rpc_id resp = id /\ List.length (fetched extra) <= 2).
Proof.
  split.
  - intros [->| ->]; eexists; reflexivity.
  - intros p -> Hp.
    destruct (handleToolCall_run net id p h Hp) as (resp & extra & E & Hid & Hcases).
    exists resp, extra. split; [exact E|]. split; [exact Hid|].
    destruct Hcases as [(_ & [(text & _ & Hf)|[(m & _ & ->)|(e & urls & _ & -> & Hl)]])
                       |(_ & [(text & _ & _ & ->)|(m & _ & _ & ->)])];
      try (cbn; lia).
    rewrite fetched_app, fetched_requested, length_app. cbn. lia.
Qed.

(** X16.  [handleToolCall] refuses a call before any request to the
    weather service: the answers -32601 (unknown tool) and -32602
    (arguments that the schema refuses) are given without any request and
    without a line on the console.  Every other error answer is -32000:
    its run ends with the one line "Error in tool call:" on the error
    console, and before it there are at most two requests and nothing
    else, so that no request had failed.  A request that fails (no
    answer, a status that is not ok, a body that is not JSON) is reported
    inside a text result, which comes after one or two requests. *)
Theorem X16_refusals_come_before_any_request (net : Net) (id : Json) (p : Json)
  (h : list NetEvent) :
  p <> JNull ->
  exists resp extra,
    handleToolCall net id (Some p) h = (Resolved resp, h ++ extra) /\
    match rpc_payload resp with
    | RpcError code _ =>
        ((code = (-32601)%Z \/ code = (-32602)%Z) /\ extra = []) \/
        (code = (-32000)%Z /\
         exists e urls,
           extra = map requested urls ++ [EvLogError "Error in tool call:" e] /\
           List.length urls <= 2)
    | RpcResult (ContentResult _) => 1 <= List.length (fetched extra) <= 2
    | RpcResult _ => False
    end.
Proof.
  intro Hp.
  destruct (handleToolCall_run net id p h Hp) as (resp & extra & E & _ & Hcases).
  exists resp, extra. split; [exact E|].
  destruct Hcases as [(_ & [(text & -> & Hf)|[(m & -> & ->)|(e & urls & -> & -> & Hl)]])
                     |(_ & [(text & _ & -> & ->)|(m & _ & -> & ->)])];
    cbn [rpc_payload error_response]; auto.
  - right. split; [reflexivity|]. exists e, urls. auto.
  - right. split; [reflexivity|]. eexists _, []. split; [reflexivity | cbn; lia].
Qed.

Lemma X16_refusals_come_before_any_request_witness :
  let net := sample (answered (alerts [JNull])) in
  let p := JObject [("name", JString "get-alerts");
                    ("arguments", JObject [("state", JString "NY")])] in
  exists resp extra,
    handleToolCall net (JNumber "1") (Some p) [] = (Resolved resp, [] ++ extra) /\
    match rpc_payload resp with
    | RpcError code _ =>
        ((code = (-32601)%Z \/ code = (-32602)%Z) /\ extra = []) \/
        (code = (-32000)%Z /\
         exists e urls,
           extra = map requested urls ++ [EvLogError "Error in tool call:" e] /\
           List.length urls <= 2)
    | RpcResult (ContentResult _) => 1 <= List.length (fetched extra) <= 2
    | RpcResult _ => False
    end.
Proof.
  apply (X16_refusals_come_before_any_request (sample (answered (alerts [JNull])))
           (JNumber "1")
           (JObject [("name", JString "get-alerts");
                     ("arguments", JObject [("state", JString "NY")])]) []).
  discriminate.
Defined.

(** X17.  The tools that [tools/list] advertises are exactly the tools
    that [tools/call] knows.  A call whose name is the name of an
    advertised tool is never answered with the error -32601.  A call with
    any other name is answered with -32601 "Tool not found: <name>",
    without any interaction, when the name can be converted to a string;
    when it cannot (an object with a member "toString"), the conversion
    throws inside the [try] and the call is answered with -32000 after one
    line on the error console. *)
Theorem X17_advertised_tools_are_the_callable_ones (net : Net) (id : Json) (p : Json)
  (h : list NetEvent) :
  p <> JNull ->
  let known := exists n, member "name" p = Some (JString n) /\ In n advertised in
  (~ known ->
   match template net (member "name" p) with
   | Value text =>
       handleToolCall net id (Some p) h
       = (Resolved (error_response id (-32601)%Z ("Tool not found: " ++ text)), h)
   | TypeError message =>
       handleToolCall net id (Some p) h
       = (Resolved (error_response id (-32000)%Z
                      "Internal server error during tool execution."),
          h ++ [EvLogError "Error in tool call:" (JsError ("TypeError: " ++ message))])
   end) /\
  (known ->
   exists resp extra,
     handleToolCall net id (Some p) h = (Resolved resp, h ++ extra) /\
     forall message, rpc_payload resp <> RpcError (-32601)%Z message).
Proof.
  intro Hp. cbv zeta.
  destruct (handleToolCall_run net id p h Hp) as (resp & extra & E & _ & Hcases).
  rewrite E. split.
  - intro Hnot.
    destruct Hcases as [(Hadv & _)|(_ & [(text & -> & -> & ->)|(m & -> & -> & ->)])];
      [contradiction | |]; [rewrite app_nil_r|]; reflexivity.
  - intros Hk. exists resp, extra. split; [reflexivity|]. intro message.
    destruct Hcases
      as [(_ & [(text & -> & _)|[(m & -> & _)|(e & urls & -> & _)]])|(Hnot & _)];
      [discriminate.. | contradiction].
Qed.

Lemma X17_advertised_tools_are_the_callable_ones_witness :
  let net := sample (Rejected (JsError "offline")) in
  let p := JObject [("name", JObject [("toString", JString "get-alerts")])] in
  let known := exists n, member "name" p = Some (JString n) /\ In n advertised in
  (~ known ->
   match template net (member "name" p) with
   | Value text =>
       handleToolCall net JNull (Some p) []
       = (Resolved (error_response JNull (-32601)%Z ("Tool not found: " ++ text)), [])
   | TypeError message =>
       handleToolCall net JNull (Some p) []
       = (Resolved (error_response JNull (-32000)%Z
                      "Internal server error during tool execution."),
          [] ++ [EvLogError "Error in tool call:" (JsError ("TypeError: " ++ message))])
   end) /\
  (known ->
   exists resp extra,
     handleToolCall net JNull (Some p) [] = (Resolved resp, [] ++ extra) /\
     forall message, rpc_payload resp <> RpcError (-32601)%Z message).
Proof.
  apply (X17_advertised_tools_are_the_callable_ones
           (sample (Rejected (JsError "offline"))) JNull
           (JObject [("name", JObject [("toString", JString "get-alerts")])]) []).
  discriminate.
Defined.

(** X20.  A "get-forecast" call with accepted coordinates asks the
    weather service for the grid point of the coordinates (four decimals
    each) and then for the forecast at the URL that the grid point names,
    and nowhere else.  The second request is made exactly when the first
    is answered with an ok status and a body that names a forecast URL (a
    value that is not falsy and that can be converted to a string);
    otherwise the call is answered with a text result after the first
    request alone.  In every case the call is answered. *)
Theorem X20_forecast_is_requested_where_the_grid_point_says (net : Net) (id : Json)
  (p : Json) (coordinates : Number * Number) (h : list NetEvent) :
  member "name" p = Some (JString "get-forecast") ->
  ForecastArgumentsSchema_parse net (member "arguments" p) = Resolved coordinates ->
  exists resp extra,
    handleToolCall net id (Some p) h = (Resolved resp, h ++ extra) /\
    ((fetched extra = [pointsUrl net coordinates] /\
      (exists text, resp = content id text) /\
      ~ exists forecastUrl, grid_point net h (pointsUrl net coordinates) forecastUrl) \/
     (exists forecastUrl,
        grid_point net h (pointsUrl net coordinates) forecastUrl /\
        fetched extra = [pointsUrl net coordinates; forecastUrl])).
Proof.
  intros Hname Hparse.
  assert (Hp : p <> JNull) by (intros ->; discriminate Hname).
  rewrite (handleToolCall_unfold net id p Hp). rewrite Hname.
  change (String.eqb "get-forecast" "get-alerts") with false.
  change (String.eqb "get-forecast" "get-forecast") with true.
  cbv iota. unfold scatch.
  destruct (getForecast_run net id (member "arguments" p) coordinates h Hparse)
    as (r & extra & E & Hcases).
  rewrite E.
  destruct Hcases as [((text & ->) & Hf & Hno)
                     |(u & Hg & [(text & -> & Hf)|(message & -> & ->)])].
  - exists (content id text), extra. split; [reflexivity|]. left. eauto.
  - exists (content id text), extra. split; [reflexivity|]. right. eauto.
  - eexists _, _. split; [cbn [toolCallFailed]; unfold sbind, log_error, sret;
                          rewrite <- app_assoc; reflexivity|].
    right. exists u. split; [exact Hg|]. reflexivity.
Qed.

Lemma X20_forecast_is_requested_where_the_grid_point_says_witness :
  let net :=
    sample (answered (grid "https://api.weather.gov/gridpoints/OKX/33,35/forecast")) in
  let p := JObject [("name", JString "get-forecast");
                    ("arguments", JObject [("latitude", JNumber "40.7128");
                                           ("longitude", JNumber "-74.0060")])] in
  exists resp extra,
    handleToolCall net JNull (Some p) [] = (Resolved resp, [] ++ extra) /\
    ((fetched extra = [pointsUrl net ("40.7128", "-74.0060")] /\
      (exists text, resp = content JNull text) /\
      ~ exists forecastUrl,
          grid_point net [] (pointsUrl net ("40.7128", "-74.0060")) forecastUrl) \/
     (exists forecastUrl,
        grid_point net [] (pointsUrl net ("40.7128", "-74.0060")) forecastUrl /\
        fetched extra = [pointsUrl net ("40.7128", "-74.0060"); forecastUrl])).
Proof.
  apply (X20_forecast_is_requested_where_the_grid_point_says
           (sample (answered
                      (grid "https://api.weather.gov/gridpoints/OKX/33,35/forecast")))
           JNull
           (JObject [("name", JString "get-forecast");
                     ("arguments", JObject [("latitude", JNumber "40.7128");
                                            ("longitude", JNumber "-74.0060")])])
           ("40.7128", "-74.0060") []); reflexivity.
Defined.

(** The requests that pass the test that opens [processJsonRpcRequest]. *)
Lemma invalid_request_false (net : Net) (body : option Json) :
  invalid_request net body = false <->
  exists members method id,
    body = Some (JObject members) /\
    JsMap.get "method" members = Some (JString method) /\
    JsMap.get "id" members = Some id.
Proof.
  split.
  - destruct body as [b|]; [|discriminate].
    destruct b as [|b|literal|s|items|members]; cbn [invalid_request member];
      try (rewrite orb_true_r; discriminate).
    unfold js_truthy. cbn [negb orb].
    destruct (JsMap.get "method" members) as [[| | |method| |]|] eqn:Hm;
      try discriminate.
    destruct (JsMap.get "id" members) as [id|] eqn:Hi; [|discriminate].
    intros _. exists members, method, id. auto.
  - intros (members & method & id & -> & Hm & Hi).
    cbn [invalid_request member js_truthy negb orb]. rewrite Hm, Hi. reflexivity.
Qed.

Lemma processJsonRpcRequest_valid (net : Net) (members : list (string * Json))
  (method : string) (id : Json) :
  JsMap.get "method" members = Some (JString method) ->
  JsMap.get "id" members = Some id ->
  processJsonRpcRequest net (Some (JObject members))
  = if String.eqb method "initialize" then sret (handleInitialize id)
    else if String.eqb method "tools/list" then sret (handleToolsList id)
    else if String.eqb method "tools/call"
         then handleToolCall net id (JsMap.get "params" members)
    else if String.eqb method "resources/list" || String.eqb method "prompts/list"
         then sret (handleResourcesOrPromptsList id method)
         else sret (handleUnknownMethod id).
Proof.
  intros Hm Hi. unfold processJsonRpcRequest.
  assert (Hv : invalid_request net (Some (JObject members)) = false).
  { apply invalid_request_false. exists members, method, id. auto. }
  rewrite Hv. cbn [member]. rewrite Hm, Hi. reflexivity.
Qed.

(** X18.  [processJsonRpcRequest] answers -32600 "Invalid JSON-RPC
    request" exactly for the bodies that are not an object with a string
    [method] and an [id] (null counts as an id), whatever the runtime says
    about the truth of numbers; it then does nothing else, and no accepted
    request is answered with that code. *)
Theorem X18_invalid_requests_are_the_malformed_ones (net : Net) (body : option Json)
  (h : list NetEvent) :
  let well_formed :=
    exists members method id,
      body = Some (JObject members) /\
      JsMap.get "method" members = Some (JString method) /\
      JsMap.get "id" members = Some id in
  (~ well_formed ->
   processJsonRpcRequest net body h
   = (Resolved (error_response (id_or_null net body) (-32600)%Z "Invalid JSON-RPC request"),
      h)) /\
  (well_formed ->
   forall resp h' message,
     processJsonRpcRequest net body h = (Resolved resp, h') ->
     rpc_payload resp <> RpcError (-32600)%Z message).
Proof.
  cbv zeta. split.
  - intro Hnot. unfold processJsonRpcRequest.
    destruct (invalid_request net body) eqn:Hv; [reflexivity|].
    apply invalid_request_false in Hv. contradiction.
  - intros (members & method & id & -> & Hm & Hi) resp h' message.
    rewrite (processJsonRpcRequest_valid net members method id Hm Hi).
    destruct (String.eqb method "initialize");
      [intro E; inversion E; subst; discriminate|].
    destruct (String.eqb method "tools/list");
      [intro E; inversion E; subst; discriminate|].
    destruct (String.eqb method "tools/call").
    + destruct (JsMap.get "params" members) as [p|] eqn:Hp; [|discriminate].
      destruct (Json_eq_null p) as [->|Hnull]; [discriminate|].
      destruct (handleToolCall_run net id p h Hnull) as (resp0 & extra & E & _ & Hcases).
      rewrite E. intro E'. inversion E'; subst resp0 h'.
      destruct Hcases
        as [(_ & [(text & -> & _)|[(m & -> & _)|(e & urls & -> & _)]])
           |(_ & [(text & _ & -> & _)|(m & _ & -> & _)])];
        discriminate.
    + destruct (String.eqb method "resources/list" || String.eqb method "prompts/list");
        intro E; inversion E; subst; discriminate.
Qed.

(** X19.  An accepted request is answered with its own id.  Only
    [tools/call] interacts with anything: every other method resolves
    without a request to the weather service and without a line on the
    console.  The one way [processJsonRpcRequest] does not answer is a
    [tools/call] whose [params] is missing or null: its promise rejects,
    before anything is done. *)
Theorem X19_accepted_requests_echo_their_id (net : Net) (members : list (string * Json))
  (method : string) (id : Json) (h : list NetEvent) :
  JsMap.get "method" members = Some (JString method) ->
  JsMap.get "id" members = Some id ->
  let body := Some (JObject members) in
  let params := JsMap.get "params" members in
  let unusable := method = "tools/call" /\ (params = None \/ params = Some JNull) in
  (unusable -> exists e, processJsonRpcRequest net body h = (Rejected e, h)) /\
  (~ unusable ->
   exists resp extra,
     processJsonRpcRequest net body h = (Resolved resp, h ++ extra) /\
     rpc_id resp = id /\
     (method <> "tools/call" -> extra = []) /\
     List.length (fetched extra) <= 2).
Proof.
  intros Hm Hi. cbv zeta.
  rewrite (processJsonRpcRequest_valid net members method id Hm Hi).
  assert (Hquiet : forall resp : RpcResponse,
             rpc_id resp = id ->
             method <> "tools/call" ->
             exists resp0 extra,
               sret resp h = (Resolved resp0, h ++ extra) /\
               rpc_id resp0 = id /\
               (method <> "tools/call" -> extra = []) /\
               List.length (fetched extra) <= 2).
  { intros resp Hid _. exists resp, []. rewrite app_nil_r.
    repeat split; auto. }
  split.
  - intros (-> & Hp). cbn [String.eqb Ascii.eqb Bool.eqb andb].
    change (String.eqb "tools/call" "initialize") with false.
    change (String.eqb "tools/call" "tools/list") with false.
    change (String.eqb "tools/call" "tools/call") with true.
    cbv iota.
    destruct Hp as [-> | ->]; eexists; reflexivity.
  - intro Hus.
    destruct (String.eqb_spec method "initialize") as [->|_];
      [apply Hquiet; [reflexivity | discriminate]|].
    destruct (String.eqb_spec method "tools/list") as [->|_];
      [apply Hquiet; [reflexivity | discriminate]|].
    destruct (String.eqb_spec method "tools/call") as [->|Hcall].
    + destruct (JsMap.get "params" members) as [p|] eqn:Hp; [|exfalso; apply Hus; auto].
      destruct (Json_eq_null p) as [->|Hnull]; [exfalso; apply Hus; auto|].
      destruct (handleToolCall_run net id p h Hnull) as (resp & extra & E & Hid & Hcases).
      exists resp, extra. split; [exact E|]. split; [exact Hid|].
      split; [intro D; contradiction|].
      destruct Hcases as [(_ & [(text & _ & Hf)|[(m & _ & ->)|(e & urls & _ & -> & Hl)]])
                         |(_ & [(text & _ & _ & ->)|(m & _ & _ & ->)])];
        try (cbn; lia).
      rewrite fetched_app, fetched_requested, length_app. cbn. lia.
    + destruct (String.eqb method "resources/list" || String.eqb method "prompts/list");
        apply Hquiet; auto.
Qed.

Lemma X19_accepted_requests_echo_their_id_witness :
  let net := sample (Rejected (JsError "offline")) in
  let members := [("jsonrpc", JString "2.0"); ("id", JNumber "7");
                  ("method", JString "tools/call")] in
  let body := Some (JObject members) in
  let params := JsMap.get "params" members in
  let unusable := "tools/call" = "tools/call" /\ (params = None \/ params = Some JNull) in
  (unusable -> exists e, processJsonRpcRequest net body [] = (Rejected e, [])) /\
  (~ unusable ->
   exists resp extra,
     processJsonRpcRequest net body [] = (Resolved resp, [] ++ extra) /\
     rpc_id resp = JNumber "7" /\
     ("tools/call" <> "tools/call" -> extra = []) /\
     List.length (fetched extra) <= 2).
Proof.
  apply (X19_accepted_requests_echo_their_id
           (sample (Rejected (JsError "offline")))
           [("jsonrpc", JString "2.0"); ("id", JNumber "7");
            ("method", JString "tools/call")]
           "tools/call" (JNumber "7") []); reflexivity.
Defined.

End ServerFacts.
